(** * FlameUp: the backup lifecycle manager of [main.cpp]

    A shallow embedding of the snapshot naming, the catalog, the retention
    policy, the snapshot operations and the daemon loop, followed by the
    properties of the specification that concern them.

    Platform.  The program is the "Windows Backup Tool" of its
    [CMakeLists.txt] and calls the Microsoft form of [localtime_s], so the
    embedding fixes that platform where the C++ standard leaves a choice:
    [unsigned long] and the representation of [std::chrono::minutes] are
    32 bits wide, [/] and [\] both separate path elements and [\] is the
    preferred separator.  Drive letters and symbolic links are not modelled,
    and a path is resolved lexically against the current directory. *)

From Stdlib Require Import ZArith NArith Ascii String List Sorted Permutation.
From stdpp Require Import gmap strings list fin_maps sorting.

Local Open Scope Z_scope.

(* ===================================================================== *)
(** * Strings as [std::string] *)
(* ===================================================================== *)

Definition chr (n : nat) : string := String (ascii_of_nat n) EmptyString.
Definition nl : string := chr 10.
Definition dquote : string := chr 34.
Definition backslash : string := chr 92.
(** U+2713, the check mark of the success messages, in UTF-8. *)
Definition check_mark : string := chr 226 +:+ chr 156 +:+ chr 147.

(** [std::string::compare]: characters are compared as [unsigned char],
    a proper prefix is smaller. *)
Fixpoint string_compare (a b : string) : comparison :=
  match a, b with
  | EmptyString, EmptyString => Eq
  | EmptyString, String _ _ => Lt
  | String _ _, EmptyString => Gt
  | String c a', String d b' =>
      match N.compare (N_of_ascii c) (N_of_ascii d) with
      | Eq => string_compare a' b'
      | r => r
      end
  end.

(** [a < b] and [a > b] on [std::string]. *)
Definition string_ltb (a b : string) : bool :=
  match string_compare a b with Lt => true | _ => false end.
Definition string_gtb (a b : string) : bool := string_ltb b a.
Definition string_lt (a b : string) : Prop := string_compare a b = Lt.

(** [s.starts_with(p)]. *)
Fixpoint starts_with (s p : string) : bool :=
  match p with
  | EmptyString => true
  | String c p' =>
      match s with
      | EmptyString => false
      | String d s' => Ascii.eqb c d && starts_with s' p'
      end
  end.

(** Decimal output of an unsigned number, as [operator<<] prints it. *)
Definition digit_char (d : N) : ascii := ascii_of_N (48 + d).

Fixpoint dec_digits (fuel : nat) (n : N) (acc : string) : string :=
  match fuel with
  | O => acc
  | S fuel' =>
      let acc' := String (digit_char (n mod 10)) acc in
      if (n <? 10)%N then acc' else dec_digits fuel' (n / 10)%N acc'
  end.

Definition dec_N (n : N) : string :=
  dec_digits (S (N.to_nat (N.log2 n))) n EmptyString.

Definition dec_Z (z : Z) : string :=
  if z <? 0 then "-" +:+ dec_N (Z.abs_N z) else dec_N (Z.to_N z).

(** A number in a field of width two filled with zeros ([%02d]). *)
Definition pad2 (z : Z) : string :=
  let s := dec_Z z in
  if (String.length s <? 2)%nat then "0" +:+ s else s.

(* ===================================================================== *)
(** * Snapshot naming *)
(* ===================================================================== *)

(** [struct tm], the broken-down local time that [localtime_s] fills in. *)
Record tm := {
  tm_sec : Z;
  tm_min : Z;
  tm_hour : Z;
  tm_mday : Z;
  tm_mon : Z;
  tm_year : Z;
  tm_wday : Z;
  tm_yday : Z;
  tm_isdst : Z
}.

(** [std::put_time(&tm_buf, "%Y-%m-%d_%H-%M-%S")]. *)
Definition put_time_stamp (t : tm) : string :=
  dec_Z (1900 + tm_year t) +:+ "-" +:+ pad2 (tm_mon t + 1) +:+ "-" +:+
  pad2 (tm_mday t) +:+ "_" +:+ pad2 (tm_hour t) +:+ "-" +:+
  pad2 (tm_min t) +:+ "-" +:+ pad2 (tm_sec t).

(** [make_timestamp_folder_name].  The argument is what [localtime_s] made
    of [system_clock::now()]: [None] when it returned a non-zero error. *)
Definition make_timestamp_folder_name (lt : option tm) : string :=
  match lt with
  | None => "Backup_Error"
  | Some tm_buf => "Backup_" +:+ put_time_stamp tm_buf
  end.

(** The instant of a broken-down time to the second, most significant
    field first, and the chronological order on such instants. *)
Definition tm_fields (t : tm) : list Z :=
  [tm_year t; tm_mon t; tm_mday t; tm_hour t; tm_min t; tm_sec t].

Fixpoint fields_compare (a b : list Z) : comparison :=
  match a, b with
  | [], [] => Eq
  | [], _ :: _ => Lt
  | _ :: _, [] => Gt
  | x :: a', y :: b' =>
      match Z.compare x y with Eq => fields_compare a' b' | r => r end
  end.

Definition tm_before (t1 t2 : tm) : Prop :=
  fields_compare (tm_fields t1) (tm_fields t2) = Lt.

(** The ranges of the fields that name a calendar instant whose year is
    written with four digits (the Microsoft [localtime_s] produces the
    years 1969 to 3001 only). *)
Definition tm_in_range (t : tm) : Prop :=
  0 <= tm_sec t <= 60 /\ 0 <= tm_min t <= 59 /\ 0 <= tm_hour t <= 23 /\
  1 <= tm_mday t <= 31 /\ 0 <= tm_mon t <= 11 /\
  1000 <= 1900 + tm_year t <= 9999.

(** The decimal digits of [n] in a field of exactly [w] characters. *)
Fixpoint fixed_dec (w : nat) (n : N) : string :=
  match w with
  | O => EmptyString
  | S w' => String (digit_char (n / 10 ^ N.of_nat w')) (fixed_dec w' (n mod 10 ^ N.of_nat w'))
  end.


(* ===================================================================== *)
(** * Paths as [std::filesystem::path] *)
(* ===================================================================== *)

(** A path is its native text.  [/] and [\] separate its elements. *)
Definition is_separator (c : ascii) : bool :=
  Ascii.eqb c (ascii_of_nat 47) || Ascii.eqb c (ascii_of_nat 92).

Definition has_root_directory (p : string) : bool :=
  match p with
  | String c _ => is_separator c
  | EmptyString => false
  end.

Fixpoint ends_with_separator (p : string) : bool :=
  match p with
  | EmptyString => false
  | String c EmptyString => is_separator c
  | String _ r => ends_with_separator r
  end.

(** [p.has_filename()]: the text is not empty and does not end in a
    separator. *)
Definition has_filename (p : string) : bool :=
  match p with
  | EmptyString => false
  | _ => negb (ends_with_separator p)
  end.

(** [p / q] for path texts without a root name (a drive or a server
    prefix), which this embedding does not have: a [q] that starts at the
    root directory replaces [p], and otherwise [q] is appended, after a
    separator when [p] has a file name.  Where [p] has a root name the
    operator keeps it in front of a rooted [q]; nothing here is stated
    about such paths. *)
Definition path_join (p q : string) : string :=
  if has_root_directory q then q
  else if has_filename p then p +:+ backslash +:+ q
  else p +:+ q.

Fixpoint drop_while {A} (f : A -> bool) (l : list A) : list A :=
  match l with
  | [] => []
  | x :: l' => if f x then drop_while f l' else l
  end.

(** [p.parent_path()]: the text without its last element and without the
    separators before it; the root directory is its own parent. *)
Definition parent_path (p : string) : string :=
  let back := rev (list_ascii_of_string p) in
  let dir := drop_while is_separator (drop_while (fun c => negb (is_separator c)) back) in
  match dir with
  | [] => match p with
          | String c _ => if is_separator c then String c EmptyString else EmptyString
          | EmptyString => EmptyString
          end
  | _ => string_of_list_ascii (rev dir)
  end.

Definition has_parent_path (p : string) : bool :=
  match parent_path p with
  | EmptyString => false
  | _ => true
  end.

(** The elements of a path text, the empty ones between adjacent
    separators included. *)
Fixpoint split_path (s : string) : list string :=
  match s with
  | EmptyString => [EmptyString]
  | String c r =>
      if is_separator c then EmptyString :: split_path r
      else match split_path r with
           | [] => [String c EmptyString]
           | h :: t => String c h :: t
           end
  end.

(** The location that a list of elements names, starting from [cur]. *)
Fixpoint normalize (cur : list string) (elems : list string) : list string :=
  match elems with
  | [] => cur
  | e :: rest =>
      if decide (e = EmptyString) then normalize cur rest
      else if decide (e = ".") then normalize cur rest
      else if decide (e = "..") then normalize (removelast cur) rest
      else normalize (cur ++ [e]) rest
  end.

(** The location of a path: the names from the root directory down.  The
    empty path names nothing. *)
Definition resolve (cwd : list string) (p : string) : option (list string) :=
  match p with
  | EmptyString => None
  | String c r =>
      Some (if is_separator c then normalize [] (split_path r)
            else normalize cwd (split_path p))
  end.

(** [operator<<] on a path: the text between double quotes, with [\] before
    every double quote and backslash ([std::quoted]). *)
Fixpoint escape (s : string) : string :=
  match s with
  | EmptyString => EmptyString
  | String c r =>
      if Ascii.eqb c (ascii_of_nat 34) || Ascii.eqb c (ascii_of_nat 92)
      then String (ascii_of_nat 92) (String c (escape r))
      else String c (escape r)
  end.

Definition quoted (p : string) : string := dquote +:+ escape p +:+ dquote.

(* ===================================================================== *)
(** * The file system and the program state *)
(* ===================================================================== *)

Inductive node :=
  | NFile (content : string)
  | NDir.

Global Instance node_eq_dec : EqDecision node.
Proof. solve_decision. Defined.

(** The file system maps each location that exists to what is there. *)
Abbreviation filesystem := (gmap (list string) node).

(** The root directory always exists. *)
Definition node_at (fs : filesystem) (k : list string) : option node :=
  match k with
  | [] => Some NDir
  | _ => fs !! k
  end.

Inductive event :=
  | Out (text : string)
  | Err (text : string)
  | SleepUntil (deadline : Z).

Record world := {
  w_fs : filesystem;
  w_cwd : list string;
  w_trace : list event
}.

Definition set_fs (w : world) (fs : filesystem) : world :=
  {| w_fs := fs; w_cwd := w_cwd w; w_trace := w_trace w |}.

Definition emit (w : world) (e : event) : world :=
  {| w_fs := w_fs w; w_cwd := w_cwd w; w_trace := w_trace w ++ [e] |}.

(** What the standard library leaves to the implementation. *)
Record platform := {
  (** [fs::file_size] of a directory; [None] when it throws. *)
  dir_file_size : filesystem -> list string -> option N;
  (** what a recursive [fs::copy] has written when it throws part way *)
  copy_partial : filesystem -> list string -> list string -> filesystem
}.

(** Exceptions, all derived from [std::exception]. *)
Inductive exn :=
  | RuntimeError (msg : string)
  | FilesystemError (operation : string)
  | InvalidArgument (operation : string)
  | OutOfRange (operation : string).

(** [e.what()].  The text of a library exception is left to the
    implementation; the name of the failed operation stands for it. *)
Definition what (e : exn) : string :=
  match e with
  | RuntimeError msg => msg
  | FilesystemError op => "filesystem error: " +:+ op
  | InvalidArgument op => "invalid argument: " +:+ op
  | OutOfRange op => "out of range: " +:+ op
  end.

(** The outcome of running a piece of the program: a value, an exception in
    flight, undefined behaviour, or still inside the daemon loop when the
    observed cycles are used up. *)
Inductive res (A : Type) :=
  | Ok (a : A) (w : world)
  | Throw (e : exn) (w : world)
  | Undefined
  | Running (w : world).
Arguments Ok {A} a w.
Arguments Throw {A} e w.
Arguments Undefined {A}.
Arguments Running {A} w.

Definition M (A : Type) : Type := world -> res A.

Global Instance M_ret : MRet M := fun A a w => Ok a w.

Global Instance M_bind : MBind M := fun A B f m w =>
  match m w with
  | Ok a w' => f a w'
  | Throw e w' => Throw e w'
  | Undefined => Undefined
  | Running w' => Running w'
  end.

Definition throw {A} (e : exn) : M A := fun w => Throw e w.
Definition undefined {A} : M A := fun _ => Undefined.

(** [try { body } catch (const std::exception& e) { handler }]. *)
Definition try_catch {A} (body : M A) (handler : exn -> M A) : M A := fun w =>
  match body w with
  | Throw e w' => handler e w'
  | r => r
  end.

Definition cout (text : string) : M unit := fun w => Ok tt (emit w (Out text)).
Definition cerr (text : string) : M unit := fun w => Ok tt (emit w (Err text)).
Definition when (b : bool) (m : M unit) : M unit := if b then m else mret tt.

(** ** File-system operations *)

Definition lookup_path (w : world) (p : string) : option node :=
  match resolve (w_cwd w) p with
  | Some k => node_at (w_fs w) k
  | None => None
  end.

(** [fs::exists(p)] and [fs::is_directory(p)]. *)
Definition fs_exists (p : string) : M bool := fun w =>
  Ok (match lookup_path w p with Some _ => true | None => false end) w.

Definition fs_is_directory (p : string) : M bool := fun w =>
  Ok (match lookup_path w p with Some NDir => true | _ => false end) w.

(** [fs::remove_all(p)]: [p] and everything below it goes. *)
Definition remove_tree (k : list string) (fs : filesystem) : filesystem :=
  filter (fun kv => ~ k `prefix_of` kv.1) fs.

Definition remove_all (p : string) : M unit := fun w =>
  match resolve (w_cwd w) p with
  | Some k => Ok tt (set_fs w (remove_tree k (w_fs w)))
  | None => Ok tt w
  end.

(** [fs::create_directories(p)]: every missing directory on the way to [p]
    is made; a regular file on the way is an error. *)
Fixpoint mkdirs (fs : filesystem) (done todo : list string) : option filesystem :=
  match todo with
  | [] => Some fs
  | e :: rest =>
      let k := done ++ [e] in
      match fs !! k with
      | Some (NFile _) => None
      | Some NDir => mkdirs fs k rest
      | None => mkdirs (<[k := NDir]> fs) k rest
      end
  end.

Definition create_directories (p : string) : M unit := fun w =>
  match resolve (w_cwd w) p with
  | Some k =>
      match mkdirs (w_fs w) [] k with
      | Some fs' => Ok tt (set_fs w fs')
      | None => Throw (FilesystemError "create_directories") w
      end
  | None => Throw (FilesystemError "create_directories") w
  end.

(** What is left of [q] below [k], when [q] is at or below [k]. *)
Fixpoint strip_prefix (k q : list string) : option (list string) :=
  match k, q with
  | [], _ => Some q
  | _ :: _, [] => None
  | a :: k', b :: q' => if decide (a = b) then strip_prefix k' q' else None
  end.

(** [fs::directory_iterator(p)]: the entries directly in the directory,
    each with its file name and what it is. *)
Definition child_entry (k : list string) (kv : list string * node)
  : option (string * node) :=
  match strip_prefix k kv.1 with
  | Some [name] => Some (name, kv.2)
  | _ => None
  end.

Definition dir_entries (fs : filesystem) (k : list string) : list (string * node) :=
  omap (child_entry k) (map_to_list fs).

Definition directory_iterator (p : string) : M (list (string * node)) := fun w =>
  match resolve (w_cwd w) p with
  | Some k =>
      match node_at (w_fs w) k with
      | Some NDir => Ok (dir_entries (w_fs w) k) w
      | _ => Throw (FilesystemError "directory_iterator") w
      end
  | None => Throw (FilesystemError "directory_iterator") w
  end.

(** [fs::copy(from, to, fs::copy_options::recursive)].

    The tree at [s] is written at [d].  A regular file is never
    overwritten and a directory never replaces a regular file: either is
    an error.  A directory cannot be copied to itself or into itself (the
    copy would descend into its own output until a name is too long). *)
Definition moved_entry (s d : list string) (kv : list string * node)
  : option (list string * node) :=
  match strip_prefix s kv.1 with
  | Some rest => Some (d ++ rest, kv.2)
  | None => None
  end.

Definition copy_entries (fs : filesystem) (s d : list string)
  : list (list string * node) :=
  omap (moved_entry s d) (map_to_list fs).

Definition copy_clash (fs : filesystem) (kv : list string * node) : bool :=
  match kv.2, node_at fs kv.1 with
  | NFile _, Some _ => true
  | NDir, Some (NFile _) => true
  | _, _ => false
  end.

Definition copy_tree (fs : filesystem) (s d : list string) : option filesystem :=
  match node_at fs s with
  | None => None
  | Some (NFile content) =>
      let d' := match node_at fs d with
                | Some NDir => d ++ drop (length s - 1) s
                | _ => d
                end in
      match node_at fs d', node_at fs (removelast d') with
      | None, Some NDir => Some (<[d' := NFile content]> fs)
      | _, _ => None
      end
  | Some NDir =>
      if decide (s `prefix_of` d) then None
      else match node_at fs d, node_at fs (removelast d) with
           | Some (NFile _), _ => None
           | None, Some (NFile _) | None, None => None
           | _, _ =>
               let new := (d, NDir) :: copy_entries fs s d in
               if existsb (copy_clash fs) new then None
               else Some (list_to_map new ∪ fs)
           end
  end.

Definition copy_recursive (P : platform) (from to : string) : M unit := fun w =>
  match resolve (w_cwd w) from, resolve (w_cwd w) to with
  | Some s, Some d =>
      match copy_tree (w_fs w) s d with
      | Some fs' => Ok tt (set_fs w fs')
      | None => Throw (FilesystemError "copy")
                  (set_fs w (copy_partial P (w_fs w) s d))
      end
  | _, _ => Throw (FilesystemError "copy") w
  end.

(** [fs::file_size(p)]. *)
Definition file_size (P : platform) (p : string) : M N := fun w =>
  match resolve (w_cwd w) p with
  | Some k =>
      match node_at (w_fs w) k with
      | Some (NFile content) => Ok (N.of_nat (String.length content)) w
      | Some NDir =>
          match dir_file_size P (w_fs w) k with
          | Some n => Ok n w
          | None => Throw (FilesystemError "file_size") w
          end
      | None => Throw (FilesystemError "file_size") w
      end
  | None => Throw (FilesystemError "file_size") w
  end.

(** [std::sort] by a strict order on file names.  The names in one
    directory are pairwise distinct, so the outcome is the one ordered
    arrangement whatever the algorithm. *)
Fixpoint insert_sorted (lt : string -> string -> bool) (x : string) (l : list string)
  : list string :=
  match l with
  | [] => [x]
  | y :: l' => if lt y x then y :: insert_sorted lt x l' else x :: l
  end.

Definition std_sort (lt : string -> string -> bool) (l : list string) : list string :=
  foldr (insert_sorted lt) [] l.

(* ===================================================================== *)
(** * Configuration and command line *)
(* ===================================================================== *)

Record BackupConfig := {
  sourcePath : string;
  backupRoot : string;
  configFile : string;
  maxBackups : N;
  interval : Z;
  daemon : bool;
  instant : bool;
  verbose : bool;
  help : bool;
  listBackups : bool;
  restoreBackup : option string;
  deleteBackup : option string
}.

(** The member initializers of [BackupConfig]. *)
Definition default_config : BackupConfig := {|
  sourcePath := EmptyString;
  backupRoot := "CopiedFiles";
  configFile := "paths.txt";
  maxBackups := 10;
  interval := 30;
  daemon := false;
  instant := false;
  verbose := false;
  help := false;
  listBackups := false;
  restoreBackup := None;
  deleteBackup := None
|}.

Definition set_sourcePath (c : BackupConfig) (v : string) : BackupConfig :=
  {| sourcePath := v; backupRoot := backupRoot c; configFile := configFile c;
     maxBackups := maxBackups c; interval := interval c; daemon := daemon c;
     instant := instant c; verbose := verbose c; help := help c;
     listBackups := listBackups c; restoreBackup := restoreBackup c;
     deleteBackup := deleteBackup c |}.

Definition set_backupRoot (c : BackupConfig) (v : string) : BackupConfig :=
  {| sourcePath := sourcePath c; backupRoot := v; configFile := configFile c;
     maxBackups := maxBackups c; interval := interval c; daemon := daemon c;
     instant := instant c; verbose := verbose c; help := help c;
     listBackups := listBackups c; restoreBackup := restoreBackup c;
     deleteBackup := deleteBackup c |}.

Definition set_configFile (c : BackupConfig) (v : string) : BackupConfig :=
  {| sourcePath := sourcePath c; backupRoot := backupRoot c; configFile := v;
     maxBackups := maxBackups c; interval := interval c; daemon := daemon c;
     instant := instant c; verbose := verbose c; help := help c;
     listBackups := listBackups c; restoreBackup := restoreBackup c;
     deleteBackup := deleteBackup c |}.

Definition set_maxBackups (c : BackupConfig) (v : N) : BackupConfig :=
  {| sourcePath := sourcePath c; backupRoot := backupRoot c; configFile := configFile c;
     maxBackups := v; interval := interval c; daemon := daemon c;
     instant := instant c; verbose := verbose c; help := help c;
     listBackups := listBackups c; restoreBackup := restoreBackup c;
     deleteBackup := deleteBackup c |}.

Definition set_interval (c : BackupConfig) (v : Z) : BackupConfig :=
  {| sourcePath := sourcePath c; backupRoot := backupRoot c; configFile := configFile c;
     maxBackups := maxBackups c; interval := v; daemon := daemon c;
     instant := instant c; verbose := verbose c; help := help c;
     listBackups := listBackups c; restoreBackup := restoreBackup c;
     deleteBackup := deleteBackup c |}.

Definition set_daemon (c : BackupConfig) : BackupConfig :=
  {| sourcePath := sourcePath c; backupRoot := backupRoot c; configFile := configFile c;
     maxBackups := maxBackups c; interval := interval c; daemon := true;
     instant := instant c; verbose := verbose c; help := help c;
     listBackups := listBackups c; restoreBackup := restoreBackup c;
     deleteBackup := deleteBackup c |}.

Definition set_instant (c : BackupConfig) : BackupConfig :=
  {| sourcePath := sourcePath c; backupRoot := backupRoot c; configFile := configFile c;
     maxBackups := maxBackups c; interval := interval c; daemon := daemon c;
     instant := true; verbose := verbose c; help := help c;
     listBackups := listBackups c; restoreBackup := restoreBackup c;
     deleteBackup := deleteBackup c |}.

Definition set_verbose (c : BackupConfig) : BackupConfig :=
  {| sourcePath := sourcePath c; backupRoot := backupRoot c; configFile := configFile c;
     maxBackups := maxBackups c; interval := interval c; daemon := daemon c;
     instant := instant c; verbose := true; help := help c;
     listBackups := listBackups c; restoreBackup := restoreBackup c;
     deleteBackup := deleteBackup c |}.

Definition set_help (c : BackupConfig) : BackupConfig :=
  {| sourcePath := sourcePath c; backupRoot := backupRoot c; configFile := configFile c;
     maxBackups := maxBackups c; interval := interval c; daemon := daemon c;
     instant := instant c; verbose := verbose c; help := true;
     listBackups := listBackups c; restoreBackup := restoreBackup c;
     deleteBackup := deleteBackup c |}.

Definition set_listBackups (c : BackupConfig) : BackupConfig :=
  {| sourcePath := sourcePath c; backupRoot := backupRoot c; configFile := configFile c;
     maxBackups := maxBackups c; interval := interval c; daemon := daemon c;
     instant := instant c; verbose := verbose c; help := help c;
     listBackups := true; restoreBackup := restoreBackup c;
     deleteBackup := deleteBackup c |}.

Definition set_restoreBackup (c : BackupConfig) (v : string) : BackupConfig :=
  {| sourcePath := sourcePath c; backupRoot := backupRoot c; configFile := configFile c;
     maxBackups := maxBackups c; interval := interval c; daemon := daemon c;
     instant := instant c; verbose := verbose c; help := help c;
     listBackups := listBackups c; restoreBackup := Some v;
     deleteBackup := deleteBackup c |}.

Definition set_deleteBackup (c : BackupConfig) (v : string) : BackupConfig :=
  {| sourcePath := sourcePath c; backupRoot := backupRoot c; configFile := configFile c;
     maxBackups := maxBackups c; interval := interval c; daemon := daemon c;
     instant := instant c; verbose := verbose c; help := help c;
     listBackups := listBackups c; restoreBackup := restoreBackup c;
     deleteBackup := Some v |}.

(** ** [std::stoul] *)

Definition ULONG_MAX : N := 4294967295.

Definition is_space (c : ascii) : bool :=
  let n := N_of_ascii c in (n =? 32)%N || ((9 <=? n)%N && (n <=? 13)%N).

Definition is_digit (c : ascii) : bool :=
  let n := N_of_ascii c in (48 <=? n)%N && (n <=? 57)%N.

Fixpoint skip_spaces (s : string) : string :=
  match s with
  | String c r => if is_space c then skip_spaces r else s
  | EmptyString => s
  end.

Fixpoint read_digits (s : string) (acc : N) (seen : bool) : N * bool :=
  match s with
  | String c r =>
      if is_digit c then read_digits r (10 * acc + (N_of_ascii c - 48))%N true
      else (acc, seen)
  | EmptyString => (acc, seen)
  end.

(** Leading white space, an optional sign, then decimal digits up to the
    first character that is none.  No digit: [std::invalid_argument]; a
    magnitude above [ULONG_MAX]: [std::out_of_range]; a minus sign negates
    in [unsigned long]. *)
Definition stoul (s : string) : exn + N :=
  let s1 := skip_spaces s in
  let '(negative, s2) :=
    match s1 with
    | String c r =>
        if Ascii.eqb c (ascii_of_nat 45) then (true, r)
        else if Ascii.eqb c (ascii_of_nat 43) then (false, r)
        else (false, s1)
    | EmptyString => (false, s1)
    end in
  let '(v, seen) := read_digits s2 0%N false in
  if negb seen then inl (InvalidArgument "stoul")
  else if (ULONG_MAX <? v)%N then inl (OutOfRange "stoul")
  else inr (if negative then ((ULONG_MAX + 1 - v) mod (ULONG_MAX + 1))%N else v).

(** The conversion of an [unsigned long] to the [int] that counts the
    minutes of [std::chrono::minutes]. *)
Definition to_int (n : N) : Z :=
  let z := Z.of_N n mod 2 ^ 32 in
  if z <? 2 ^ 31 then z else z - 2 ^ 32.

Definition is_arg (arg short long : string) : bool :=
  String.eqb arg short || String.eqb arg long.

(** The loop of [parse_arguments] over [argv[1]], [argv[2]], ... *)
Fixpoint parse_loop (args : list string) (config : BackupConfig)
  : exn + BackupConfig :=
  match args with
  | [] => inr config
  | arg :: rest =>
      if is_arg arg "-h" "--help" then parse_loop rest (set_help config)
      else if is_arg arg "-p" "--path" then
        match rest with
        | v :: rest' => parse_loop rest' (set_sourcePath config v)
        | [] => inl (RuntimeError "--path requires a value")
        end
      else if is_arg arg "-c" "--config" then
        match rest with
        | v :: rest' => parse_loop rest' (set_configFile config v)
        | [] => inl (RuntimeError "--config requires a value")
        end
      else if is_arg arg "-o" "--output" then
        match rest with
        | v :: rest' => parse_loop rest' (set_backupRoot config v)
        | [] => inl (RuntimeError "--output requires a value")
        end
      else if is_arg arg "-m" "--max" then
        match rest with
        | v :: rest' =>
            match stoul v with
            | inr n => parse_loop rest' (set_maxBackups config n)
            | inl e => inl e
            end
        | [] => inl (RuntimeError "--max requires a value")
        end
      else if is_arg arg "-i" "--interval" then
        match rest with
        | v :: rest' =>
            match stoul v with
            | inr n => parse_loop rest' (set_interval config (to_int n))
            | inl e => inl e
            end
        | [] => inl (RuntimeError "--interval requires a value")
        end
      else if is_arg arg "-d" "--daemon" then parse_loop rest (set_daemon config)
      else if is_arg arg "-n" "--now" then parse_loop rest (set_instant config)
      else if is_arg arg "-v" "--verbose" then parse_loop rest (set_verbose config)
      else if is_arg arg "-l" "--list" then parse_loop rest (set_listBackups config)
      else if is_arg arg "-r" "--restore" then
        match rest with
        | v :: rest' => parse_loop rest' (set_restoreBackup config v)
        | [] => inl (RuntimeError "--restore requires a backup name")
        end
      else if String.eqb arg "--restore-to" then
        match rest with
        | _ :: rest' => parse_loop rest' config
        | [] => inl (RuntimeError "--restore-to requires a path")
        end
      else if String.eqb arg "--delete" then
        match rest with
        | v :: rest' => parse_loop rest' (set_deleteBackup config v)
        | [] => inl (RuntimeError "--delete requires a backup name")
        end
      else inl (RuntimeError ("Unknown argument: " +:+ arg))
  end.

(** [parse_arguments(argc, argv)], on the arguments after [argv[0]]. *)
Definition parse_arguments (args : list string) : exn + BackupConfig :=
  parse_loop args default_config.

Definition lift {A} (r : exn + A) : M A := fun w =>
  match r with
  | inr a => Ok a w
  | inl e => Throw e w
  end.

(** ** [read_path_from_file] *)

Definition is_blank (c : ascii) : bool :=
  let n := N_of_ascii c in
  (n =? 32)%N || (n =? 9)%N || (n =? 13)%N || (n =? 10)%N.

(** The lines that successive [std::getline] calls deliver. *)
Fixpoint getlines (s : string) : list string :=
  match s with
  | EmptyString => []
  | String c r =>
      if Ascii.eqb c (ascii_of_nat 10) then EmptyString :: getlines r
      else match getlines r with
           | [] => [String c EmptyString]
           | h :: t => String c h :: t
           end
  end.

Definition trim (line : string) : string :=
  string_of_list_ascii
    (rev (drop_while is_blank (rev (drop_while is_blank (list_ascii_of_string line))))).

Fixpoint first_path_line (lines : list string) : option string :=
  match lines with
  | [] => None
  | l :: rest =>
      let line := trim l in
      if String.eqb line EmptyString then first_path_line rest
      else if starts_with line "#" || starts_with line "//" || starts_with line "--"
      then first_path_line rest
      else Some line
  end.

Definition read_path_from_file (txtFilePath : string) : M string := fun w =>
  match lookup_path w txtFilePath with
  | Some (NFile content) =>
      match first_path_line (getlines content) with
      | Some line => Ok line w
      | None => Throw (RuntimeError ("No valid path found in file: " +:+ txtFilePath)) w
      end
  | _ => Throw (RuntimeError ("Cannot open config file: " +:+ txtFilePath)) w
  end.

(* ===================================================================== *)
(** * Catalog, retention and snapshot operations *)
(* ===================================================================== *)

Definition is_directory_entry (e : string * node) : bool :=
  match e.2 with
  | NDir => true
  | NFile _ => false
  end.

(** The loop that [list_backups] and [cleanup_old_backups] both run over the
    directory entries: the file names of those that are directories and
    start with [Backup_]. *)
Definition backup_names (entries : list (string * node)) : list string :=
  (filter (fun e => is_directory_entry e && starts_with e.1 "Backup_") entries).*1.

(** The output loop of [list_backups]. *)
Fixpoint print_backups (P : platform) (backupRoot : string) (backups : list string)
  : M unit :=
  match backups with
  | [] => mret tt
  | backup :: rest =>
      size ← file_size P (path_join backupRoot backup);
      cout ("  " +:+ backup +:+ " (Size: " +:+ dec_N size +:+ " bytes)" +:+ nl);;
      print_backups P backupRoot rest
  end.

Definition list_backups (P : platform) (backupRoot : string) : M unit :=
  found ← fs_exists backupRoot;
  if negb found then
    cout ("No backup directory found at: " +:+ quoted backupRoot +:+ nl)
  else
    entries ← directory_iterator backupRoot;
    let backups := backup_names entries in
    match backups with
    | [] => cout ("No backups found in: " +:+ quoted backupRoot +:+ nl)
    | _ =>
        let sorted := std_sort string_gtb backups in
        cout ("Available backups in " +:+ quoted backupRoot +:+ ":" +:+ nl);;
        print_backups P backupRoot sorted
    end.

Definition restore_backup (P : platform) (backupName backupRoot restorePath : string)
  : M bool :=
  try_catch
    (let backupPath := path_join backupRoot backupName in
     found ← fs_exists backupPath;
     if negb found then
       cerr ("Backup not found: " +:+ backupName +:+ nl);;
       mret false
     else
       let targetPath := restorePath in
       when (has_parent_path targetPath)
            (create_directories (parent_path targetPath));;
       target_found ← fs_exists targetPath;
       when target_found (remove_all targetPath);;
       copy_recursive P backupPath targetPath;;
       cout (check_mark +:+ " Restored backup '" +:+ backupName +:+ "' to: " +:+
             quoted targetPath +:+ nl);;
       mret true)
    (fun e =>
       cerr ("Error during restore: " +:+ what e +:+ nl);;
       mret false).

Definition delete_backup (backupName backupRoot : string) : M bool :=
  try_catch
    (let backupPath := path_join backupRoot backupName in
     found ← fs_exists backupPath;
     if negb found then
       cerr ("Backup not found: " +:+ backupName +:+ nl);;
       mret false
     else
       remove_all backupPath;;
       cout (check_mark +:+ " Deleted backup: " +:+ backupName +:+ nl);;
       mret true)
    (fun e =>
       cerr ("Error deleting backup: " +:+ what e +:+ nl);;
       mret false).

(** The [while] loop of [cleanup_old_backups] on the sorted vector.
    [backups.front()] of an empty vector is undefined behaviour. *)
Fixpoint evict_loop (backupRoot : string) (maxBackups : N) (verbose : bool)
    (backups : list string) : M unit :=
  if (maxBackups <=? N.of_nat (length backups))%N then
    match backups with
    | [] => undefined
    | front :: rest =>
        when verbose (cout ("Deleting old backup: " +:+ quoted front +:+ nl));;
        remove_all (path_join backupRoot front);;
        evict_loop backupRoot maxBackups verbose rest
    end
  else mret tt.

Definition cleanup_old_backups (backupRoot : string) (maxBackups : N) (verbose : bool)
  : M unit :=
  entries ← directory_iterator backupRoot;
  let backups := backup_names entries in
  let sorted := std_sort string_ltb backups in
  evict_loop backupRoot maxBackups verbose sorted.

(** [perform_backup].  [lt] is what [localtime_s] makes of the current time
    when the new folder is named. *)
Definition perform_backup (P : platform) (config : BackupConfig) (lt : option tm)
  : M bool :=
  try_catch
    (sourceDirPath ←
       (if negb (String.eqb (sourcePath config) EmptyString)
        then mret (sourcePath config)
        else read_path_from_file (configFile config));
     let sourcePath := sourceDirPath in
     src_found ← fs_exists sourcePath;
     src_is_dir ← fs_is_directory sourcePath;
     if negb src_found || negb src_is_dir then
       cerr ("Warning: Source directory does not exist: " +:+ quoted sourcePath +:+ nl);;
       mret false
     else
       let backupRootPath := backupRoot config in
       cleanup_old_backups backupRootPath (maxBackups config) (verbose config);;
       let newBackupName := make_timestamp_folder_name lt in
       let newBackupPath := path_join backupRootPath newBackupName in
       when (verbose config)
            (cout ("Backing up: " +:+ quoted sourcePath +:+ " -> " +:+
                   quoted newBackupPath +:+ nl));;
       copy_recursive P sourcePath newBackupPath;;
       cout (check_mark +:+ " Created backup: " +:+ newBackupName +:+ nl);;
       mret true)
    (fun e =>
       cerr ("Error during backup: " +:+ what e +:+ nl);;
       mret false).

(* ===================================================================== *)
(** * Help, README and [main] *)
(* ===================================================================== *)

(** The text of [print_help], one entry for each output statement. *)
Definition help_text (programName : string) : list string :=
  [ "FlameUp - Command Line Backup Utility" +:+ nl;
    "Usage: " +:+ programName +:+ " [OPTIONS]" +:+ nl +:+ nl;
    "Options:" +:+ nl;
    "  -h, --help              Show this help message" +:+ nl;
    "  -p, --path <path>       Source path to backup (overrides config file)" +:+ nl;
    "  -c, --config <file>     Config file path (default: paths.txt)" +:+ nl;
    "  -o, --output <path>     Backup output directory (default: CopiedFiles)" +:+ nl;
    "  -m, --max <number>      Maximum number of backups to keep (default: 10)" +:+ nl;
    "  -i, --interval <min>    Backup interval in minutes for daemon mode (default: 30)" +:+ nl;
    "  -d, --daemon            Run as background daemon (continuous backups)" +:+ nl;
    "  -n, --now               Perform instant backup and exit" +:+ nl;
    "  -v, --verbose           Enable verbose output" +:+ nl;
    "  -l, --list              List all available backups" +:+ nl;
    "  -r, --restore <name>    Restore specific backup by name" +:+ nl;
    "  --restore-to <path>     Target path for restore (use with --restore)" +:+ nl;
    "  --delete <name>         Delete specific backup by name" +:+ nl +:+ nl;
    "Examples:" +:+ nl;
    "  " +:+ programName +:+ " --now                    # Instant backup using paths.txt" +:+ nl;
    "  " +:+ programName +:+ " --path C:\MyFiles --now  # Instant backup of specific path" +:+ nl;
    "  " +:+ programName +:+ " --daemon --interval 60   # Run daemon with 60min interval" +:+ nl;
    "  " +:+ programName +:+ " --list                   # List all backups" +:+ nl;
    "  " +:+ programName +:+ " --restore Backup_2024-01-01_12-00-00 --restore-to C:\Restored" +:+ nl;
    "  " +:+ programName +:+ " --delete Backup_2024-01-01_12-00-00" +:+ nl ].

(** What [create_readme_file] writes to [README.txt]. *)
Definition readme_text : string :=
  "FlameUp - Command Line Arguments" +:+ nl +:+
  "===========================================" +:+ nl +:+ nl +:+
  "Overview" +:+ nl +:+
  "--------" +:+ nl +:+
  "A flexible command-line backup utility that supports instant backups, scheduled daemon mode, backup management, and restore operations." +:+ nl +:+ nl +:+
  "Basic Usage" +:+ nl +:+
  "-----------" +:+ nl +:+
  "FlameUp.exe [OPTIONS]" +:+ nl +:+ nl +:+
  "Command Line Arguments" +:+ nl +:+
  "----------------------" +:+ nl +:+ nl +:+
  "Help and Information" +:+ nl +:+
  "--------------------" +:+ nl +:+
  "Argument            Description" +:+ nl +:+
  "---------           ------------------------------------------------" +:+ nl +:+
  "-h, --help          Display help message and exit" +:+ nl +:+
  "-l, --list          List all available backups in the backup directory" +:+ nl +:+ nl +:+
  "Backup Configuration" +:+ nl +:+
  "--------------------" +:+ nl +:+
  "Argument               Description                               Default" +:+ nl +:+
  "---------              ----------------------------------------  ----------" +:+ nl +:+
  "-p, --path <path>      Source path to backup (overrides config)  Uses paths.txt" +:+ nl +:+
  "-c, --config <file>    Config file path containing source path   paths.txt" +:+ nl +:+
  "-o, --output <path>    Backup output directory                   CopiedFiles" +:+ nl +:+
  "-m, --max <number>     Maximum number of backups to keep         10" +:+ nl +:+ nl +:+
  "Backup Operations" +:+ nl +:+
  "-----------------" +:+ nl +:+
  "Argument               Description" +:+ nl +:+
  "---------              -----------------------------------------------" +:+ nl +:+
  "-n, --now             Perform instant backup and exit" +:+ nl +:+
  "-d, --daemon          Run as background daemon (continuous backups)" +:+ nl +:+
  "-i, --interval <min>  Backup interval in minutes for daemon mode (default: 30)" +:+ nl +:+ nl +:+
  "Backup Management" +:+ nl +:+
  "-----------------" +:+ nl +:+
  "Argument               Description" +:+ nl +:+
  "---------              -----------------------------------------------" +:+ nl +:+
  "-r, --restore <name>  Restore specific backup by name" +:+ nl +:+
  "--restore-to <path>   Target path for restore (required with --restore)" +:+ nl +:+
  "--delete <name>       Delete specific backup by name" +:+ nl +:+ nl +:+
  "Output Control" +:+ nl +:+
  "--------------" +:+ nl +:+
  "Argument               Description" +:+ nl +:+
  "---------              -----------------------------------------------" +:+ nl +:+
  "-v, --verbose        Enable verbose output with detailed information" +:+ nl.

Fixpoint cout_all (lines : list string) : M unit :=
  match lines with
  | [] => mret tt
  | l :: rest => cout l;; cout_all rest
  end.

Definition print_help (programName : string) : M unit :=
  cout_all (help_text programName).

(** [std::ofstream out(filename)] followed by the writes: the file appears
    in the current directory, if that is a directory. *)
Definition write_readme (filename : string) : M unit := fun w =>
  match node_at (w_fs w) (w_cwd w) with
  | Some NDir =>
      Ok tt (set_fs w (<[w_cwd w ++ [filename] := NFile readme_text]> (w_fs w)))
  | _ => cerr ("Warning: Could not create README.txt" +:+ nl) w
  end.

(** [create_readme_file]: nothing is done when something called
    [README.txt] is there already. *)
Definition create_readme_file : M unit :=
  let filename := "README.txt" in
  found ← fs_exists filename;
  if negb found then write_readme filename else mret tt.

(** What the clocks and [localtime_s] deliver in one cycle: the local time
    when the folder is named, and the two readings of the steady clock, in
    nanoseconds, at the start of the cycle and after the backup. *)
Record cycle_env := {
  ce_localtime : option tm;
  ce_start : Z;
  ce_now : Z
}.

Definition ns_per_minute : Z := 60000000000.

(** Arithmetic on [long long] nanoseconds: overflow is undefined. *)
Definition i64 (z : Z) : M Z := fun w =>
  if (- 2 ^ 63 <=? z) && (z <? 2 ^ 63) then Ok z w else Undefined.

Definition sleep_until (deadline : Z) : M unit := fun w =>
  Ok tt (emit w (SleepUntil deadline)).

(** One pass through the body of the [while (true)] of daemon mode. *)
Definition daemon_cycle (P : platform) (config : BackupConfig) (env : cycle_env)
  : M unit :=
  let startTime := ce_start env in
  when (verbose config) (cout (nl +:+ "--- Starting backup cycle ---" +:+ nl));;
  success ← perform_backup P config (ce_localtime env);
  match success with
  | true => when (verbose config) (cout ("Backup completed successfully." +:+ nl))
  | false => cout ("Backup failed, will retry in " +:+ dec_Z (interval config) +:+
                   " minutes." +:+ nl)
  end;;
  interval_ns ← i64 (interval config * ns_per_minute);
  nextBackup ← i64 (startTime + interval_ns);
  let now := ce_now env in
  if now <? nextBackup then
    wait_ns ← i64 (nextBackup - now);
    let waitTime := Z.quot wait_ns ns_per_minute in
    when (verbose config)
         (cout ("Next backup in " +:+ dec_Z waitTime +:+ " minutes..." +:+ nl));;
    sleep_until nextBackup
  else mret tt.

(** The [while (true)] loop: cycle [k], then the following ones.  When the
    observed number of cycles is used up the loop is still running. *)
Fixpoint daemon_loop (P : platform) (config : BackupConfig) (envs : nat -> cycle_env)
    (k cycles : nat) : M Z :=
  match cycles with
  | O => fun w => Running w
  | S cycles' =>
      daemon_cycle P config (envs k);;
      daemon_loop P config envs (S k) cycles'
  end.

(** The scan of [main] for the value after [--restore-to]. *)
Fixpoint find_restore_to (args : list string) : string :=
  match args with
  | [] => EmptyString
  | arg :: rest =>
      if String.eqb arg "--restore-to" then
        match rest with
        | v :: _ => v
        | [] => find_restore_to rest
        end
      else find_restore_to rest
  end.

(** The [if] of [main] that makes the backup root for every operation but
    help and list. *)
Definition ensure_backup_root (config : BackupConfig) : M unit :=
  let backupRootPath := backupRoot config in
  if negb (help config) && negb (listBackups config) then
    found ← fs_exists backupRootPath;
    if negb found then
      create_directories backupRootPath;;
      when (verbose config)
           (cout ("Created backup directory: " +:+ quoted backupRootPath +:+ nl))
    else mret tt
  else mret tt.

Definition exit_code (ok : bool) : Z := if ok then 0 else 1.

(** The [try] block of [main]: [argv[0]] is [prog], the other arguments
    are [args].  [envs] and [cycles] are the environment of the backup
    cycles and how many of them are observed. *)
Definition main_body (P : platform) (prog : string) (args : list string)
    (envs : nat -> cycle_env) (cycles : nat) : M Z :=
  config ← lift (parse_arguments args);
  if help config then
    print_help prog;;
    mret 0
  else
    let backupRootPath := backupRoot config in
    ensure_backup_root config;;
    if listBackups config then
      list_backups P backupRootPath;;
      mret 0
    else
      match restoreBackup config with
      | Some name =>
          let restoreTarget := find_restore_to args in
          if String.eqb restoreTarget EmptyString then
            cerr ("Error: --restore-to <path> is required when using --restore" +:+ nl);;
            mret 1
          else
            ok ← restore_backup P name backupRootPath restoreTarget;
            mret (exit_code ok)
      | None =>
          match deleteBackup config with
          | Some name =>
              ok ← delete_backup name backupRootPath;
              mret (exit_code ok)
          | None =>
              if instant config then
                when (verbose config) (cout ("Performing instant backup..." +:+ nl));;
                ok ← perform_backup P config (ce_localtime (envs O));
                mret (exit_code ok)
              else if daemon config then
                cout ("Starting backup daemon..." +:+ nl);;
                cout ("Backup interval: " +:+ dec_Z (interval config) +:+ " minutes" +:+ nl);;
                cout ("Max backups: " +:+ dec_N (maxBackups config) +:+ nl);;
                cout ("Backup directory: " +:+ quoted backupRootPath +:+ nl);;
                cout ("Press Ctrl+C to stop..." +:+ nl +:+ nl);;
                daemon_loop P config envs O cycles
              else
                print_help prog;;
                mret 1
          end
      end.

Definition main (P : platform) (prog : string) (args : list string)
    (envs : nat -> cycle_env) (cycles : nat) : M Z :=
  create_readme_file;;
  try_catch (main_body P prog args envs cycles)
            (fun e => cerr ("Error: " +:+ what e +:+ nl);; mret 1).

(* ===================================================================== *)
(** * Notions used in the statements *)
(* ===================================================================== *)

Fixpoint string_forall (f : ascii -> bool) (s : string) : bool :=
  match s with
  | EmptyString => true
  | String c r => f c && string_forall f r
  end.

Definition no_separator (s : string) : bool :=
  string_forall (fun c => negb (is_separator c)) s.

(** The names that a directory entry can have: not empty, no separator,
    and neither [.] nor [..]. *)
Definition plain_name (n : string) : bool :=
  string_forall (fun c => negb (is_separator c)) n &&
  negb (String.eqb n EmptyString) && negb (String.eqb n ".") && negb (String.eqb n "..").

(** A state is well formed when every location of the file system, and the
    current directory, is a list of such names. *)
Definition plain_location (k : list string) : Prop :=
  Forall (fun n => plain_name n = true) k.

Definition wf_fs (fs : filesystem) : Prop :=
  map_Forall (fun k _ => plain_location k) fs.

Definition wf_world (w : world) : Prop :=
  wf_fs (w_fs w) /\ plain_location (w_cwd w).

(** The catalog of a backup root: the names that the loops of
    [list_backups] and [cleanup_old_backups] collect there. *)
Definition catalog (w : world) (backupRoot : string) : list string :=
  match resolve (w_cwd w) backupRoot with
  | Some k => backup_names (dir_entries (w_fs w) k)
  | None => []
  end.

(** One eviction: the message when verbose, then [fs::remove_all]. *)
Definition evict_step (backupRoot : string) (verbose : bool) (w : world)
    (front : string) : world :=
  let w1 := if verbose
            then emit w (Out ("Deleting old backup: " +:+ quoted front +:+ nl))
            else w in
  match resolve (w_cwd w1) (path_join backupRoot front) with
  | Some k => set_fs w1 (remove_tree k (w_fs w1))
  | None => w1
  end.

(** A sequence of create operations in which every one succeeds. *)
Fixpoint run_creates (P : platform) (config : BackupConfig) (lts : list (option tm))
    (w : world) : option world :=
  match lts with
  | [] => Some w
  | lt :: rest =>
      match perform_backup P config lt w with
      | Ok true w' => run_creates P config rest w'
      | _ => None
      end
  end.

(** The readings of the steady clock and the interval are far from the
    ends of [long long]. *)
Definition far_from_overflow (z : Z) : Prop := - 2 ^ 61 <= z < 2 ^ 61.

Definition clock_in_range (config : BackupConfig) (env : cycle_env) : Prop :=
  far_from_overflow (ce_start env) /\ far_from_overflow (ce_now env) /\
  far_from_overflow (interval config * ns_per_minute).

(** The state with further events in its trace. *)
Definition extend (w : world) (events : list event) : world :=
  {| w_fs := w_fs w; w_cwd := w_cwd w; w_trace := w_trace w ++ events |}.

(** The state in which the backup of a cycle starts. *)
Definition cycle_begin (config : BackupConfig) (w : world) : world :=
  if verbose config
  then emit w (Out (nl +:+ "--- Starting backup cycle ---" +:+ nl))
  else w.

(** What a cycle prints about the outcome of its backup. *)
Definition cycle_report (config : BackupConfig) (ok : bool) : list event :=
  if ok then
    if verbose config then [Out ("Backup completed successfully." +:+ nl)] else []
  else [Out ("Backup failed, will retry in " +:+ dec_Z (interval config) +:+
             " minutes." +:+ nl)].

(** What a cycle does about the instant [deadline] of the next one. *)
Definition cycle_wait (config : BackupConfig) (env : cycle_env) (deadline : Z)
  : list event :=
  if ce_now env <? deadline then
    (if verbose config
     then [Out ("Next backup in " +:+
                dec_Z (Z.quot (deadline - ce_now env) ns_per_minute) +:+
                " minutes..." +:+ nl)]
     else []) ++ [SleepUntil deadline]
  else [].

(** A line of the listing. *)
Definition listing_line (name : string) (size : N) : event :=
  Out ("  " +:+ name +:+ " (Size: " +:+ dec_N size +:+ " bytes)" +:+ nl).

(** What [list_backups] prints for a backup root that is a directory, given
    the names in its catalog and the sizes that [fs::file_size] delivered
    before it threw, if it did. *)
Definition list_report (backupRoot : string) (names : list string) (sizes : list N)
  : list event :=
  match names with
  | [] => [Out ("No backups found in: " +:+ quoted backupRoot +:+ nl)]
  | _ =>
      Out ("Available backups in " +:+ quoted backupRoot +:+ ":" +:+ nl)
      :: zip_with listing_line (std_sort string_gtb names) sizes
  end.

(** Every entry of the file system lies in a directory. *)
Definition closed_fs (fs : filesystem) : Prop :=
  map_Forall (fun q _ => node_at fs (removelast q) = Some NDir) fs.

(** A piece of the program that ends in a value or in an exception. *)
Definition safe {A} (m : M A) : Prop :=
  forall w, (exists a w', m w = Ok a w') \/ (exists e w', m w = Throw e w').


(* ===================================================================== *)
(** * Sample states *)
(* ===================================================================== *)

(** A platform on which the size of a directory is zero and a failed copy
    has written nothing. *)
Definition sample_platform : platform := {|
  dir_file_size := fun _ _ => Some 0%N;
  copy_partial := fun fs _ _ => fs
|}.

Definition make_world (fs : filesystem) : world :=
  {| w_fs := fs; w_cwd := ["work"]; w_trace := [] |}.

(** The work directory with a source tree and no backup root. *)
Definition fs_source : filesystem :=
  list_to_map
    [ (["work"], NDir);
      (["work"; "data"], NDir);
      (["work"; "data"; "notes.txt"], NFile "hello");
      (["work"; "data"; "sub"], NDir);
      (["work"; "data"; "sub"; "deep.txt"], NFile "deep") ].

(** The same with an empty backup root. *)
Definition fs_source_root : filesystem :=
  <[ ["work"; "CopiedFiles"] := NDir ]> fs_source.

(** The same with three snapshots, a stray file and a stray directory in
    the backup root, and a directory next to the root. *)
Definition fs_three : filesystem :=
  list_to_map
    [ (["work"; "CopiedFiles"], NDir);
      (["work"; "CopiedFiles"; "Backup_2024-01-02_00-00-00"], NDir);
      (["work"; "CopiedFiles"; "Backup_2024-01-02_00-00-00"; "notes.txt"], NFile "two");
      (["work"; "CopiedFiles"; "Backup_2024-01-03_00-00-00"], NDir);
      (["work"; "CopiedFiles"; "Backup_2024-01-03_00-00-00"; "notes.txt"], NFile "three");
      (["work"; "CopiedFiles"; "Backup_2024-01-01_00-00-00"], NDir);
      (["work"; "CopiedFiles"; "Backup_2024-01-01_00-00-00"; "notes.txt"], NFile "one");
      (["work"; "CopiedFiles"; "Backup_notes.txt"], NFile "not a snapshot");
      (["work"; "CopiedFiles"; "other"], NDir);
      (["work"; "outside"], NDir);
      (["work"; "outside"; "precious.txt"], NFile "keep me") ] ∪ fs_source.

Definition noon : tm := {|
  tm_sec := 0; tm_min := 0; tm_hour := 12; tm_mday := 4; tm_mon := 0;
  tm_year := 124; tm_wday := 4; tm_yday := 3; tm_isdst := 0
|}.

Definition evening : tm := {|
  tm_sec := 30; tm_min := 45; tm_hour := 18; tm_mday := 4; tm_mon := 0;
  tm_year := 124; tm_wday := 4; tm_yday := 3; tm_isdst := 0
|}.

(** [--path data --max 2]. *)
Definition sample_config : BackupConfig :=
  set_maxBackups (set_sourcePath default_config "data") 2.

(** A steady clock that reads half an hour more at the start of each
    cycle, up to a bound, and a millisecond more after the backup. *)
Definition sample_envs (k : nat) : cycle_env :=
  let start := Z.min (Z.of_nat k * (30 * ns_per_minute)) (2 ^ 60) in
  {| ce_localtime := Some noon; ce_start := start; ce_now := start + 1000000 |}.

(** A sample state once [README.txt] is in the work directory. *)
Definition with_readme (fs : filesystem) : world :=
  make_world (<[ ["work"; "README.txt"] := NFile readme_text ]> fs).

Global Instance plain_location_dec k : Decision (plain_location k).
Proof. unfold plain_location. apply _. Defined.

Global Instance wf_world_dec w : Decision (wf_world w).
Proof. unfold wf_world, wf_fs. apply _. Defined.

Global Instance closed_fs_dec (fs : filesystem) : Decision (closed_fs fs).
Proof. unfold closed_fs. apply _. Defined.

(* ===================================================================== *)
(** * Notions used in the further properties *)
(* ===================================================================== *)

(** The lines that [read_path_from_file] passes over: empty once trimmed,
    or a comment. *)
Definition skipped_line (raw : string) : bool :=
  let line := trim raw in
  String.eqb line EmptyString ||
  (starts_with line "#" || starts_with line "//" || starts_with line "--").

(** Neither the first nor the last character is white space. *)
Definition clean_ends (s : string) : Prop :=
  (forall c, head (list_ascii_of_string s) = Some c -> is_blank c = false) /\
  (forall c, last (list_ascii_of_string s) = Some c -> is_blank c = false).

(** A source tree with its path in [paths.txt], after a comment, an empty
    line and a line of blanks. *)
Definition fs_with_paths : filesystem :=
  <[ ["work"; "paths.txt"] :=
       NFile ("# where the data is" +:+ nl +:+ nl +:+ "   " +:+ nl +:+
              "  data  " +:+ chr 13 +:+ nl +:+ "other" +:+ nl) ]> fs_source_root.

(** The same with nothing but comments in [paths.txt]. *)
Definition fs_with_comments : filesystem :=
  <[ ["work"; "paths.txt"] :=
       NFile ("# nothing" +:+ nl +:+ "// here" +:+ nl +:+ "-- at all") ]>
    fs_source_root.

(** The numbers of a configuration fit the types of their members:
    [unsigned long maxBackups] and the [int] of [std::chrono::minutes]. *)
Definition numbers_in_range (c : BackupConfig) : Prop :=
  (maxBackups c <= ULONG_MAX)%N /\ - 2 ^ 31 <= interval c < 2 ^ 31.

(** The source that [perform_backup] takes: the path of the configuration
    when it is not empty, and otherwise what [read_path_from_file] finds in
    the configuration file. *)
Definition source_of (config : BackupConfig) (w : world) : option string :=
  if negb (String.eqb (sourcePath config) EmptyString) then Some (sourcePath config)
  else match read_path_from_file (configFile config) w with
       | Ok line _ => Some line
       | _ => None
       end.

(** The text that stands for what a failed library call reports. *)
Definition backup_error (operation : string) : event :=
  Err ("Error during backup: " +:+ what (FilesystemError operation) +:+ nl).

(** The work directory in which [CopiedFiles] is a regular file. *)
Definition fs_root_is_file : filesystem :=
  <[ ["work"; "CopiedFiles"] := NFile "not a directory" ]> fs_source.

(** The state of the daemon after [n] cycles from cycle [k] on, as the
    schedule has it: each cycle is the backup in the state [cycle_begin],
    the report of its outcome and the wait for the start of the cycle plus
    the interval.  [None] when a backup does not come back with a verdict. *)
Fixpoint scheduled (P : platform) (config : BackupConfig) (envs : nat -> cycle_env)
    (k n : nat) (w : world) : option world :=
  match n with
  | O => Some w
  | S n' =>
      match perform_backup P config (ce_localtime (envs k)) (cycle_begin config w) with
      | Ok ok w1 =>
          scheduled P config envs (S k) n'
            (extend w1 (cycle_report config ok ++
                        cycle_wait config (envs k)
                          (ce_start (envs k) + interval config * ns_per_minute)))
      | _ => None
      end
  end.

Definition is_sleep (e : event) : bool :=
  match e with
  | SleepUntil _ => true
  | _ => false
  end.

(** A piece of the program that adds events to the trace and no sleep
    among them. *)
Definition quiet {A} (m : M A) : Prop :=
  forall w,
    match m w with
    | Ok _ w' | Throw _ w' | Running w' =>
        exists evs, w_trace w' = w_trace w ++ evs /\
                    Forall (fun e => is_sleep e = false) evs
    | Undefined => True
    end.

(* ===================================================================== *)
(** * Theorems *)
(* ===================================================================== *)

(** ** Snapshot names (C3) *)
Lemma string_compare_refl s : string_compare s s = Eq.
Proof. induction s as [|c s IH]; simpl; [done|]. by rewrite N.compare_refl. Qed.

Lemma string_compare_app p1 p2 s1 s2 :
  String.length p1 = String.length p2 →
  string_compare (p1 +:+ s1) (p2 +:+ s2) =
    match string_compare p1 p2 with Eq => string_compare s1 s2 | r => r end.
Proof.
  revert p2. induction p1 as [|c p1 IH]; intros [|d p2] Hlen; simpl in *; try done.
  destruct (N.compare _ _); try done. apply IH. lia.
Qed.

Lemma fixed_dec_length w n : String.length (fixed_dec w n) = w.
Proof. revert n. induction w; intros; simpl; auto. Qed.

Lemma digit_char_compare a b :
  (a < 10)%N → (b < 10)%N →
  N.compare (N_of_ascii (digit_char a)) (N_of_ascii (digit_char b)) = N.compare a b.
Proof.
  intros Ha Hb. unfold digit_char.
  rewrite !N_ascii_embedding by lia.
  destruct (N.compare_spec a b); [apply N.compare_eq_iff|apply N.compare_lt_iff|apply N.compare_gt_iff]; lia.
Qed.

Lemma fixed_dec_compare w a b :
  (a < 10 ^ N.of_nat w)%N → (b < 10 ^ N.of_nat w)%N →
  string_compare (fixed_dec w a) (fixed_dec w b) = N.compare a b.
Proof.
  revert a b. induction w as [|w IH]; intros a b Ha Hb.
  - simpl in *. assert (a = 0%N) by lia. assert (b = 0%N) by lia. by subst.
  - rewrite Nat2N.inj_succ, N.pow_succ_r' in Ha, Hb.
    set (p := (10 ^ N.of_nat w)%N) in *.
    assert (Hp : (0 < p)%N) by (apply N.neq_0_lt_0, N.pow_nonzero; lia).
    cbn [fixed_dec string_compare]. fold p.
    pose proof (N.div_mod a p ltac:(lia)) as Ea.
    pose proof (N.div_mod b p ltac:(lia)) as Eb.
    pose proof (N.mod_lt a p ltac:(lia)) as La.
    pose proof (N.mod_lt b p ltac:(lia)) as Lb.
    assert (Qa : (a / p < 10)%N) by (apply N.Div0.div_lt_upper_bound; lia).
    assert (Qb : (b / p < 10)%N) by (apply N.Div0.div_lt_upper_bound; lia).
    rewrite digit_char_compare by done.
    rewrite IH by done.
    generalize dependent (a / p)%N. generalize dependent (a mod p)%N.
    generalize dependent (b / p)%N. generalize dependent (b mod p)%N.
    intros rb Lb qb Eb Qb ra La qa Ea Qa. clear IH Ha Hb.
    destruct (N.compare_spec qa qb) as [E|L|L].
    + subst qb a b.
      destruct (N.compare_spec ra rb); symmetry.
      * apply N.compare_eq_iff. lia.
      * apply N.compare_lt_iff. lia.
      * apply N.compare_gt_iff. lia.
    + symmetry. apply N.compare_lt_iff.
      assert (p * (qa + 1) <= p * qb)%N by (apply N.mul_le_mono_l; lia). lia.
    + symmetry. apply N.compare_gt_iff.
      assert (p * (qb + 1) <= p * qa)%N by (apply N.mul_le_mono_l; lia). lia.
Qed.

Ltac lia_div := zify; Z.to_euclidean_division_equations; lia.

Lemma year_fixed z : 1000 <= z <= 9999 -> dec_Z z = fixed_dec 4 (Z.to_N z).
Proof.
  intros Hz. unfold dec_Z. destruct (Z.ltb_spec z 0); [lia|].
  set (n := Z.to_N z). assert (Hn : (1000 <= n <= 9999)%N) by lia. clearbody n.
  unfold dec_N.
  assert (Hf : (9 <= N.to_nat (N.log2 n))%nat).
  { pose proof (N.log2_le_mono 1000 n (proj1 Hn)) as Hl.
    change (N.log2 1000) with 9%N in Hl. lia. }
  destruct (N.to_nat (N.log2 n)) as [|[|[|f]]]; try lia.
  cbn [dec_digits fixed_dec].
  change (10 ^ N.of_nat 3)%N with 1000%N. change (10 ^ N.of_nat 2)%N with 100%N.
  change (10 ^ N.of_nat 1)%N with 10%N. change (10 ^ N.of_nat 0)%N with 1%N.
  destruct (N.ltb_spec n 10); [lia|].
  destruct (N.ltb_spec (n / 10) 10); [lia_div|].
  destruct (N.ltb_spec (n / 10 / 10) 10); [lia_div|].
  destruct (N.ltb_spec (n / 10 / 10 / 10) 10); [|lia_div].
  repeat f_equal; lia_div.
Qed.

Lemma pad2_fixed z : 0 <= z <= 99 -> pad2 z = fixed_dec 2 (Z.to_N z).
Proof.
  intros Hz. unfold pad2, dec_Z. destruct (Z.ltb_spec z 0); [lia|].
  set (n := Z.to_N z). assert (Hn : (n <= 99)%N) by lia. clearbody n.
  unfold dec_N. cbn [fixed_dec].
  change (10 ^ N.of_nat 1)%N with 10%N. change (10 ^ N.of_nat 0)%N with 1%N.
  destruct (N.ltb_spec n 10) as [Hlt|Hge].
  - cbn [dec_digits]. destruct (N.ltb_spec n 10); [|lia]. simpl.
    replace (n / 10)%N with 0%N by lia_div.
    replace (n mod 10 / 1)%N with (n mod 10)%N by lia_div. done.
  - assert (Hf : (3 <= N.to_nat (N.log2 n))%nat).
    { pose proof (N.log2_le_mono 10 n Hge) as Hl.
      change (N.log2 10) with 3%N in Hl. lia. }
    destruct (N.to_nat (N.log2 n)) as [|f]; [lia|].
    cbn [dec_digits].
    destruct (N.ltb_spec n 10); [lia|].
    destruct (N.ltb_spec (n / 10) 10); [|lia_div]. simpl.
    repeat f_equal; lia_div.
Qed.

Lemma field_compare w x y r1 r2 :
  0 <= x < 10 ^ Z.of_nat w -> 0 <= y < 10 ^ Z.of_nat w ->
  string_compare (fixed_dec w (Z.to_N x) +:+ r1) (fixed_dec w (Z.to_N y) +:+ r2) =
    match Z.compare x y with Eq => string_compare r1 r2 | r => r end.
Proof.
  intros Hx Hy.
  rewrite string_compare_app by (by rewrite !fixed_dec_length).
  assert (Hp : Z.of_N (10 ^ N.of_nat w) = 10 ^ Z.of_nat w).
  { rewrite N2Z.inj_pow, nat_N_Z. done. }
  rewrite fixed_dec_compare by lia.
  by rewrite Z2N.inj_compare by lia.
Qed.

Lemma sep_compare c r1 r2 :
  string_compare (String c EmptyString +:+ r1) (String c EmptyString +:+ r2) =
    string_compare r1 r2.
Proof. simpl. by rewrite N.compare_refl. Qed.

Lemma last_field_compare w x y :
  0 <= x < 10 ^ Z.of_nat w -> 0 <= y < 10 ^ Z.of_nat w ->
  string_compare (fixed_dec w (Z.to_N x)) (fixed_dec w (Z.to_N y)) = Z.compare x y.
Proof.
  intros Hx Hy.
  assert (Hp : Z.of_N (10 ^ N.of_nat w) = 10 ^ Z.of_nat w).
  { rewrite N2Z.inj_pow, nat_N_Z. done. }
  rewrite fixed_dec_compare by lia.
  by rewrite Z2N.inj_compare by lia.
Qed.

(** C3.  The name of a snapshot depends on nothing but the six fields of
    the broken-down time that name the instant to the second; and for two
    such times with four-digit years, the earlier one has the smaller name
    under [std::string] comparison. *)
Theorem C3_name_order (t1 t2 : tm) :
  (tm_fields t1 = tm_fields t2 ->
   make_timestamp_folder_name (Some t1) = make_timestamp_folder_name (Some t2)) /\
  (tm_in_range t1 -> tm_in_range t2 -> tm_before t1 t2 ->
   string_lt (make_timestamp_folder_name (Some t1))
             (make_timestamp_folder_name (Some t2))).
Proof.
  split.
  - unfold tm_fields. intros [= Hy Hm Hd HH HM HS].
    unfold make_timestamp_folder_name, put_time_stamp. congruence.
  - intros (S1 & M1 & H1 & D1 & O1 & Y1) (S2 & M2 & H2 & D2 & O2 & Y2).
    unfold tm_before, tm_fields, string_lt, make_timestamp_folder_name, put_time_stamp.
    rewrite !year_fixed, !pad2_fixed by lia.
    rewrite string_compare_app by done.
    rewrite string_compare_refl.
    cbn [fields_compare].
    repeat (rewrite field_compare by (simpl; lia); rewrite sep_compare).
    rewrite last_field_compare by (simpl; lia).
    rewrite (Z.add_comm (tm_mon t1)), (Z.add_comm (tm_mon t2)), !Z.add_compare_mono_l.
    repeat (destruct (Z.compare _ _); try done).
Qed.

(** The names of noon and of the evening of the same day. *)
Lemma C3_name_order_witness :
  tm_in_range noon /\ tm_in_range evening /\ tm_before noon evening /\
  string_lt (make_timestamp_folder_name (Some noon))
            (make_timestamp_folder_name (Some evening)).
Proof.
  assert (H1 : tm_in_range noon) by (unfold tm_in_range; simpl; lia).
  assert (H2 : tm_in_range evening) by (unfold tm_in_range; simpl; lia).
  assert (H3 : tm_before noon evening) by reflexivity.
  split; [exact H1|]. split; [exact H2|]. split; [exact H3|].
  exact (proj2 (C3_name_order noon evening) H1 H2 H3).
Defined.

(** ** The order of [std::string] *)

Lemma string_compare_eq a b : string_compare a b = Eq -> a = b.
Proof.
  revert b. induction a as [|c a IH]; intros [|d b]; simpl; try done.
  destruct (N.compare_spec (N_of_ascii c) (N_of_ascii d)) as [E| |]; try done.
  intros H. f_equal; [|by apply IH].
  rewrite <- (ascii_N_embedding c), <- (ascii_N_embedding d). by rewrite E.
Qed.

Lemma string_compare_antisym a b :
  string_compare b a = CompOpp (string_compare a b).
Proof.
  revert b. induction a as [|c a IH]; intros [|d b]; simpl; try done.
  rewrite (N.compare_antisym (N_of_ascii c) (N_of_ascii d)).
  destruct (N.compare (N_of_ascii c) (N_of_ascii d)); simpl; auto.
Qed.

Lemma string_lt_asym a b : string_ltb a b = true -> string_ltb b a = false.
Proof.
  unfold string_ltb. rewrite (string_compare_antisym a b).
  by destruct (string_compare a b).
Qed.

Lemma string_lt_total a b : a <> b -> string_ltb b a = false -> string_lt a b.
Proof.
  unfold string_ltb, string_lt. intros Hne.
  rewrite (string_compare_antisym a b).
  destruct (string_compare a b) eqn:E; simpl; try done.
  by apply string_compare_eq in E.
Qed.

Lemma string_compare_trans a b c :
  string_compare a b = Lt -> string_compare b c = Lt -> string_compare a c = Lt.
Proof.
  revert b c. induction a as [|x a IH]; intros [|y b] [|z c]; simpl; try done.
  destruct (N.compare_spec (N_of_ascii x) (N_of_ascii y)) as [Hxy|Hxy|Hxy];
    destruct (N.compare_spec (N_of_ascii y) (N_of_ascii z)) as [Hyz|Hyz|Hyz];
    try done; intros H1 H2;
    destruct (N.compare_spec (N_of_ascii x) (N_of_ascii z)) as [Hxz|Hxz|Hxz];
    try done; try lia; eauto.
Qed.

(** ** [std::sort] *)

Lemma insert_sorted_perm lt x l : insert_sorted lt x l ≡ₚ x :: l.
Proof.
  induction l as [|y l IH]; simpl; [done|].
  destruct (lt y x); [|done]. rewrite IH. apply Permutation_swap.
Qed.

Lemma std_sort_perm lt l : std_sort lt l ≡ₚ l.
Proof.
  induction l as [|x l IH]; simpl; [done|].
  rewrite insert_sorted_perm. by rewrite IH.
Qed.

Lemma std_sort_length lt l : length (std_sort lt l) = length l.
Proof. apply Permutation_length, std_sort_perm. Qed.

Lemma insert_sorted_hd lt x y l :
  lt y x = true -> HdRel (fun a b => lt b a = false) y l ->
  (forall a b, lt a b = true -> lt b a = false) ->
  HdRel (fun a b => lt b a = false) y (insert_sorted lt x l).
Proof.
  intros Hyx Hhd Hasym. destruct l as [|z l]; simpl.
  - constructor. by apply Hasym.
  - inversion_clear Hhd. destruct (lt z x); constructor; auto.
Qed.

Lemma insert_sorted_sorted lt x l :
  (forall a b, lt a b = true -> lt b a = false) ->
  Sorted (fun a b => lt b a = false) l ->
  Sorted (fun a b => lt b a = false) (insert_sorted lt x l).
Proof.
  intros Hasym. induction 1 as [|y l Hs IH Hhd]; simpl.
  - by repeat constructor.
  - destruct (lt y x) eqn:E.
    + constructor; [done|]. by apply insert_sorted_hd.
    + constructor; [by constructor|]. by constructor.
Qed.

Lemma std_sort_sorted lt l :
  (forall a b, lt a b = true -> lt b a = false) ->
  Sorted (fun a b => lt b a = false) (std_sort lt l).
Proof.
  intros Hasym. induction l as [|x l IH]; simpl; [constructor|].
  by apply insert_sorted_sorted.
Qed.

(** On pairwise distinct names the sorted vector is strictly ascending. *)
Lemma sorted_strict l :
  NoDup l -> Sorted (fun a b => string_ltb b a = false) l -> Sorted string_lt l.
Proof.
  induction 2 as [|x l Hs IH Hhd]; [constructor|].
  apply NoDup_cons in H as [Hx Hl].
  constructor; [by apply IH|].
  destruct Hhd as [|y l' Hy]; constructor.
  apply string_lt_total; [|done]. intros ->. apply Hx. left.
Qed.

Lemma std_sort_strict l : NoDup l -> Sorted string_lt (std_sort string_ltb l).
Proof.
  intros Hnd. apply sorted_strict.
  - by rewrite std_sort_perm.
  - apply std_sort_sorted, string_lt_asym.
Qed.

(** ** Locations and directory entries *)

Lemma strip_prefix_Some k q r : strip_prefix k q = Some r <-> q = k ++ r.
Proof.
  revert q. induction k as [|a k IH]; intros q; simpl.
  - split; congruence.
  - destruct q as [|b q]; [split; done|].
    destruct (decide (a = b)) as [->|Hne].
    + rewrite IH. split; congruence.
    + split; [done|]. intros [= ? ?]. done.
Qed.

Lemma child_entry_Some k kv n nd :
  child_entry k kv = Some (n, nd) <-> kv = (k ++ [n], nd).
Proof.
  destruct kv as [q nd']. unfold child_entry. simpl.
  destruct (strip_prefix k q) as [r|] eqn:E.
  - apply strip_prefix_Some in E as ->.
    destruct r as [|m [|m' r]]; split; try done.
    + intros [= H _]. apply (f_equal length) in H.
      rewrite !length_app in H. simpl in H. lia.
    + by intros [= -> ->].
    + intros [= H ->]. by apply app_inv_head in H as [= ->].
    + intros [= H _]. by apply app_inv_head in H.
  - split; [done|]. intros [= -> ->].
    assert (strip_prefix k (k ++ [n]) = Some [n]) by by apply strip_prefix_Some.
    congruence.
Qed.

Lemma elem_of_dir_entries (fs : filesystem) k n nd :
  (n, nd) ∈ dir_entries fs k <-> fs !! (k ++ [n]) = Some nd.
Proof.
  unfold dir_entries. rewrite list_elem_of_omap. split.
  - intros (kv & Hin & Hc). apply child_entry_Some in Hc as ->.
    by apply elem_of_map_to_list in Hin.
  - intros H. exists (k ++ [n], nd). split.
    + by apply elem_of_map_to_list.
    + by apply child_entry_Some.
Qed.

Lemma omap_child_NoDup k (l : list (list string * node)) :
  NoDup l.*1 -> NoDup (omap (child_entry k) l).*1.
Proof.
  induction l as [|kv l IH]; simpl; [constructor|].
  intros [Hkv Hl]%NoDup_cons.
  destruct (child_entry k kv) as [[n nd]|] eqn:E; simpl; [|by apply IH].
  apply NoDup_cons. split; [|by apply IH].
  intros Hin. apply Hkv.
  apply list_elem_of_fmap in Hin as ([n' nd'] & Heq & Hin). simpl in Heq. subst n'.
  apply list_elem_of_omap in Hin as (kv' & Hin & E').
  apply child_entry_Some in E as ->. apply child_entry_Some in E' as ->.
  apply list_elem_of_fmap. by exists (k ++ [n], nd').
Qed.

Lemma dir_entries_NoDup (fs : filesystem) k : NoDup (dir_entries fs k).*1.
Proof. apply omap_child_NoDup, NoDup_fst_map_to_list. Qed.

Lemma elem_of_backup_names es n :
  n ∈ backup_names es <-> (n, NDir) ∈ es /\ starts_with n "Backup_" = true.
Proof.
  unfold backup_names. rewrite list_elem_of_fmap. split.
  - intros ([n' nd] & -> & Hin). apply list_elem_of_filter in Hin as [Hp Hin].
    simpl in *. apply andb_prop_elim in Hp as [Hd Hs].
    unfold is_directory_entry in Hd. simpl in Hd. destruct nd; [done|].
    split; [done|]. by apply Is_true_eq_true.
  - intros [Hin Hs]. exists (n, NDir). split; [done|].
    apply list_elem_of_filter. split; [|done]. simpl. by rewrite Hs.
Qed.

Lemma backup_names_NoDup es : NoDup es.*1 -> NoDup (backup_names es).
Proof.
  intros H. unfold backup_names.
  eapply sublist_NoDup; [exact H|]. apply fmap_sublist, sublist_filter.
Qed.

Lemma catalog_entries_NoDup (fs : filesystem) k :
  NoDup (backup_names (dir_entries fs k)).
Proof. apply backup_names_NoDup, dir_entries_NoDup. Qed.

(** Catalog membership in terms of the file system. *)
Lemma elem_of_catalog_entries (fs : filesystem) k n :
  n ∈ backup_names (dir_entries fs k) <->
  fs !! (k ++ [n]) = Some NDir /\ starts_with n "Backup_" = true.
Proof. by rewrite elem_of_backup_names, elem_of_dir_entries. Qed.

Lemma lookup_remove_tree (k : list string) (fs : filesystem) (q : list string) :
  remove_tree k fs !! q = if decide (k `prefix_of` q) then None else fs !! q.
Proof.
  unfold remove_tree. destruct (decide (k `prefix_of` q)) as [Hp|Hp].
  - apply map_lookup_filter_None_2. right. intros x _ Hn. by apply Hn.
  - destruct (fs !! q) as [x|] eqn:E.
    + by apply map_lookup_filter_Some_2.
    + apply map_lookup_filter_None_2. by left.
Qed.

Lemma remove_tree_subseteq (k : list string) (fs : filesystem) : remove_tree k fs ⊆ fs.
Proof. apply map_filter_subseteq. Qed.

Lemma prefix_snoc_inv (k : list string) a b : (k ++ [a]) `prefix_of` (k ++ [b]) -> a = b.
Proof.
  intros [r Hr]. rewrite <- app_assoc in Hr. apply app_inv_head in Hr.
  simpl in Hr. congruence.
Qed.

(** ** Path texts *)

Lemma append_nil (b : string) : EmptyString +:+ b = b.
Proof. reflexivity. Qed.

Lemma append_cons x (a b : string) : String x a +:+ b = String x (a +:+ b).
Proof. reflexivity. Qed.

Ltac str_simpl := repeat (rewrite append_cons || rewrite append_nil).

Lemma append_assoc (a b c : string) : (a +:+ b) +:+ c = a +:+ (b +:+ c).
Proof. induction a as [|x a IH]; str_simpl; [done|]. by f_equal. Qed.

Lemma split_path_nonempty s : split_path s <> [].
Proof.
  induction s as [|c s IH]; simpl; [done|].
  destruct (is_separator c); [done|]. by destruct (split_path s).
Qed.

Lemma split_path_plain n :
  string_forall (fun c => negb (is_separator c)) n = true -> split_path n = [n].
Proof.
  induction n as [|c n IH]; simpl; [done|].
  intros [Hc Hn]%andb_prop. apply negb_true_iff in Hc. rewrite Hc.
  by rewrite (IH Hn).
Qed.

Lemma split_path_sep a c b :
  is_separator c = true ->
  split_path (a +:+ String c b) = split_path a ++ split_path b.
Proof.
  intros Hc. induction a as [|d a IH]; str_simpl; simpl.
  - by rewrite Hc.
  - rewrite IH. destruct (is_separator d); [done|].
    pose proof (split_path_nonempty a). by destruct (split_path a).
Qed.

Lemma ends_with_separator_inv p :
  ends_with_separator p = true ->
  exists a c, p = a +:+ String c EmptyString /\ is_separator c = true.
Proof.
  induction p as [|d p IH]; [done|].
  destruct p as [|e p].
  - simpl. intros H. by exists EmptyString, d.
  - intros H. destruct (IH H) as (a & c & Ha & Hc).
    exists (String d a), c. str_simpl. by rewrite <- Ha.
Qed.

Lemma normalize_app cur a b : normalize cur (a ++ b) = normalize (normalize cur a) b.
Proof.
  revert cur. induction a as [|e a IH]; intros cur; simpl; [done|].
  repeat case_decide; apply IH.
Qed.

Lemma plain_name_inv n :
  plain_name n = true ->
  string_forall (fun c => negb (is_separator c)) n = true /\
  n <> EmptyString /\ n <> "." /\ n <> "..".
Proof.
  unfold plain_name. intros H.
  repeat (apply andb_prop in H as [H ?]).
  repeat split; try done;
    intros ->; simpl in *; done.
Qed.

Lemma normalize_plain cur n : plain_name n = true -> normalize cur [n] = cur ++ [n].
Proof.
  intros (_ & H1 & H2 & H3)%plain_name_inv. simpl. by repeat case_decide.
Qed.

Lemma normalize_empty cur : normalize cur [EmptyString] = cur.
Proof. done. Qed.

Lemma plain_not_rooted n : plain_name n = true -> has_root_directory n = false.
Proof.
  intros (H & H1 & _)%plain_name_inv. destruct n as [|c n]; [done|].
  simpl in *. apply andb_prop in H as [H _]. by apply negb_true_iff.
Qed.

(** The elements of [p / n] for a plain name [n]: those of [p], the empty
    element after a final separator apart, and then [n]. *)
Lemma split_path_join p n :
  p <> EmptyString -> plain_name n = true ->
  exists xs, split_path (path_join p n) = xs ++ [n] /\
             forall cur, normalize cur xs = normalize cur (split_path p).
Proof.
  intros Hp Hn. unfold path_join. rewrite (plain_not_rooted n Hn).
  pose proof (plain_name_inv n Hn) as (Hs & _).
  destruct (has_filename p) eqn:Hf.
  - exists (split_path p). split; [|done].
    unfold backslash, chr. str_simpl.
    rewrite split_path_sep by reflexivity. by rewrite (split_path_plain n Hs).
  - assert (He : ends_with_separator p = true).
    { destruct p; [done|]. simpl in Hf. by apply negb_false_iff in Hf. }
    apply ends_with_separator_inv in He as (a & c & -> & Hc).
    exists (split_path a). split.
    + rewrite append_assoc. str_simpl. rewrite split_path_sep by done.
      by rewrite (split_path_plain n Hs).
    + intros cur. rewrite split_path_sep by done. simpl.
      by rewrite normalize_app.
Qed.

Lemma resolve_split cwd p :
  p <> EmptyString ->
  resolve cwd p =
    Some (normalize (if has_root_directory p then [] else cwd) (split_path p)).
Proof.
  destruct p as [|c r]; [done|]. intros _. simpl.
  by destruct (is_separator c).
Qed.

Lemma path_join_rooted p n :
  p <> EmptyString -> plain_name n = true ->
  path_join p n <> EmptyString /\
  has_root_directory (path_join p n) = has_root_directory p.
Proof.
  intros Hp Hn. unfold path_join. rewrite (plain_not_rooted n Hn).
  destruct p as [|c r]; [done|].
  by destruct (has_filename (String c r)); str_simpl.
Qed.

(** [root / name] names the entry [name] of the directory [root]. *)
Lemma resolve_join cwd root n k :
  resolve cwd root = Some k -> plain_name n = true ->
  resolve cwd (path_join root n) = Some (k ++ [n]).
Proof.
  intros Hr Hn.
  assert (Hne : root <> EmptyString) by (by intros ->).
  rewrite resolve_split in Hr by done. injection Hr as <-.
  destruct (path_join_rooted root n Hne Hn) as [Hj Hrt].
  rewrite resolve_split by done. rewrite Hrt. f_equal.
  destruct (split_path_join root n Hne Hn) as (xs & -> & Hxs).
  rewrite normalize_app, Hxs. by apply normalize_plain.
Qed.

(** ** The eviction loop *)

Lemma evict_loop_unfold root maxBackups verbose front rest w :
  (maxBackups <= N.of_nat (length (front :: rest)))%N ->
  evict_loop root maxBackups verbose (front :: rest) w =
  evict_loop root maxBackups verbose rest (evict_step root verbose w front).
Proof.
  intros Hle. cbn [evict_loop].
  destruct (N.leb_spec maxBackups (N.of_nat (length (front :: rest)))); [|lia].
  unfold evict_step, mbind, M_bind, when, cout, remove_all.
  destruct verbose; simpl;
    by destruct (resolve (w_cwd w) (path_join root front)).
Qed.

Lemma evict_loop_stop root maxBackups verbose backups w :
  (N.of_nat (length backups) < maxBackups)%N ->
  evict_loop root maxBackups verbose backups w = Ok tt w.
Proof.
  intros Hlt. destruct backups; cbn [evict_loop];
    destruct (N.leb_spec maxBackups (N.of_nat (length (A:=string) [])));
    try destruct (N.leb_spec maxBackups (N.of_nat (length (s :: backups))));
    simpl in *; try lia; done.
Qed.

(** With a limit of at least one the loop evicts, front first, just as
    many entries as leave fewer than the limit. *)
Lemma evict_loop_spec root maxBackups verbose backups w :
  (1 <= maxBackups)%N ->
  evict_loop root maxBackups verbose backups w =
  Ok tt (foldl (evict_step root verbose) w
           (take (length backups + 1 - N.to_nat maxBackups) backups)).
Proof.
  intros Hmax. revert w. induction backups as [|front rest IH]; intros w.
  - rewrite evict_loop_stop by (simpl; lia). by rewrite take_nil.
  - destruct (N.leb_spec maxBackups (N.of_nat (length (front :: rest)))) as [Hle|Hgt].
    + rewrite evict_loop_unfold by done. rewrite IH.
      simpl length in *.
      replace (S (length rest) + 1 - N.to_nat maxBackups)%nat
        with (S (length rest + 1 - N.to_nat maxBackups)) by lia.
      done.
    + rewrite evict_loop_stop by done. simpl length in *.
      replace (S (length rest) + 1 - N.to_nat maxBackups)%nat with O by lia.
      done.
Qed.

Lemma directory_iterator_ok root w k :
  resolve (w_cwd w) root = Some k -> node_at (w_fs w) k = Some NDir ->
  directory_iterator root w = Ok (dir_entries (w_fs w) k) w.
Proof. intros Hr Hd. unfold directory_iterator. by rewrite Hr, Hd. Qed.

Lemma cleanup_old_backups_spec root maxBackups verbose w k :
  (1 <= maxBackups)%N ->
  resolve (w_cwd w) root = Some k -> node_at (w_fs w) k = Some NDir ->
  let sorted := std_sort string_ltb (backup_names (dir_entries (w_fs w) k)) in
  cleanup_old_backups root maxBackups verbose w =
  Ok tt (foldl (evict_step root verbose) w
           (take (length sorted + 1 - N.to_nat maxBackups) sorted)).
Proof.
  intros Hmax Hr Hd. unfold cleanup_old_backups, mbind, M_bind.
  rewrite (directory_iterator_ok root w k Hr Hd). by apply evict_loop_spec.
Qed.

(** ** Well-formed states *)

Lemma string_forall_app f a b :
  string_forall f (a +:+ b) = string_forall f a && string_forall f b.
Proof.
  induction a as [|c a IH]; str_simpl; simpl; [done|].
  rewrite IH. by rewrite andb_assoc.
Qed.

Lemma digit_char_no_separator d :
  (d < 10)%N -> negb (is_separator (digit_char d)) = true.
Proof.
  intros Hd.
  assert (H : (d = 0 \/ d = 1 \/ d = 2 \/ d = 3 \/ d = 4 \/ d = 5 \/ d = 6 \/
              d = 7 \/ d = 8 \/ d = 9)%N) by lia.
  repeat (destruct H as [->|H]; [reflexivity|]). by subst.
Qed.

Lemma dec_digits_no_separator fuel n acc :
  no_separator acc = true -> no_separator (dec_digits fuel n acc) = true.
Proof.
  revert n acc. induction fuel as [|fuel IH]; intros n acc Hacc; simpl; [done|].
  assert (Hd : no_separator (String (digit_char (n mod 10)) acc) = true).
  { unfold no_separator. simpl. rewrite digit_char_no_separator; [done|].
    apply N.mod_lt. lia. }
  destruct (n <? 10)%N; [done|]. by apply IH.
Qed.

Lemma dec_N_no_separator n : no_separator (dec_N n) = true.
Proof. by apply dec_digits_no_separator. Qed.

Lemma dec_Z_no_separator z : no_separator (dec_Z z) = true.
Proof.
  unfold dec_Z. destruct (z <? 0); [|apply dec_N_no_separator].
  unfold no_separator. rewrite string_forall_app.
  fold (no_separator (dec_N (Z.abs_N z))). by rewrite dec_N_no_separator.
Qed.

Lemma pad2_no_separator z : no_separator (pad2 z) = true.
Proof.
  unfold pad2. destruct (_ <? _)%nat; [|apply dec_Z_no_separator].
  unfold no_separator. rewrite string_forall_app.
  fold (no_separator (dec_Z z)). by rewrite dec_Z_no_separator.
Qed.

(** The name of a new snapshot is always a plain name. *)
Lemma make_timestamp_folder_name_plain lt :
  plain_name (make_timestamp_folder_name lt) = true.
Proof.
  destruct lt as [t|]; [|reflexivity].
  unfold make_timestamp_folder_name, plain_name.
  assert (Hs : no_separator ("Backup_" +:+ put_time_stamp t) = true).
  { unfold no_separator, put_time_stamp.
    rewrite !string_forall_app.
    pose proof dec_Z_no_separator as Hd. pose proof pad2_no_separator as Hp.
    unfold no_separator in Hd, Hp. rewrite Hd, !Hp. reflexivity. }
  unfold no_separator in Hs. rewrite Hs. str_simpl. reflexivity.
Qed.

Lemma split_path_no_separator s : Forall (fun e => no_separator e = true) (split_path s).
Proof.
  induction s as [|c s IH]; simpl; [by repeat constructor|].
  destruct (is_separator c) eqn:Hc; [by constructor|].
  destruct (split_path s) as [|h t].
  - repeat constructor. unfold no_separator. simpl. by rewrite Hc.
  - apply Forall_cons in IH as [Hh Ht]. constructor; [|done].
    unfold no_separator in *. simpl. by rewrite Hc, Hh.
Qed.

Lemma plain_location_removelast k : plain_location k -> plain_location (removelast k).
Proof.
  unfold plain_location. induction 1 as [|n k Hn Hk IH]; simpl; [constructor|].
  destruct k; [constructor|]. by constructor.
Qed.

Lemma normalize_plain_location cur elems :
  plain_location cur -> Forall (fun e => no_separator e = true) elems ->
  plain_location (normalize cur elems).
Proof.
  intros Hcur Hel. revert cur Hcur.
  induction Hel as [|e elems He Hel IH]; intros cur Hcur; simpl; [done|].
  repeat case_decide; try by apply IH.
  - by apply IH, plain_location_removelast.
  - apply IH. apply Forall_app. split; [done|]. constructor; [|constructor].
    unfold plain_name. unfold no_separator in He. rewrite He. simpl.
    destruct (String.eqb_spec e EmptyString); [done|].
    destruct (String.eqb_spec e "."); [done|].
    by destruct (String.eqb_spec e "..").
Qed.

Lemma resolve_plain_location cwd p k :
  plain_location cwd -> resolve cwd p = Some k -> plain_location k.
Proof.
  intros Hcwd Hr.
  assert (Hne : p <> EmptyString) by (by intros ->).
  rewrite resolve_split in Hr by done. injection Hr as <-.
  apply normalize_plain_location; [|apply split_path_no_separator].
  destruct (has_root_directory p); [constructor|done].
Qed.

Lemma remove_tree_wf (k : list string) (fs : filesystem) :
  wf_fs fs -> wf_fs (remove_tree k fs).
Proof.
  intros H q v Hq. apply (H q v).
  by apply (lookup_weaken _ _ _ _ Hq), remove_tree_subseteq.
Qed.

(** The file system after a run of evictions from a well-formed state. *)
Lemma evict_fold_cwd root verbose ev w :
  w_cwd (foldl (evict_step root verbose) w ev) = w_cwd w.
Proof.
  revert w. induction ev as [|e ev IH]; intros w; simpl; [done|].
  rewrite IH. unfold evict_step.
  destruct verbose; simpl; by destruct (resolve _ _).
Qed.

Lemma evict_fold_fs root verbose ev w k :
  resolve (w_cwd w) root = Some k ->
  Forall (fun n => plain_name n = true) ev ->
  w_fs (foldl (evict_step root verbose) w ev) =
  foldl (fun fs e => remove_tree (k ++ [e]) fs) (w_fs w) ev.
Proof.
  intros Hr Hev. revert w Hr.
  induction Hev as [|e ev He Hev IH]; intros w Hr; simpl; [done|].
  assert (Hstep : w_cwd (evict_step root verbose w e) = w_cwd w /\
                  w_fs (evict_step root verbose w e) = remove_tree (k ++ [e]) (w_fs w)).
  { unfold evict_step. destruct verbose; simpl;
      by rewrite (resolve_join _ _ _ _ Hr He). }
  destruct Hstep as [Hc Hf]. rewrite IH by by rewrite Hc. by rewrite Hf.
Qed.

Lemma lookup_evict_fold (k ev : list string) (fs : filesystem) (q : list string) :
  foldl (fun fs e => remove_tree (k ++ [e]) fs) fs ev !! q =
  if decide (Exists (fun e => (k ++ [e]) `prefix_of` q) ev) then None else fs !! q.
Proof.
  revert fs. induction ev as [|e ev IH]; intros fs; cbn [foldl].
  - case_decide as H; [by apply Exists_nil in H|done].
  - rewrite IH, lookup_remove_tree.
    repeat case_decide; try done; exfalso; rewrite Exists_cons in *; tauto.
Qed.

(** ** Inversion of the monad *)

Lemma bind_Ok_inv {A B} (m : M A) (f : A -> M B) w b w' :
  (m ≫= f) w = Ok b w' -> exists a w1, m w = Ok a w1 /\ f a w1 = Ok b w'.
Proof.
  unfold mbind, M_bind. destruct (m w) as [a w1| | |] eqn:E; try done.
  intros H. by exists a, w1.
Qed.

Lemma try_catch_Ok_inv {A} (body : M A) handler w a w' :
  try_catch body handler w = Ok a w' ->
  body w = Ok a w' \/ exists e w1, body w = Throw e w1 /\ handler e w1 = Ok a w'.
Proof.
  unfold try_catch. destruct (body w) as [a1 w1|e w1| |] eqn:E; try done.
  - intros H. by left.
  - intros H. right. by exists e, w1.
Qed.

Lemma when_Ok_inv b m w u w' :
  when b m w = Ok u w' -> if b then m w = Ok u w' else w' = w.
Proof. unfold when. destruct b; [done|]. by intros [= _ ->]. Qed.

Lemma cout_inv text w u w' : cout text w = Ok u w' -> w' = emit w (Out text).
Proof. by intros [= _ <-]. Qed.

Lemma cerr_inv text w u w' : cerr text w = Ok u w' -> w' = emit w (Err text).
Proof. by intros [= _ <-]. Qed.

(** ** The recursive copy *)

Lemma copy_entries_prefix (fs : filesystem) (s d q : list string) v :
  (q, v) ∈ copy_entries fs s d -> exists rest, q = d ++ rest /\ fs !! (s ++ rest) = Some v.
Proof.
  unfold copy_entries. rewrite list_elem_of_omap.
  intros ([q' v'] & Hin & Hm). unfold moved_entry in Hm. simpl in Hm.
  destruct (strip_prefix s q') as [rest|] eqn:E; [|done].
  injection Hm as <- <-. apply strip_prefix_Some in E as ->.
  exists rest. split; [done|]. by apply elem_of_map_to_list.
Qed.

Lemma elem_of_copy_entries (fs : filesystem) (s d rest : list string) v :
  fs !! (s ++ rest) = Some v -> (d ++ rest, v) ∈ copy_entries fs s d.
Proof.
  intros H. unfold copy_entries. rewrite list_elem_of_omap.
  exists (s ++ rest, v). split; [by apply elem_of_map_to_list|].
  unfold moved_entry. simpl.
  by rewrite (proj2 (strip_prefix_Some s (s ++ rest) rest) eq_refl).
Qed.

Lemma copy_new_None (fs : filesystem) (s d q : list string) :
  ~ d `prefix_of` q ->
  (<[d := NDir]> (list_to_map (copy_entries fs s d)) : filesystem) !! q = None.
Proof.
  intros Hq. rewrite lookup_insert_ne by (intros ->; by apply Hq).
  apply not_elem_of_list_to_map_1. intros Hin. apply Hq.
  apply list_elem_of_fmap in Hin as ([q' v] & -> & Hin). simpl.
  apply copy_entries_prefix in Hin as (rest & -> & _). by apply prefix_app_r.
Qed.

Lemma copy_new_Some (fs : filesystem) (s d q : list string) v :
  (<[d := NDir]> (list_to_map (copy_entries fs s d)) : filesystem) !! q = Some v ->
  exists rest, q = d ++ rest /\
    ((rest = [] /\ v = NDir) \/ fs !! (s ++ rest) = Some v).
Proof.
  intros H. destruct (decide (d = q)) as [<-|Hne].
  - rewrite lookup_insert_eq in H. injection H as <-.
    exists []. rewrite app_nil_r. split; [done|]. by left.
  - rewrite lookup_insert_ne in H by done.
    apply elem_of_list_to_map_2, copy_entries_prefix in H as (rest & -> & Hl).
    exists rest. split; [done|]. by right.
Qed.

(** A successful copy leaves everything outside the destination alone. *)
Lemma copy_tree_outside (fs fs2 : filesystem) (s d q : list string) :
  copy_tree fs s d = Some fs2 -> ~ d `prefix_of` q -> fs2 !! q = fs !! q.
Proof.
  unfold copy_tree. intros H Hq.
  destruct (node_at fs s) as [[content|]|]; [| |done].
  - set (d' := match node_at fs d with Some NDir => _ | _ => d end) in *.
    assert (Hd' : d `prefix_of` d').
    { subst d'. destruct (node_at fs d) as [[|]|]; try done. by apply prefix_app_r. }
    destruct (node_at fs d') as [|]; [done|].
    destruct (node_at fs (removelast d')) as [[|]|]; try done.
    injection H as <-. apply lookup_insert_ne. by intros <-.
  - case_decide; [done|].
    destruct (node_at fs d) as [[|]|], (node_at fs (removelast d)) as [[|]|];
      try done;
      (destruct (existsb _ _); [done|]; injection H as <-;
       by apply lookup_union_r, copy_new_None).
Qed.

(** A successful copy of a directory puts a directory at the destination. *)
Lemma copy_tree_directory (fs fs2 : filesystem) (s d : list string) :
  node_at fs s = Some NDir -> copy_tree fs s d = Some fs2 -> fs2 !! d = Some NDir.
Proof.
  unfold copy_tree. intros -> H. case_decide; [done|].
  destruct (node_at fs d) as [[|]|], (node_at fs (removelast d)) as [[|]|];
    try done;
    (destruct (existsb _ _); [done|]; injection H as <-;
     apply lookup_union_Some_l; apply lookup_insert_eq).
Qed.

Lemma plain_location_app k1 k2 :
  plain_location (k1 ++ k2) <-> plain_location k1 /\ plain_location k2.
Proof. apply Forall_app. Qed.

Lemma plain_location_drop n k : plain_location k -> plain_location (drop n k).
Proof. apply Forall_drop. Qed.

Lemma copy_tree_wf (fs fs2 : filesystem) (s d : list string) :
  wf_fs fs -> plain_location d -> copy_tree fs s d = Some fs2 -> wf_fs fs2.
Proof.
  unfold copy_tree. intros Hwf Hd H.
  destruct (node_at fs s) as [[content|]|] eqn:Hs; [| |done].
  - assert (Hps : plain_location s).
    { destruct s; [constructor|]. by apply (Hwf _ _ Hs). }
    set (d' := match node_at fs d with Some NDir => _ | _ => d end) in *.
    assert (Hd' : plain_location d').
    { subst d'. destruct (node_at fs d) as [[|]|]; try done.
      apply plain_location_app. split; [done|]. by apply plain_location_drop. }
    destruct (node_at fs d') as [|]; [done|].
    destruct (node_at fs (removelast d')) as [[|]|]; try done.
    injection H as <-. by apply map_Forall_insert_2.
  - case_decide; [done|].
    destruct (node_at fs d) as [[|]|], (node_at fs (removelast d)) as [[|]|];
      try done;
      (destruct (existsb _ _); [done|]; injection H as <-;
       intros q v Hq;
       apply lookup_union_Some_raw in Hq as [Hq|[_ Hq]]; [|by apply (Hwf q v)];
       apply copy_new_Some in Hq as (rest & -> & [[-> _]|Hl]);
       [by rewrite app_nil_r|];
       apply plain_location_app; split; [done|];
       by apply (Hwf _ _) in Hl; apply plain_location_app in Hl as [_ ?]).
Qed.

(** ** A successful create *)

Lemma cleanup_old_backups_inv root maxBackups verbose w u w1 :
  cleanup_old_backups root maxBackups verbose w = Ok u w1 ->
  exists k, resolve (w_cwd w) root = Some k /\ node_at (w_fs w) k = Some NDir /\
    evict_loop root maxBackups verbose
      (std_sort string_ltb (backup_names (dir_entries (w_fs w) k))) w = Ok u w1.
Proof.
  unfold cleanup_old_backups. intros (es & w0 & Hit & Hloop)%bind_Ok_inv.
  unfold directory_iterator in Hit.
  destruct (resolve (w_cwd w) root) as [k|]; [|done].
  destruct (node_at (w_fs w) k) as [[|]|] eqn:Hk; try done.
  injection Hit as <- <-. by exists k.
Qed.

(** With a limit of zero the loop runs off the end of the vector. *)
Lemma evict_loop_zero root verbose backups w :
  evict_loop root 0%N verbose backups w = Undefined.
Proof.
  revert w. induction backups as [|front rest IH]; intros w; [done|].
  rewrite evict_loop_unfold by lia. apply IH.
Qed.

Lemma evict_loop_Ok_inv root maxBackups verbose backups w u w1 :
  evict_loop root maxBackups verbose backups w = Ok u w1 ->
  (1 <= maxBackups)%N /\
  w1 = foldl (evict_step root verbose) w
         (take (length backups + 1 - N.to_nat maxBackups) backups).
Proof.
  intros H. assert (Hmax : (1 <= maxBackups)%N).
  { destruct (N.eq_dec maxBackups 0%N) as [->|]; [|lia].
    by rewrite evict_loop_zero in H. }
  split; [done|]. rewrite evict_loop_spec in H by done. by injection H.
Qed.

(** What a successful [perform_backup] has done: the source was a
    directory, the retention pass went through, and the tree at the source
    was copied to the new folder. *)
Lemma perform_backup_success P config lt w w' :
  perform_backup P config lt w = Ok true w' ->
  exists src s w1 d,
    resolve (w_cwd w) src = Some s /\ node_at (w_fs w) s = Some NDir /\
    cleanup_old_backups (backupRoot config) (maxBackups config) (verbose config) w
      = Ok tt w1 /\
    resolve (w_cwd w1)
      (path_join (backupRoot config) (make_timestamp_folder_name lt)) = Some d /\
    resolve (w_cwd w1) src = Some s /\
    copy_tree (w_fs w1) s d = Some (w_fs w') /\
    w_cwd w' = w_cwd w1 /\
    last (w_trace w') =
      Some (Out (check_mark +:+ " Created backup: " +:+
                 make_timestamp_folder_name lt +:+ nl)).
Proof.
  intros H. unfold perform_backup in H.
  apply try_catch_Ok_inv in H as [H|(e & w0 & _ & H)]; cycle 1.
  { apply bind_Ok_inv in H as (? & ? & _ & H). done. }
  apply bind_Ok_inv in H as (src & w0 & Hsrc & H).
  assert (w0 = w) as ->.
  { destruct (negb _); [by injection Hsrc as _ <-|].
    unfold read_path_from_file in Hsrc.
    destruct (lookup_path w _) as [[|]|]; try done.
    destruct (first_path_line _); [|done]. by injection Hsrc as _ <-. }
  clear Hsrc.
  apply bind_Ok_inv in H as (found & w0 & [= <- <-] & H).
  apply bind_Ok_inv in H as (isdir & w0 & [= <- <-] & H).
  unfold lookup_path in H.
  destruct (resolve (w_cwd w) src) as [s|] eqn:Hs; [|simpl in H].
  2: { apply bind_Ok_inv in H as (? & ? & _ & H). done. }
  destruct (node_at (w_fs w) s) as [[|]|] eqn:Hn; simpl in H.
  1,3: apply bind_Ok_inv in H as (? & ? & _ & H); done.
  apply bind_Ok_inv in H as ([] & w1 & Hclean & H).
  apply bind_Ok_inv in H as ([] & w2 & Hverb & H).
  apply bind_Ok_inv in H as ([] & w3 & Hcopy & H).
  apply bind_Ok_inv in H as ([] & w4 & Hout & H).
  injection H as <-. apply cout_inv in Hout as ->.
  assert (Hw2 : w_fs w2 = w_fs w1 /\ w_cwd w2 = w_cwd w1).
  { apply when_Ok_inv in Hverb. destruct (verbose config); [|by subst].
    by apply cout_inv in Hverb as ->. }
  destruct Hw2 as [Hf2 Hc2].
  unfold copy_recursive in Hcopy. rewrite Hc2, Hf2 in Hcopy.
  destruct (resolve (w_cwd w1) src) as [s'|] eqn:Hs'; [|done].
  destruct (resolve (w_cwd w1) (path_join _ _)) as [d|] eqn:Hd; [|done].
  destruct (copy_tree (w_fs w1) s' d) as [fs2|] eqn:Hct; [|done].
  injection Hcopy as <-.
  assert (Hcwd : w_cwd w1 = w_cwd w).
  { apply cleanup_old_backups_inv in Hclean as (k & _ & _ & Hloop).
    apply evict_loop_Ok_inv in Hloop as [_ ->]. apply evict_fold_cwd. }
  exists src, s, w1, d. rewrite Hcwd in Hs'. rewrite Hs in Hs'. injection Hs' as <-.
  repeat split; try done; try by rewrite ?Hcwd.
  simpl. apply last_snoc.
Qed.

Lemma evict_fold_wf (k ev : list string) (fs : filesystem) :
  wf_fs fs -> wf_fs (foldl (fun fs e => remove_tree (k ++ [e]) fs) fs ev).
Proof.
  revert fs. induction ev as [|e ev IH]; intros fs Hwf; simpl; [done|].
  by apply IH, remove_tree_wf.
Qed.

(** The names in the catalog of a well-formed state are plain. *)
Lemma catalog_entries_plain (fs : filesystem) (k : list string) n :
  wf_fs fs -> n ∈ backup_names (dir_entries fs k) -> plain_name n = true.
Proof.
  intros Hwf [Hl _]%elem_of_catalog_entries.
  apply Hwf in Hl. apply plain_location_app in Hl as [_ Hn].
  by inversion Hn.
Qed.

(** The state after the retention pass, in a well-formed state. *)
Lemma cleanup_old_backups_state root maxBackups verbose w w1 :
  wf_world w ->
  cleanup_old_backups root maxBackups verbose w = Ok tt w1 ->
  exists k, resolve (w_cwd w) root = Some k /\ node_at (w_fs w) k = Some NDir /\
    (1 <= maxBackups)%N /\ w_cwd w1 = w_cwd w /\
    let sorted := std_sort string_ltb (backup_names (dir_entries (w_fs w) k)) in
    let evicted := take (length sorted + 1 - N.to_nat maxBackups) sorted in
    w1 = foldl (evict_step root verbose) w evicted /\
    w_fs w1 = foldl (fun fs e => remove_tree (k ++ [e]) fs) (w_fs w) evicted.
Proof.
  intros [Hwf Hcwd] (k & Hr & Hd & Hloop)%cleanup_old_backups_inv.
  apply evict_loop_Ok_inv in Hloop as [Hmax ->].
  exists k. repeat split; try done; [apply evict_fold_cwd|].
  apply evict_fold_fs; [done|].
  apply Forall_forall. intros n (i & Hn%list_elem_of_lookup_2 & _)%elem_of_take.
  rewrite std_sort_perm in Hn. by apply (catalog_entries_plain (w_fs w) k).
Qed.

(** ** The retention pass (C5) *)

Lemma prefix_snoc_below (k rest : list string) (e n : string) :
  (k ++ [e]) `prefix_of` ((k ++ [n]) ++ rest) -> e = n.
Proof.
  intros [r Hr]. rewrite <- !app_assoc in Hr.
  apply app_inv_head in Hr. simpl in Hr. by injection Hr.
Qed.

(** C5.  Retention enforcement collects the catalog, sorts it by file name
    into strictly ascending order (oldest first) and, while the vector
    holds at least [maxBackups] entries, removes its front entry from the
    file system and from the vector: the entries evicted are, in this
    order, the first [length + 1 - maxBackups] of the sorted catalog, so
    that the first one evicted is the oldest.  In the state that the pass
    ends in, every evicted entry is gone with all that was below it and is
    no longer in the catalog; every other entry of the catalog is there as
    it was; each evicted entry is older than each one kept; fewer than
    [maxBackups] are kept, and just one fewer when anything was evicted. *)
Theorem C5_retention_evicts_oldest_first root maxBackups verbose w k :
  wf_world w -> (1 <= maxBackups)%N ->
  resolve (w_cwd w) root = Some k -> node_at (w_fs w) k = Some NDir ->
  let sorted := std_sort string_ltb (catalog w root) in
  let evicted := take (length sorted + 1 - N.to_nat maxBackups) sorted in
  let kept := drop (length sorted + 1 - N.to_nat maxBackups) sorted in
  sorted ≡ₚ catalog w root /\ Sorted string_lt sorted /\
  cleanup_old_backups root maxBackups verbose w =
    Ok tt (foldl (evict_step root verbose) w evicted) /\
  (forall oldest rest, sorted = oldest :: rest ->
     (maxBackups <= N.of_nat (length sorted))%N -> head evicted = Some oldest) /\
  exists w1,
    cleanup_old_backups root maxBackups verbose w = Ok tt w1 /\
    (forall e, e ∈ evicted ->
       e ∈ catalog w root /\ (e ∉ catalog w1 root) /\
       (forall rest : list string, w_fs w1 !! ((k ++ [e]) ++ rest) = None)) /\
    (forall n, n ∈ kept ->
       n ∈ catalog w1 root /\
       (forall rest : list string,
          w_fs w1 !! ((k ++ [n]) ++ rest) = w_fs w !! ((k ++ [n]) ++ rest))) /\
    (forall n, n ∈ catalog w1 root <-> n ∈ kept) /\
    (forall e n, e ∈ evicted -> n ∈ kept -> string_lt e n) /\
    (N.of_nat (length kept) < maxBackups)%N /\
    (evicted <> [] -> maxBackups = (N.of_nat (length kept) + 1)%N).
Proof.
  intros Hwf Hmax Hr Hd. pose proof Hwf as [Hwfs _].
  assert (Hcatw : catalog w root = backup_names (dir_entries (w_fs w) k))
    by (unfold catalog; by rewrite Hr).
  cbv zeta. rewrite Hcatw.
  set (sorted := std_sort string_ltb (backup_names (dir_entries (w_fs w) k))).
  set (j := (length sorted + 1 - N.to_nat maxBackups)%nat).
  assert (Hperm : sorted ≡ₚ backup_names (dir_entries (w_fs w) k))
    by apply std_sort_perm.
  assert (Hsorted : Sorted string_lt sorted)
    by apply std_sort_strict, catalog_entries_NoDup.
  assert (Hnd : NoDup sorted) by (rewrite Hperm; apply catalog_entries_NoDup).
  assert (Hclean : cleanup_old_backups root maxBackups verbose w =
                   Ok tt (foldl (evict_step root verbose) w (take j sorted)))
    by by apply cleanup_old_backups_spec.
  split; [done|]. split; [done|]. split; [done|]. split.
  { intros oldest rest Hs Hle. unfold j. rewrite Hs in *. simpl length in *.
    replace (S (length rest) + 1 - N.to_nat maxBackups)%nat
      with (S (length rest + 1 - N.to_nat maxBackups)) by lia.
    done. }
  set (w1 := foldl (evict_step root verbose) w (take j sorted)).
  exists w1. split; [done|].
  assert (Hin_take : forall e, e ∈ take j sorted -> e ∈ sorted).
  { intros e (i & He%list_elem_of_lookup_2 & _)%elem_of_take. done. }
  assert (Hin_drop : forall n, n ∈ drop j sorted -> n ∈ sorted).
  { intros n Hn. rewrite <- (take_drop j sorted). apply elem_of_app. by right. }
  assert (Hdisj : forall n, n ∈ take j sorted -> n ∉ drop j sorted).
  { pose proof Hnd as Hnd'. rewrite <- (take_drop j sorted) in Hnd'.
    by apply NoDup_app in Hnd' as (_ & Hd' & _). }
  assert (Hplain : Forall (fun n => plain_name n = true) (take j sorted)).
  { apply Forall_forall. intros n Hn%Hin_take. rewrite Hperm in Hn.
    by apply (catalog_entries_plain (w_fs w) k). }
  assert (Hfs1 : w_fs w1 =
                 foldl (fun fs e => remove_tree (k ++ [e]) fs) (w_fs w) (take j sorted))
    by by apply evict_fold_fs.
  assert (Hc1 : resolve (w_cwd w1) root = Some k).
  { unfold w1. by rewrite evict_fold_cwd. }
  assert (Hgone : forall e (rest : list string), e ∈ take j sorted ->
                    w_fs w1 !! ((k ++ [e]) ++ rest) = None).
  { intros e rest He. rewrite Hfs1, lookup_evict_fold.
    case_decide as Hex; [done|]. destruct Hex. apply Exists_exists.
    exists e. split; [done|]. by apply prefix_app_r. }
  assert (Hstay : forall n (rest : list string), n ∈ drop j sorted ->
                    w_fs w1 !! ((k ++ [n]) ++ rest) = w_fs w !! ((k ++ [n]) ++ rest)).
  { intros n rest Hn. rewrite Hfs1, lookup_evict_fold.
    case_decide as Hex; [exfalso|done].
    apply Exists_exists in Hex as (e & He & Hp).
    apply prefix_snoc_below in Hp as ->. by apply (Hdisj n). }
  assert (Hcat : forall n, n ∈ catalog w1 root <-> n ∈ drop j sorted).
  { intros n. unfold catalog. rewrite Hc1, elem_of_catalog_entries. split.
    - intros [Hl Hp].
      assert (Hn : n ∈ sorted).
      { rewrite Hperm. apply elem_of_catalog_entries. split; [|done].
        rewrite Hfs1, lookup_evict_fold in Hl. by case_decide. }
      rewrite <- (take_drop j sorted) in Hn.
      apply elem_of_app in Hn as [Hn|Hn]; [|done].
      pose proof (Hgone n [] Hn) as Hg. rewrite app_nil_r in Hg. congruence.
    - intros Hn. pose proof (Hstay n [] Hn) as Hs. rewrite app_nil_r in Hs.
      apply Hin_drop in Hn. rewrite Hperm in Hn.
      apply elem_of_catalog_entries in Hn as [Hl Hp]. split; [congruence|done]. }
  split.
  { intros e He. split; [rewrite <- Hperm; by apply Hin_take|].
    split; [|intros rest; by apply Hgone].
    intros Hc%Hcat. by apply (Hdisj e). }
  split.
  { intros n Hn. split; [by apply Hcat|]. intros rest. by apply Hstay. }
  split; [done|]. split.
  { intros e n He Hn.
    assert (Htrans : Transitive string_lt).
    { intros a b c. apply string_compare_trans. }
    apply (Sorted_StronglySorted _) in Hsorted.
    rewrite <- (take_drop j sorted) in Hsorted.
    by apply (StronglySorted_app_1_elem_of _ _ _ _ _ Hsorted). }
  rewrite length_drop. unfold j. split; [lia|].
  intros Hne.
  assert (0 < length sorted + 1 - N.to_nat maxBackups)%nat; [|lia].
  destruct (length sorted + 1 - N.to_nat maxBackups)%nat eqn:E; [|lia].
  by rewrite take_0 in Hne.
Qed.

(** The three snapshots of the specification and a limit of two: both
    older entries go, the one of the first of January first, and the one
    of the third of January stays with its content. *)
Lemma C5_eviction_order_example :
  let w := make_world fs_three in
  std_sort string_ltb (catalog w "CopiedFiles") =
    ["Backup_2024-01-01_00-00-00"; "Backup_2024-01-02_00-00-00";
     "Backup_2024-01-03_00-00-00"] /\
  cleanup_old_backups "CopiedFiles" 2 false w =
    Ok tt (foldl (evict_step "CopiedFiles" false) w
             ["Backup_2024-01-01_00-00-00"; "Backup_2024-01-02_00-00-00"]) /\
  head (take (3 + 1 - 2) (std_sort string_ltb (catalog w "CopiedFiles"))) =
    Some "Backup_2024-01-01_00-00-00" /\
  exists w1,
    cleanup_old_backups "CopiedFiles" 2 false w = Ok tt w1 /\
    w_fs w1 !! ["work"; "CopiedFiles"; "Backup_2024-01-01_00-00-00"] = None /\
    w_fs w1 !! ["work"; "CopiedFiles"; "Backup_2024-01-01_00-00-00"; "notes.txt"] = None /\
    w_fs w1 !! ["work"; "CopiedFiles"; "Backup_2024-01-03_00-00-00"; "notes.txt"] =
      Some (NFile "three") /\
    "Backup_2024-01-03_00-00-00" ∈ catalog w1 "CopiedFiles" /\
    "Backup_2024-01-01_00-00-00" ∉ catalog w1 "CopiedFiles".
Proof.
  intros w.
  assert (Hs : std_sort string_ltb (catalog w "CopiedFiles") =
    ["Backup_2024-01-01_00-00-00"; "Backup_2024-01-02_00-00-00";
     "Backup_2024-01-03_00-00-00"]) by (vm_compute; reflexivity).
  assert (H0 : wf_world w) by (apply (bool_decide_unpack _); vm_compute; exact I).
  assert (H1 : (1 <= 2)%N) by lia.
  assert (H2 : resolve (w_cwd w) "CopiedFiles" = Some ["work"; "CopiedFiles"])
    by (vm_compute; reflexivity).
  assert (H3 : node_at (w_fs w) ["work"; "CopiedFiles"] = Some NDir)
    by (vm_compute; reflexivity).
  destruct (C5_retention_evicts_oldest_first "CopiedFiles" 2 false w
              ["work"; "CopiedFiles"] H0 H1 H2 H3)
    as (_ & _ & Hc & Hh & w1 & Hw1 & Hgone & Hkept & _).
  rewrite Hs in Hc, Hh, Hgone, Hkept. split; [exact Hs|]. split; [exact Hc|].
  split; [rewrite Hs; apply (Hh _ _ eq_refl); simpl; lia|].
  exists w1. split; [exact Hw1|].
  assert (He : "Backup_2024-01-01_00-00-00" ∈
               take (3 + 1 - N.to_nat 2)
                 ["Backup_2024-01-01_00-00-00"; "Backup_2024-01-02_00-00-00";
                  "Backup_2024-01-03_00-00-00"]) by (simpl; left).
  assert (Hk : "Backup_2024-01-03_00-00-00" ∈
               drop (3 + 1 - N.to_nat 2)
                 ["Backup_2024-01-01_00-00-00"; "Backup_2024-01-02_00-00-00";
                  "Backup_2024-01-03_00-00-00"]) by (simpl; left).
  destruct (Hgone _ He) as (_ & Hnot & Hbelow).
  destruct (Hkept _ Hk) as (Hin & Hsame).
  split; [exact (Hbelow [])|]. split; [exact (Hbelow ["notes.txt"])|].
  split; [|split; [exact Hin|exact Hnot]].
  etrans; [exact (Hsame ["notes.txt"])|]. vm_compute. reflexivity.
Defined.

(** ** The retention bound (C1) *)

(** After a successful create the state is well formed again and the
    catalog holds at most [maxBackups] entries. *)
Lemma perform_backup_retention P config lt w w' :
  wf_world w ->
  perform_backup P config lt w = Ok true w' ->
  wf_world w' /\
  (N.of_nat (length (catalog w' (backupRoot config))) <= maxBackups config)%N.
Proof.
  intros Hwf H. pose proof Hwf as [Hwfs Hwfc].
  apply perform_backup_success in H
    as (src & s & w1 & d & Hs & Hsd & Hclean & Hd & _ & Hcopy & Hc' & _).
  apply (cleanup_old_backups_state _ _ _ _ _ Hwf) in Hclean
    as (k & Hr & Hk & Hmax & Hc1 & _ & Hfs1).
  set (sorted := std_sort string_ltb (backup_names (dir_entries (w_fs w) k))) in *.
  set (j := (length sorted + 1 - N.to_nat (maxBackups config))%nat) in *.
  set (name := make_timestamp_folder_name lt) in *.
  assert (Hname : plain_name name = true) by apply make_timestamp_folder_name_plain.
  rewrite Hc1 in Hd. rewrite (resolve_join _ _ _ _ Hr Hname) in Hd.
  injection Hd as <-.
  assert (Hpk : plain_location k) by by apply (resolve_plain_location _ _ _ Hwfc Hr).
  assert (Hwf1 : wf_fs (w_fs w1)) by (rewrite Hfs1; by apply evict_fold_wf).
  split.
  - split; [|by rewrite Hc', Hc1].
    eapply copy_tree_wf; [exact Hwf1| |exact Hcopy].
    apply plain_location_app. split; [done|]. by repeat constructor.
  - unfold catalog. rewrite Hc', Hc1, Hr.
    assert (Hsub : forall n, n ∈ backup_names (dir_entries (w_fs w') k) ->
                             n ∈ name :: drop j sorted).
    { intros n [Hl Hp]%elem_of_catalog_entries.
      destruct (decide (n = name)) as [->|Hne]; [left|right].
      rewrite (copy_tree_outside _ _ _ _ _ Hcopy) in Hl
        by (intros Hpre%prefix_snoc_inv; congruence).
      rewrite Hfs1, lookup_evict_fold in Hl.
      case_decide as Hex; [done|].
      assert (Hin : n ∈ sorted).
      { unfold sorted. rewrite std_sort_perm. by apply elem_of_catalog_entries. }
      rewrite <- (take_drop j sorted) in Hin.
      apply elem_of_app in Hin as [Hin|Hin]; [|done].
      exfalso. apply Hex. apply Exists_exists. by exists n. }
    apply NoDup_submseteq in Hsub; [|apply catalog_entries_NoDup].
    apply submseteq_length in Hsub. simpl in Hsub. rewrite length_drop in Hsub.
    lia.
Qed.

(** C1.  For every retention count of at least one, after any non-empty
    sequence of create operations that all succeed, each of them the
    retention pass followed by the recursive copy, the backup root holds at
    most that many snapshot entries. *)
Theorem C1_retention_bound P config lts w w' :
  (1 <= maxBackups config)%N -> wf_world w -> lts <> [] ->
  run_creates P config lts w = Some w' ->
  (N.of_nat (length (catalog w' (backupRoot config))) <= maxBackups config)%N.
Proof.
  intros _ Hwf Hne. revert w Hwf.
  induction lts as [|lt rest IH]; [done|]. intros w Hwf Hrun. simpl in Hrun.
  destruct (perform_backup P config lt w) as [[|] w1| | |] eqn:Hpb; try done.
  destruct (perform_backup_retention _ _ _ _ _ Hwf Hpb) as [Hwf1 Hlen].
  destruct rest as [|lt' rest'].
  - simpl in Hrun. by injection Hrun as <-.
  - by apply (IH ltac:(done) w1).
Qed.

(** Three creates in a row with a limit of two, the last one with a
    failing clock. *)
Lemma C1_retention_bound_witness :
  match run_creates sample_platform sample_config [Some noon; Some evening; None]
          (make_world fs_three) with
  | Some w' => (N.of_nat (length (catalog w' "CopiedFiles")) <= 2)%N
  | None => False
  end.
Proof.
  assert (Hs : is_Some (run_creates sample_platform sample_config
                          [Some noon; Some evening; None] (make_world fs_three))).
  { apply (bool_decide_unpack _). vm_compute. exact I. }
  destruct (run_creates _ _ _ _) as [w'|] eqn:E; [|by destruct Hs].
  apply (C1_retention_bound sample_platform sample_config
           [Some noon; Some evening; None] (make_world fs_three)).
  - vm_compute. discriminate.
  - apply (bool_decide_unpack _). vm_compute. exact I.
  - discriminate.
  - exact E.
Defined.

(** ** Clock failure (C2) *)

Lemma evict_fold_subseteq root verbose ev w :
  w_fs (foldl (evict_step root verbose) w ev) ⊆ w_fs w.
Proof.
  revert w. induction ev as [|e ev IH]; intros w; simpl; [done|].
  etrans; [apply IH|]. unfold evict_step.
  destruct verbose; simpl; destruct (resolve _ _); simpl;
    try done; apply remove_tree_subseteq.
Qed.

Lemma node_at_subseteq (fs1 fs2 : filesystem) (k : list string) nd :
  fs1 ⊆ fs2 -> node_at fs1 k = Some nd -> node_at fs2 k = Some nd.
Proof.
  intros Hsub. destruct k; [done|]. simpl. intros H.
  by apply (lookup_weaken _ _ _ _ H).
Qed.

(** C2, as the code has it.  When the local-time conversion fails,
    [make_timestamp_folder_name] returns the name [Backup_Error] and raises
    nothing; [perform_backup] goes on with that name, and a create that
    reports success has copied the source directory to
    [<root>/Backup_Error] and announced it under that name. *)
Theorem C2_clock_failure_uses_sentinel P config w w' :
  perform_backup P config None w = Ok true w' ->
  make_timestamp_folder_name None = "Backup_Error" /\
  lookup_path w' (path_join (backupRoot config) "Backup_Error") = Some NDir /\
  last (w_trace w') =
    Some (Out (check_mark +:+ " Created backup: Backup_Error" +:+ nl)).
Proof.
  intros H. split; [done|].
  apply perform_backup_success in H
    as (src & s & w1 & d & Hs & Hsd & Hclean & Hd & _ & Hcopy & Hc' & Hlast).
  split; [|exact Hlast].
  assert (Hsub : w_fs w1 ⊆ w_fs w).
  { apply cleanup_old_backups_inv in Hclean as (k & _ & _ & Hloop).
    apply evict_loop_Ok_inv in Hloop as [_ ->]. apply evict_fold_subseteq. }
  unfold lookup_path. rewrite Hc'. simpl in Hd. rewrite Hd.
  assert (Hdir : node_at (w_fs w1) s = Some NDir).
  { unfold copy_tree in Hcopy.
    destruct (node_at (w_fs w1) s) as [[c|]|] eqn:E; [|done|done].
    apply (node_at_subseteq _ (w_fs w)) in E; [congruence|done]. }
  pose proof (copy_tree_directory _ _ _ _ Hdir Hcopy) as Hl.
  destruct d; [done|]. exact Hl.
Qed.

(** With a failing clock the create succeeds and the snapshot is called
    [Backup_Error]: no error, no abort. *)
Lemma C2_clock_failure_counterexample :
  make_timestamp_folder_name None = "Backup_Error" /\
  match perform_backup sample_platform sample_config None (make_world fs_three) with
  | Ok ok w' =>
      ok = true /\
      lookup_path w' ("CopiedFiles" +:+ backslash +:+ "Backup_Error") = Some NDir
  | _ => False
  end.
Proof. split; [reflexivity|]. vm_compute. split; reflexivity. Qed.

(** A create with a failing clock into an empty backup root. *)
Lemma C2_clock_failure_witness :
  match perform_backup sample_platform sample_config None (make_world fs_source_root) with
  | Ok true w' =>
      last (w_trace w') =
        Some (Out (check_mark +:+ " Created backup: Backup_Error" +:+ nl))
  | _ => False
  end.
Proof.
  assert (Hs : match perform_backup sample_platform sample_config None
                       (make_world fs_source_root) with
               | Ok true _ => True | _ => False end) by (vm_compute; exact I).
  destruct (perform_backup _ _ _ _) as [[|] w'| | |] eqn:E; try exact Hs.
  destruct (C2_clock_failure_uses_sentinel _ _ _ _ E) as (_ & _ & Hl). exact Hl.
Defined.

(** ** A retention count of zero (C4) *)

(** Whatever the catalog, a retention pass with a limit of zero evicts
    every entry and then reads the front of the empty vector. *)
Lemma cleanup_old_backups_zero root verbose w k :
  resolve (w_cwd w) root = Some k -> node_at (w_fs w) k = Some NDir ->
  cleanup_old_backups root 0%N verbose w = Undefined.
Proof.
  intros Hr Hd. unfold cleanup_old_backups, mbind, M_bind.
  rewrite (directory_iterator_ok root w k Hr Hd). apply evict_loop_zero.
Qed.

(** C4, at the failing input.  [--max 0] passes [parse_arguments] with a
    retention count of zero, and the create operation hands that count to
    [cleanup_old_backups], whose loop then runs into undefined behaviour:
    nothing rejects the value before the retention pass. *)
Theorem C4_zero_retention_not_rejected :
  (exists config,
     parse_arguments ["-p"; "data"; "-m"; "0"; "-n"] = inr config /\
     maxBackups config = 0%N) /\
  cleanup_old_backups "CopiedFiles" 0%N false (make_world fs_three) = Undefined /\
  main sample_platform "FlameUp" ["-p"; "data"; "-m"; "0"; "-n"] sample_envs 0
       (make_world fs_three) = Undefined.
Proof.
  split; [eexists; split; reflexivity|].
  split; vm_compute; reflexivity.
Qed.

(** ** Restore of a snapshot that is not there (C7) *)

Lemma restore_backup_not_found P name root target w :
  lookup_path w (path_join root name) = None ->
  restore_backup P name root target w =
    Ok false (emit w (Err ("Backup not found: " +:+ name +:+ nl))).
Proof.
  intros H. unfold restore_backup, try_catch, mbind, M_bind, fs_exists.
  by rewrite H.
Qed.

(** C7.  When [<root>/<name>] does not exist, [restore_backup] returns
    [false] having written only the message [Backup not found]: the file
    system is the one it started from, so nothing at or above the target
    was made or removed.  [main], started with [--restore <name>] and a
    [--restore-to] target, then exits with code 1 in the state [w] that its
    start-up ([README.txt] and the backup root) had reached. *)
Theorem C7_restore_missing_snapshot P name root target w :
  lookup_path w (path_join root name) = None ->
  restore_backup P name root target w =
    Ok false (emit w (Err ("Backup not found: " +:+ name +:+ nl))) /\
  w_fs (emit w (Err ("Backup not found: " +:+ name +:+ nl))) = w_fs w /\
  forall prog args envs cycles config w0 w1,
    parse_arguments args = inr config ->
    help config = false -> listBackups config = false ->
    restoreBackup config = Some name -> backupRoot config = root ->
    find_restore_to args = target -> target <> EmptyString ->
    create_readme_file w0 = Ok tt w1 ->
    ensure_backup_root config w1 = Ok tt w ->
    main P prog args envs cycles w0 =
      Ok 1 (emit w (Err ("Backup not found: " +:+ name +:+ nl))).
Proof.
  intros H. split; [by apply restore_backup_not_found|]. split; [done|].
  intros prog args envs cycles config w0 w1 Hp Hh Hl Hr Hroot Ht Hne Hreadme Hroot'.
  unfold main, mbind, M_bind. rewrite Hreadme.
  unfold try_catch, main_body, mbind, M_bind, lift.
  rewrite Hp, Hh, Hroot', Hl, Hr, Ht, Hroot.
  destruct (String.eqb_spec target EmptyString) as [|_]; [done|].
  by rewrite restore_backup_not_found.
Qed.

(** [--restore Backup_2023 --restore-to outside] when there is no such
    snapshot: the directory [outside] stays as it is. *)
Lemma C7_restore_missing_snapshot_witness :
  lookup_path (with_readme fs_three) (path_join "CopiedFiles" "Backup_2023") = None /\
  restore_backup sample_platform "Backup_2023" "CopiedFiles" "outside"
    (with_readme fs_three) =
    Ok false (emit (with_readme fs_three)
                (Err ("Backup not found: Backup_2023" +:+ nl))) /\
  main sample_platform "FlameUp" ["-r"; "Backup_2023"; "--restore-to"; "outside"]
    sample_envs 0 (make_world fs_three) =
    Ok 1 (emit (with_readme fs_three) (Err ("Backup not found: Backup_2023" +:+ nl))).
Proof.
  assert (H : lookup_path (with_readme fs_three)
                (path_join "CopiedFiles" "Backup_2023") = None)
    by (vm_compute; reflexivity).
  destruct (C7_restore_missing_snapshot sample_platform "Backup_2023" "CopiedFiles"
              "outside" (with_readme fs_three) H) as (Hr & _ & Hm).
  split; [exact H|]. split; [exact Hr|].
  apply (Hm "FlameUp" ["-r"; "Backup_2023"; "--restore-to"; "outside"] sample_envs O
            (set_restoreBackup default_config "Backup_2023")
            (make_world fs_three) (with_readme fs_three));
    try reflexivity; try discriminate; vm_compute; reflexivity.
Defined.

(** ** Listing without backups (C8) *)

Lemma create_readme_file_Ok w : exists w1, create_readme_file w = Ok tt w1.
Proof.
  unfold create_readme_file, mbind, M_bind, fs_exists.
  destruct (lookup_path w "README.txt"); simpl; [by eexists|].
  unfold write_readme. destruct (node_at _ _) as [[|]|]; by eexists.
Qed.

(** C8.  With [--list], when the backup root does not exist [main] prints
    [No backup directory found at: <root>] and exits with code 0, and when it
    is a directory without snapshots [main] prints
    [No backups found in: <root>] and exits with code 0; neither is an
    error.  [w] is the state after [README.txt] has been seen to. *)
Theorem C8_list_without_backups P prog args envs cycles config w0 w :
  parse_arguments args = inr config ->
  help config = false -> listBackups config = true ->
  create_readme_file w0 = Ok tt w ->
  (lookup_path w (backupRoot config) = None ->
   main P prog args envs cycles w0 =
     Ok 0 (emit w (Out ("No backup directory found at: " +:+
                        quoted (backupRoot config) +:+ nl)))) /\
  (lookup_path w (backupRoot config) = Some NDir ->
   catalog w (backupRoot config) = [] ->
   main P prog args envs cycles w0 =
     Ok 0 (emit w (Out ("No backups found in: " +:+
                        quoted (backupRoot config) +:+ nl)))).
Proof.
  intros Hp Hh Hl Hreadme.
  unfold main, mbind, M_bind. rewrite Hreadme.
  unfold try_catch, main_body, mbind, M_bind, lift. rewrite Hp, Hh.
  unfold ensure_backup_root, mret, M_ret. rewrite Hh, Hl.
  cbn [negb andb]. cbv beta iota.
  unfold list_backups, mbind, M_bind, fs_exists. split.
  - intros Hnone. rewrite Hnone. by cbn [negb].
  - intros Hdir Hcat. rewrite Hdir. cbn [negb]. cbv beta iota.
    unfold lookup_path in Hdir. unfold catalog in Hcat.
    destruct (resolve (w_cwd w) (backupRoot config)) as [k|] eqn:Hr; [|done].
    rewrite (directory_iterator_ok _ _ _ Hr Hdir). by rewrite Hcat.
Qed.

(** [--list] without a backup root, and with an empty one. *)
Lemma C8_list_without_backups_witness :
  main sample_platform "FlameUp" ["--list"] sample_envs 0 (make_world fs_source) =
    Ok 0 (emit (with_readme fs_source)
            (Out ("No backup directory found at: " +:+ quoted "CopiedFiles" +:+ nl))) /\
  main sample_platform "FlameUp" ["--list"] sample_envs 0 (make_world fs_source_root) =
    Ok 0 (emit (with_readme fs_source_root)
            (Out ("No backups found in: " +:+ quoted "CopiedFiles" +:+ nl))).
Proof.
  split.
  - refine (proj1 (C8_list_without_backups sample_platform "FlameUp" ["--list"]
                     sample_envs 0 (set_listBackups default_config)
                     (make_world fs_source) (with_readme fs_source) _ _ _ _) _);
      vm_compute; reflexivity.
  - refine (proj2 (C8_list_without_backups sample_platform "FlameUp" ["--list"]
                     sample_envs 0 (set_listBackups default_config)
                     (make_world fs_source_root) (with_readme fs_source_root) _ _ _ _) _ _);
      vm_compute; reflexivity.
Defined.

(** ** The catalog (C9) *)

Lemma file_size_inv P p w :
  (exists n, file_size P p w = Ok n w) \/ (exists e, file_size P p w = Throw e w).
Proof.
  unfold file_size. destruct (resolve _ _); [|right; by eexists].
  destruct (node_at _ _) as [[|]|]; [left; by eexists| |right; by eexists].
  destruct (dir_file_size _ _ _); [left|right]; by eexists.
Qed.

(** The listing loop writes one line for each name, in order, until
    [fs::file_size] throws, and leaves the file system alone. *)
Lemma print_backups_trace P root names w :
  exists sizes,
    let w' := {| w_fs := w_fs w; w_cwd := w_cwd w;
                 w_trace := w_trace w ++ zip_with listing_line names sizes |} in
    print_backups P root names w = Ok tt w' \/
    exists e, print_backups P root names w = Throw e w'.
Proof.
  revert w. induction names as [|name names IH]; intros w.
  - exists []. left. simpl. rewrite app_nil_r. by destruct w.
  - cbn [print_backups]. unfold mbind, M_bind.
    destruct (file_size_inv P (path_join root name) w) as [[n ->]|[e ->]].
    + unfold cout. destruct (IH (emit w (listing_line name n))) as (sizes & Hs).
      exists (n :: sizes). simpl in *. rewrite <- app_assoc in Hs. exact Hs.
    + exists []. right. exists e. simpl. rewrite app_nil_r. by destruct w.
Qed.

(** C9, as the code has it.  The catalog of a backup root holds exactly the
    entries directly under it that are directories and whose name starts
    with [Backup_].  Everything else is ignored: the retention pass leaves
    every location alone that is not at or below a catalog entry, and
    [list_backups] changes nothing and reports catalog entries only. *)
Theorem C9_catalog_is_prefixed_directories P root maxBackups verbose w k :
  wf_world w ->
  resolve (w_cwd w) root = Some k -> node_at (w_fs w) k = Some NDir ->
  (forall n, n ∈ catalog w root <->
     w_fs w !! (k ++ [n]) = Some NDir /\ starts_with n "Backup_" = true) /\
  (forall w1, cleanup_old_backups root maxBackups verbose w = Ok tt w1 ->
     forall q : list string,
       (forall n, n ∈ catalog w root -> ~ (k ++ [n]) `prefix_of` q) ->
       w_fs w1 !! q = w_fs w !! q) /\
  (exists sizes,
     let w' := {| w_fs := w_fs w; w_cwd := w_cwd w;
                  w_trace := w_trace w ++ list_report root (catalog w root) sizes |} in
     list_backups P root w = Ok tt w' \/
     exists e, list_backups P root w = Throw e w').
Proof.
  intros Hwf Hr Hd. unfold catalog. rewrite Hr.
  split; [intros n; apply elem_of_catalog_entries|]. split.
  - intros w1 Hclean q Hq.
    apply (cleanup_old_backups_state _ _ _ _ _ Hwf) in Hclean
      as (k' & Hr' & _ & _ & _ & _ & Hfs).
    rewrite Hr in Hr'. injection Hr' as <-.
    rewrite Hfs, lookup_evict_fold. case_decide as Hex; [|done].
    exfalso. apply Exists_exists in Hex as (n & Hin & Hpre).
    apply (Hq n); [|done].
    apply elem_of_take in Hin as (i & Hin%list_elem_of_lookup_2 & _).
    by rewrite std_sort_perm in Hin.
  - unfold list_backups, mbind, M_bind, fs_exists, lookup_path.
    rewrite Hr, Hd. cbn [negb]. cbv beta iota.
    rewrite (directory_iterator_ok _ _ _ Hr Hd).
    destruct (backup_names (dir_entries (w_fs w) k)) as [|n names] eqn:E.
    + exists []. left. done.
    + unfold cout.
      destruct (print_backups_trace P root (std_sort string_gtb (n :: names))
                  (emit w (Out ("Available backups in " +:+ quoted root +:+ ":" +:+ nl))))
        as (sizes & Hs).
      exists sizes. simpl in *. rewrite <- app_assoc in Hs. exact Hs.
Qed.

(** A regular file called [Backup_notes.txt] directly under the backup
    root has the prefix and is not in the catalog. *)
Lemma C9_prefixed_file_counterexample :
  lookup_path (make_world fs_three) (path_join "CopiedFiles" "Backup_notes.txt")
    = Some (NFile "not a snapshot") /\
  starts_with "Backup_notes.txt" "Backup_" = true /\
  "Backup_notes.txt" ∉ catalog (make_world fs_three) "CopiedFiles".
Proof.
  split; [vm_compute; reflexivity|]. split; [reflexivity|].
  apply (bool_decide_unpack _). vm_compute. exact I.
Qed.

(** Membership of one of the three snapshots. *)
Lemma C9_catalog_witness :
  "Backup_2024-01-02_00-00-00" ∈ catalog (make_world fs_three) "CopiedFiles" <->
    w_fs (make_world fs_three)
      !! (["work"; "CopiedFiles"] ++ ["Backup_2024-01-02_00-00-00"]) = Some NDir /\
    starts_with "Backup_2024-01-02_00-00-00" "Backup_" = true.
Proof.
  refine (proj1 (C9_catalog_is_prefixed_directories sample_platform "CopiedFiles" 2%N
                   false (make_world fs_three) ["work"; "CopiedFiles"] _ _ _)
            "Backup_2024-01-02_00-00-00").
  - apply (bool_decide_unpack _). vm_compute. exact I.
  - vm_compute. reflexivity.
  - vm_compute. reflexivity.
Defined.

(** ** Delete and restore by path (C10) *)

Lemma prefix_snoc_cases (q k : list string) e :
  q `prefix_of` (k ++ [e]) -> q `prefix_of` k \/ q = k ++ [e].
Proof.
  intros [r Hr]. destruct (decide (r = [])) as [->|Hne].
  - right. by rewrite app_nil_r in Hr.
  - left. destruct (exists_last Hne) as (r' & x & ->).
    rewrite app_assoc in Hr. apply app_inj_tail in Hr as [-> _].
    by apply prefix_app_r.
Qed.

(** [fs::create_directories]: what exists stays, only locations on the way
    are added, and the location asked for is a directory afterwards. *)
Lemma mkdirs_spec (fs fs' : filesystem) (done todo : list string) :
  mkdirs fs done todo = Some fs' ->
  (forall q v, fs !! q = Some v -> fs' !! q = Some v) /\
  (forall q : list string, ~ q `prefix_of` (done ++ todo) -> fs' !! q = fs !! q) /\
  (todo <> [] -> fs' !! (done ++ todo) = Some NDir).
Proof.
  revert fs done. induction todo as [|e rest IH]; intros fs done H.
  - injection H as <-. by repeat split.
  - cbn [mkdirs] in H.
    replace (done ++ e :: rest) with ((done ++ [e]) ++ rest)
      by (by rewrite <- app_assoc).
    assert (Hlast : forall fs0 : filesystem,
              fs0 !! (done ++ [e]) = Some NDir ->
              mkdirs fs0 (done ++ [e]) rest = Some fs' ->
              fs' !! ((done ++ [e]) ++ rest) = Some NDir).
    { intros fs0 Hl Hm. destruct (IH _ _ Hm) as (Hk & _ & Hd).
      destruct rest; [|by apply Hd]. rewrite app_nil_r. by apply Hk. }
    destruct (fs !! (done ++ [e])) as [[c|]|] eqn:E; [done| |].
    + destruct (IH _ _ H) as (Hk & Ho & _). repeat split; try done.
      intros _. by apply (Hlast fs).
    + destruct (IH _ _ H) as (Hk & Ho & _). repeat split.
      * intros q v Hq. apply Hk. rewrite lookup_insert_ne; [done|]. congruence.
      * intros q Hq. rewrite Ho by done. apply lookup_insert_ne.
        intros <-. apply Hq. by apply prefix_app_r.
      * intros _. apply (Hlast (<[done ++ [e] := NDir]> fs)); [|done].
        apply lookup_insert_eq.
Qed.

Lemma mkdirs_Some (fs : filesystem) (done todo : list string) :
  (forall (q : list string) c, q `prefix_of` (done ++ todo) -> fs !! q <> Some (NFile c)) ->
  exists fs', mkdirs fs done todo = Some fs'.
Proof.
  revert fs done. induction todo as [|e rest IH]; intros fs done H; [by eexists|].
  cbn [mkdirs].
  assert (Hpre : (done ++ [e]) `prefix_of` (done ++ e :: rest)).
  { exists rest. by rewrite <- app_assoc. }
  assert (Hnext : forall fs0 : filesystem,
            (forall (q : list string) c, fs0 !! q = Some (NFile c) -> fs !! q = Some (NFile c)) ->
            exists fs', mkdirs fs0 (done ++ [e]) rest = Some fs').
  { intros fs0 Hsub. apply IH. intros q c Hq Hl. apply (H q c); [|by apply Hsub].
    by rewrite <- app_assoc in Hq. }
  destruct (fs !! (done ++ [e])) as [[c|]|] eqn:E.
  - by destruct (H _ c Hpre).
  - by apply Hnext.
  - apply Hnext. intros q c Hl.
    destruct (decide (q = done ++ [e])) as [->|Hne].
    + by rewrite lookup_insert_eq in Hl.
    + by rewrite lookup_insert_ne in Hl.
Qed.

Lemma node_at_nonempty (fs : filesystem) (q : list string) :
  q <> [] -> node_at fs q = fs !! q.
Proof. by destruct q. Qed.

(** In a closed file system whatever lies below an existing location lies
    in a directory, so nothing lies below a location that is not there. *)
Lemma closed_fs_below (fs : filesystem) (k rest : list string) v :
  closed_fs fs -> fs !! (k ++ rest) = Some v -> rest <> [] -> k <> [] ->
  fs !! k = Some NDir.
Proof.
  intros Hc. revert v. induction rest as [|x rest IH] using rev_ind; [done|].
  intros v Hl _ Hk. apply Hc in Hl.
  rewrite app_assoc, removelast_last in Hl.
  rewrite node_at_nonempty in Hl by (by destruct k).
  destruct (decide (rest = [])) as [->|Hne].
  - by rewrite app_nil_r in Hl.
  - by apply (IH NDir).
Qed.

Lemma prefix_comparable (a b q : list string) :
  a `prefix_of` q -> b `prefix_of` q -> a `prefix_of` b \/ b `prefix_of` a.
Proof. intros Ha Hb. apply (prefix_weak_total _ _ _ Ha Hb). Qed.

Lemma prefix_removelast (k : list string) : removelast k `prefix_of` k.
Proof.
  destruct (decide (k = [])) as [->|Hne]; [done|].
  destruct (exists_last Hne) as (k' & x & ->).
  rewrite removelast_last. by apply prefix_app_r.
Qed.

Lemma not_prefix_removelast (k : list string) : k <> [] -> ~ k `prefix_of` removelast k.
Proof.
  intros Hne Hp. destruct (exists_last Hne) as (k' & x & ->).
  rewrite removelast_last in Hp. apply prefix_length in Hp.
  rewrite length_app in Hp. simpl in Hp. lia.
Qed.

Lemma not_prefix_nil (a b : list string) : ~ a `prefix_of` b -> a <> [].
Proof. intros H ->. apply H. apply prefix_nil. Qed.

Lemma delete_backup_existing name root w ks nd :
  resolve (w_cwd w) (path_join root name) = Some ks ->
  node_at (w_fs w) ks = Some nd ->
  delete_backup name root w =
    Ok true (emit (set_fs w (remove_tree ks (w_fs w)))
               (Out (check_mark +:+ " Deleted backup: " +:+ name +:+ nl))).
Proof.
  intros Hr Hn. unfold delete_backup, try_catch, mbind, M_bind, fs_exists, lookup_path.
  rewrite Hr, Hn. cbn [negb]. cbv beta iota. unfold remove_all. by rewrite Hr.
Qed.

(** The copy of a tree to a place where nothing is, below a directory. *)
Lemma copy_tree_fresh (fs : filesystem) (ks kt : list string) nd :
  node_at fs ks = Some nd -> ks <> [] -> kt <> [] -> ~ ks `prefix_of` kt ->
  (forall rest, fs !! (kt ++ rest) = None) ->
  node_at fs (removelast kt) = Some NDir ->
  exists fs', copy_tree fs ks kt = Some fs' /\ fs' !! kt = Some nd /\
    (nd = NDir -> forall rest, fs' !! (kt ++ rest) = fs !! (ks ++ rest)).
Proof.
  intros Hs Hks Hkt Hnp Hfree Habove.
  assert (Hd : node_at fs kt = None).
  { rewrite node_at_nonempty by done. specialize (Hfree []). by rewrite app_nil_r in Hfree. }
  unfold copy_tree. rewrite Hs. destruct nd as [content|].
  - rewrite Hd. rewrite Hd, Habove. eexists. split; [done|].
    split; [apply lookup_insert_eq|done].
  - rewrite decide_False by done. rewrite Hd, Habove.
    destruct (existsb _ _) eqn:Hclash.
    { exfalso. apply existsb_exists in Hclash as ([q v] & Hin & Hc).
      assert (Hq : exists rest, q = kt ++ rest).
      { apply list_elem_of_In, elem_of_cons in Hin as [[= -> ->]|Hin].
        - exists []. by rewrite app_nil_r.
        - apply copy_entries_prefix in Hin as (rest & -> & _). by exists rest. }
      destruct Hq as (rest & ->). unfold copy_clash in Hc. simpl in Hc.
      rewrite node_at_nonempty in Hc by (by destruct kt).
      rewrite Hfree in Hc. by destruct v. }
    eexists. split; [done|].
    assert (Hall : forall rest,
              (list_to_map ((kt, NDir) :: copy_entries fs ks kt) ∪ fs : filesystem)
                !! (kt ++ rest) = fs !! (ks ++ rest)).
    { intros rest. rewrite list_to_map_cons.
      destruct (decide (rest = [])) as [->|Hne].
      - rewrite !app_nil_r. rewrite node_at_nonempty in Hs by done. rewrite Hs.
        apply lookup_union_Some_l, lookup_insert_eq.
      - assert (Hneq : kt <> kt ++ rest).
        { intros Heq. apply Hne. apply (app_inv_head kt). by rewrite app_nil_r. }
        destruct (fs !! (ks ++ rest)) as [v|] eqn:E.
        + apply lookup_union_Some_l. rewrite lookup_insert_ne by done.
          apply elem_of_list_to_map_1'; [|by apply elem_of_copy_entries].
          intros v' Hin. apply copy_entries_prefix in Hin as (rest' & Heq & Hl).
          apply app_inv_head in Heq as <-. congruence.
        + rewrite lookup_union_r; [apply Hfree|].
          rewrite lookup_insert_ne by done.
          apply not_elem_of_list_to_map_1. intros Hin.
          apply list_elem_of_fmap in Hin as ([q v] & Heq & Hin). simpl in Heq. subst q.
          apply copy_entries_prefix in Hin as (rest' & Heq & Hl).
          apply app_inv_head in Heq as <-. congruence. }
    split; [|done]. specialize (Hall []). rewrite !app_nil_r in Hall.
    rewrite Hall. by rewrite node_at_nonempty in Hs.
Qed.

Lemma set_fs_same w : set_fs w (w_fs w) = w.
Proof. by destruct w. Qed.

(** The parent directories of the restore target. *)
Lemma restore_parents (w : world) target (kt : list string) :
  (if has_parent_path target
   then resolve (w_cwd w) (parent_path target) = Some (removelast kt) /\
        forall (q : list string) c,
          q `prefix_of` removelast kt -> w_fs w !! q <> Some (NFile c)
   else node_at (w_fs w) (removelast kt) = Some NDir) ->
  exists fs1 : filesystem,
    when (has_parent_path target) (create_directories (parent_path target)) w
      = Ok tt (set_fs w fs1) /\
    (forall q v, w_fs w !! q = Some v -> fs1 !! q = Some v) /\
    (forall q : list string, ~ q `prefix_of` removelast kt -> fs1 !! q = w_fs w !! q) /\
    node_at fs1 (removelast kt) = Some NDir.
Proof.
  unfold when. destruct (has_parent_path target).
  - intros [Hr Hfile]. unfold create_directories. rewrite Hr.
    destruct (mkdirs_Some (w_fs w) [] (removelast kt) Hfile) as (fs1 & Hm).
    rewrite Hm. exists fs1. split; [done|].
    destruct (mkdirs_spec _ _ _ _ Hm) as (Hk & Ho & Hd).
    repeat split; try done.
    destruct (removelast kt) eqn:E; [done|]. by apply Hd.
  - intros Hd. exists (w_fs w). rewrite set_fs_same. by repeat split.
Qed.

(** Restore of an existing snapshot path to a target that does not
    overlap it. *)
Lemma restore_backup_existing P name root target w (ks kt : list string) nd :
  resolve (w_cwd w) (path_join root name) = Some ks ->
  node_at (w_fs w) ks = Some nd ->
  closed_fs (w_fs w) ->
  resolve (w_cwd w) target = Some kt ->
  ~ ks `prefix_of` kt -> ~ kt `prefix_of` ks ->
  (if has_parent_path target
   then resolve (w_cwd w) (parent_path target) = Some (removelast kt) /\
        forall (q : list string) c,
          q `prefix_of` removelast kt -> w_fs w !! q <> Some (NFile c)
   else node_at (w_fs w) (removelast kt) = Some NDir) ->
  exists w', restore_backup P name root target w = Ok true w' /\
    w_fs w' !! kt = Some nd /\
    (nd = NDir -> forall rest, w_fs w' !! (kt ++ rest) = w_fs w !! (ks ++ rest)).
Proof.
  intros Hrs Hns Hclosed Hrt Hst Hts Habove.
  pose proof (not_prefix_nil _ _ Hst) as Hks.
  pose proof (not_prefix_nil _ _ Hts) as Hkt.
  destruct (restore_parents w target kt Habove) as (fs1 & Hpar & Hkeep & Hout & Hdir).
  set (fs2 := match node_at fs1 kt with
              | Some _ => remove_tree kt fs1
              | None => fs1
              end).
  assert (Hfree : forall rest, fs2 !! (kt ++ rest) = None).
  { intros rest. subst fs2. destruct (node_at fs1 kt) as [v|] eqn:E.
    - rewrite lookup_remove_tree. rewrite decide_True; [done|]. by apply prefix_app_r.
    - rewrite node_at_nonempty in E by done.
      destruct (decide (rest = [])) as [->|Hne]; [by rewrite app_nil_r|].
      rewrite Hout.
      + destruct (w_fs w !! (kt ++ rest)) as [v|] eqn:El; [|done].
        apply (closed_fs_below _ _ _ _ Hclosed) in El; [|done..].
        apply Hkeep in El. congruence.
      + intros Hp. apply (not_prefix_removelast kt Hkt).
        etrans; [|exact Hp]. by apply prefix_app_r. }
  assert (Hsame : forall rest, fs2 !! (ks ++ rest) = w_fs w !! (ks ++ rest)).
  { intros rest.
    assert (H1 : fs1 !! (ks ++ rest) = w_fs w !! (ks ++ rest)).
    { apply Hout. intros Hp. apply Hst.
      etrans; [by apply prefix_app_r|]. etrans; [exact Hp|]. apply prefix_removelast. }
    subst fs2. destruct (node_at fs1 kt); [|done].
    rewrite lookup_remove_tree. rewrite decide_False; [done|].
    intros Hp.
    destruct (prefix_comparable kt ks (ks ++ rest) Hp (prefix_app_r _ _ _ (reflexivity _)));
      done. }
  assert (Hsrc : node_at fs2 ks = Some nd).
  { rewrite node_at_nonempty in * by done.
    specialize (Hsame []). rewrite !app_nil_r in Hsame. by rewrite Hsame. }
  assert (Hab2 : node_at fs2 (removelast kt) = Some NDir).
  { subst fs2. destruct (node_at fs1 kt); [|done].
    destruct (removelast kt) eqn:E; [done|]. rewrite <- E in *.
    rewrite node_at_nonempty in * by (rewrite E; done).
    rewrite lookup_remove_tree. rewrite decide_False; [done|].
    by apply not_prefix_removelast. }
  destruct (copy_tree_fresh fs2 ks kt nd Hsrc Hks Hkt Hst Hfree Hab2)
    as (fs3 & Hcopy & Hat & Hbelow).
  eexists. split.
  - unfold restore_backup, try_catch.
    unfold mbind at 1, M_bind at 1, fs_exists at 1, lookup_path. rewrite Hrs, Hns.
    cbn [negb]. cbv beta iota.
    unfold mbind at 1, M_bind at 1. rewrite Hpar.
    unfold mbind at 1, M_bind at 1, fs_exists, lookup_path. simpl w_cwd. simpl w_fs.
    rewrite Hrt.
    assert (Hrm : (when match node_at fs1 kt with Some _ => true | None => false end
                     (remove_all target)) (set_fs w fs1) = Ok tt (set_fs w fs2)).
    { subst fs2. unfold when. destruct (node_at fs1 kt); [|done].
      unfold remove_all. simpl. by rewrite Hrt. }
    unfold mbind at 1, M_bind at 1. rewrite Hrm.
    unfold mbind at 1, M_bind at 1, copy_recursive. simpl w_cwd. simpl w_fs.
    rewrite Hrs, Hrt, Hcopy.
    unfold mbind, M_bind, cout, mret, M_ret. reflexivity.
  - simpl. split; [done|]. intros Hnd rest. rewrite Hbelow by done. apply Hsame.
Qed.

(** C10.  Delete and restore look at the snapshot name only through the
    path [<root>/<name>]: for every name, plain or not, whose path exists,
    [delete_backup] removes everything at and below the location that the
    path names, changes nothing else and returns [true]; and
    [restore_backup] returns [true] with a copy of what is there at the
    target, for every target that does not overlap that location and
    whose parent directories can be made.  No prefix is asked for, and a
    path that leaves the backup root through [..] is taken as it is. *)
Theorem C10_no_name_validation P name root w (ks : list string) nd :
  resolve (w_cwd w) (path_join root name) = Some ks ->
  node_at (w_fs w) ks = Some nd ->
  delete_backup name root w =
    Ok true (emit (set_fs w (remove_tree ks (w_fs w)))
               (Out (check_mark +:+ " Deleted backup: " +:+ name +:+ nl))) /\
  (forall q : list string,
     remove_tree ks (w_fs w) !! q =
       if decide (ks `prefix_of` q) then None else w_fs w !! q) /\
  forall target (kt : list string),
    closed_fs (w_fs w) ->
    resolve (w_cwd w) target = Some kt ->
    ~ ks `prefix_of` kt -> ~ kt `prefix_of` ks ->
    (if has_parent_path target
     then resolve (w_cwd w) (parent_path target) = Some (removelast kt) /\
          forall (q : list string) c,
            q `prefix_of` removelast kt -> w_fs w !! q <> Some (NFile c)
     else node_at (w_fs w) (removelast kt) = Some NDir) ->
    exists w', restore_backup P name root target w = Ok true w' /\
      w_fs w' !! kt = Some nd /\
      (nd = NDir -> forall rest, w_fs w' !! (kt ++ rest) = w_fs w !! (ks ++ rest)).
Proof.
  intros Hr Hn. split; [by apply (delete_backup_existing _ _ _ _ nd)|].
  split; [intros q; apply lookup_remove_tree|].
  intros target kt Hc Hrt Hst Hts Hab.
  by apply (restore_backup_existing P name root target w ks kt nd).
Qed.

(** The name [../outside] has no prefix and leaves the backup root: delete
    removes the directory next to the root, and restore copies it. *)
Lemma C10_no_name_validation_witness :
  delete_backup "../outside" "CopiedFiles" (make_world fs_three) =
    Ok true (emit (set_fs (make_world fs_three)
                     (remove_tree ["work"; "outside"] fs_three))
               (Out (check_mark +:+ " Deleted backup: ../outside" +:+ nl))) /\
  exists w',
    restore_backup sample_platform "../outside" "CopiedFiles" "restored/copy"
      (make_world fs_three) = Ok true w' /\
    w_fs w' !! ["work"; "restored"; "copy"; "precious.txt"] = Some (NFile "keep me").
Proof.
  assert (Hr : resolve (w_cwd (make_world fs_three))
                 (path_join "CopiedFiles" "../outside") = Some ["work"; "outside"])
    by (vm_compute; reflexivity).
  assert (Hn : node_at (w_fs (make_world fs_three)) ["work"; "outside"] = Some NDir)
    by (vm_compute; reflexivity).
  destruct (C10_no_name_validation sample_platform "../outside" "CopiedFiles"
              (make_world fs_three) ["work"; "outside"] NDir Hr Hn)
    as (Hdel & _ & Hres).
  split; [exact Hdel|].
  destruct (Hres "restored/copy" ["work"; "restored"; "copy"])
    as (w' & Hok & _ & Hbelow).
  - apply (bool_decide_unpack _). vm_compute. exact I.
  - vm_compute. reflexivity.
  - apply (bool_decide_unpack _). vm_compute. exact I.
  - apply (bool_decide_unpack _). vm_compute. exact I.
  - change (has_parent_path "restored/copy") with true. cbv iota.
    split; [vm_compute; reflexivity|].
    intros q c Hq.
    change (removelast ["work"; "restored"; "copy"])
      with ((([] ++ ["work"]) ++ ["restored"]) : list string) in Hq.
    apply prefix_snoc_cases in Hq as [Hq| ->].
    + apply prefix_snoc_cases in Hq as [Hq| ->].
      * apply prefix_nil_inv in Hq as ->. vm_compute. congruence.
      * vm_compute. congruence.
    + vm_compute. congruence.
  - exists w'. split; [exact Hok|].
    change (w_fs w' !! (["work"; "restored"; "copy"] ++ ["precious.txt"])
            = Some (NFile "keep me")).
    rewrite (Hbelow eq_refl ["precious.txt"]). vm_compute. reflexivity.
Defined.

(** ** The daemon loop (C6) *)

Lemma safe_ret {A} (a : A) : safe (mret a).
Proof. intros w. left. by eexists _, _. Qed.

Lemma safe_bind {A B} (m : M A) (f : A -> M B) :
  safe m -> (forall a, safe (f a)) -> safe (m ≫= f).
Proof.
  intros Hm Hf w. unfold mbind, M_bind.
  destruct (Hm w) as [(a & w' & ->)|(e & w' & ->)]; [apply Hf|].
  right. by eexists _, _.
Qed.

Lemma safe_cout text : safe (cout text).
Proof. intros w. left. by eexists _, _. Qed.

Lemma safe_cerr text : safe (cerr text).
Proof. intros w. left. by eexists _, _. Qed.

Lemma safe_when b m : safe m -> safe (when b m).
Proof. intros Hm. destruct b; [done|apply safe_ret]. Qed.

Lemma safe_fs_exists p : safe (fs_exists p).
Proof. intros w. left. by eexists _, _. Qed.

Lemma safe_fs_is_directory p : safe (fs_is_directory p).
Proof. intros w. left. by eexists _, _. Qed.

Lemma safe_read_path_from_file p : safe (read_path_from_file p).
Proof.
  intros w. unfold read_path_from_file.
  destruct (lookup_path w p) as [[c|]|]; try (right; by eexists _, _).
  destruct (first_path_line _); [left|right]; by eexists _, _.
Qed.

Lemma safe_copy_recursive P from to : safe (copy_recursive P from to).
Proof.
  intros w. unfold copy_recursive.
  destruct (resolve (w_cwd w) from), (resolve (w_cwd w) to);
    try (right; by eexists _, _).
  destruct (copy_tree _ _ _); [left|right]; by eexists _, _.
Qed.

Lemma safe_cleanup_old_backups root maxBackups verbose :
  (1 <= maxBackups)%N -> safe (cleanup_old_backups root maxBackups verbose).
Proof.
  intros Hmax w. unfold cleanup_old_backups, mbind, M_bind, directory_iterator.
  destruct (resolve _ _); [|right; by eexists _, _].
  destruct (node_at _ _) as [[|]|]; try (right; by eexists _, _).
  rewrite evict_loop_spec by done. left. by eexists _, _.
Qed.

Create HintDb safe.

#[local] Hint Resolve safe_ret safe_cout safe_cerr safe_when safe_fs_exists
  safe_fs_is_directory safe_read_path_from_file safe_copy_recursive
  safe_cleanup_old_backups : safe.

(** With a retention count of at least one a create operation always
    comes back with its verdict. *)
Lemma perform_backup_total P config lt w :
  (1 <= maxBackups config)%N ->
  exists ok w', perform_backup P config lt w = Ok ok w'.
Proof.
  intros Hmax. unfold perform_backup, try_catch.
  match goal with |- context [match ?body w with _ => _ end] =>
    assert (Hsafe : safe body) end.
  { apply safe_bind; [destruct (negb _); auto with safe|]. intros src.
    apply safe_bind; [auto with safe|]. intros found.
    apply safe_bind; [auto with safe|]. intros isdir.
    destruct (negb found || negb isdir).
    - apply safe_bind; auto with safe.
    - repeat (apply safe_bind; [auto with safe|intros ?]). auto with safe. }
  destruct (Hsafe w) as [(a & w' & ->)|(e & w' & ->)]; [by eexists _, _|].
  unfold mbind, M_bind, cerr, mret, M_ret. by eexists _, _.
Qed.

Lemma i64_in_range z w : - 2 ^ 63 <= z < 2 ^ 63 -> i64 z w = Ok z w.
Proof.
  intros Hz. unfold i64.
  destruct (Z.leb_spec (- 2 ^ 63) z), (Z.ltb_spec z (2 ^ 63)); simpl; try done; lia.
Qed.

Lemma report_world config ok w :
  match ok with
  | true => when (verbose config) (cout ("Backup completed successfully." +:+ nl))
  | false => cout ("Backup failed, will retry in " +:+ dec_Z (interval config) +:+
                   " minutes." +:+ nl)
  end w = Ok tt (extend w (cycle_report config ok)).
Proof.
  unfold cycle_report, when, cout, extend, emit. destruct ok; [|done].
  destruct (verbose config); [done|]. unfold mret, M_ret. rewrite app_nil_r. by destruct w.
Qed.

(** One cycle of the daemon. *)
Lemma daemon_cycle_spec P config env w :
  (1 <= maxBackups config)%N -> clock_in_range config env ->
  exists ok w1,
    perform_backup P config (ce_localtime env) (cycle_begin config w) = Ok ok w1 /\
    daemon_cycle P config env w =
      Ok tt (extend w1 (cycle_report config ok ++
                        cycle_wait config env
                          (ce_start env + interval config * ns_per_minute))).
Proof.
  intros Hmax (Hs & Hn & Hi). unfold far_from_overflow in *.
  destruct (perform_backup_total P config (ce_localtime env) (cycle_begin config w) Hmax)
    as (ok & w1 & Hpb).
  exists ok, w1. split; [done|].
  unfold daemon_cycle.
  unfold mbind at 1, M_bind at 1.
  replace (when (verbose config) (cout (nl +:+ "--- Starting backup cycle ---" +:+ nl)) w)
    with (Ok tt (cycle_begin config w) : res unit)
    by (unfold cycle_begin, when; by destruct (verbose config)).
  unfold mbind at 1, M_bind at 1. rewrite Hpb.
  unfold mbind at 1, M_bind at 1. rewrite report_world.
  unfold mbind at 1, M_bind at 1. rewrite i64_in_range by lia.
  unfold mbind at 1, M_bind at 1. rewrite i64_in_range by lia.
  unfold cycle_wait.
  destruct (Z.ltb_spec (ce_now env) (ce_start env + interval config * ns_per_minute)).
  - unfold mbind at 1, M_bind at 1. rewrite i64_in_range by lia.
    unfold mbind, M_bind, when, cout, sleep_until, extend, emit. simpl.
    destruct (verbose config); simpl; by rewrite <- !app_assoc.
  - unfold mret, M_ret, extend. simpl. by rewrite app_nil_r.
Qed.

Lemma i64_overflow z w : 2 ^ 63 <= z -> i64 z w = Undefined.
Proof.
  intros Hz. unfold i64.
  destruct (Z.leb_spec (- 2 ^ 63) z), (Z.ltb_spec z (2 ^ 63)); simpl; try done; lia.
Qed.

(** C6.  The daemon loop does compute the next instant as the start of the
    cycle plus the interval, but nothing keeps the interval and the
    retention count within what the loop can take.  [-p data -i 200000000 -d]
    is accepted as it stands, and in every cycle, whatever the clock reads
    and whatever the backup has done, the conversion of 200000000 minutes
    to the nanoseconds of the steady clock overflows [long long]: the
    cycle is undefined, and so is the loop and [main]; nothing is slept
    until and no next cycle is scheduled.  [-p data -m 0 -d] is accepted as
    well and runs into the undefined behaviour of the retention pass in
    its first cycle. *)
Theorem C6_daemon_cycle_undefined P env w :
  let config := set_daemon (set_interval (set_sourcePath default_config "data") 200000000) in
  parse_arguments ["-p"; "data"; "-i"; "200000000"; "-d"] = inr config /\
  daemon_cycle P config env w = Undefined /\
  (forall envs cycles, daemon_loop P config envs 0 (S cycles) w = Undefined) /\
  main sample_platform "FlameUp" ["-p"; "data"; "-i"; "200000000"; "-d"]
    sample_envs 1 (make_world fs_source_root) = Undefined /\
  parse_arguments ["-p"; "data"; "-m"; "0"; "-d"] =
    inr (set_daemon (set_maxBackups (set_sourcePath default_config "data") 0)) /\
  main sample_platform "FlameUp" ["-p"; "data"; "-m"; "0"; "-d"]
    sample_envs 1 (make_world fs_source_root) = Undefined.
Proof.
  intros config.
  assert (Hcycle : forall env0 w0, daemon_cycle P config env0 w0 = Undefined).
  { intros env0 w0.
    assert (Hmax : (1 <= maxBackups config)%N) by (simpl; lia).
    destruct (perform_backup_total P config (ce_localtime env0) (cycle_begin config w0) Hmax)
      as (ok & w1 & Hpb).
    unfold daemon_cycle.
    unfold mbind at 1, M_bind at 1.
    replace (when (verbose config) (cout (nl +:+ "--- Starting backup cycle ---" +:+ nl)) w0)
      with (Ok tt (cycle_begin config w0) : res unit) by done.
    unfold mbind at 1, M_bind at 1. rewrite Hpb.
    unfold mbind at 1, M_bind at 1. rewrite report_world.
    unfold mbind at 1, M_bind at 1. rewrite i64_overflow; [done|].
    unfold ns_per_minute. simpl. lia. }
  split; [vm_compute; reflexivity|]. split; [apply Hcycle|]. split.
  { intros envs cycles. cbn [daemon_loop]. unfold mbind, M_bind. by rewrite Hcycle. }
  split; [vm_compute; reflexivity|]. split; vm_compute; reflexivity.
Qed.

(* ===================================================================== *)
(** * Further properties of the program *)
(* ===================================================================== *)

(** ** The source path in the configuration file *)

Lemma drop_while_split {A} (f : A -> bool) (l : list A) :
  exists pre, l = pre ++ drop_while f l /\ Forall (fun x => f x = true) pre.
Proof.
  induction l as [|x l (pre & Hl & Hpre)]; [by exists []|].
  simpl. destruct (f x) eqn:E.
  - exists (x :: pre). split; [by rewrite <- app_comm_cons, <- Hl|by constructor].
  - by exists [].
Qed.

Lemma drop_while_head {A} (f : A -> bool) (l : list A) x :
  head (drop_while f l) = Some x -> f x = false.
Proof.
  induction l as [|y l IH]; [done|]. simpl. destruct (f y) eqn:E; [done|].
  by intros [= <-].
Qed.

Lemma string_of_list_ascii_inv l : list_ascii_of_string (string_of_list_ascii l) = l.
Proof. apply list_ascii_of_string_of_list_ascii. Qed.

Lemma last_rev {A} (l : list A) : last (rev l) = head l.
Proof. rewrite rev_alt. apply last_reverse. Qed.

(** What [trim] leaves has no white space at either end. *)
Lemma trim_clean_ends line : clean_ends (trim line).
Proof.
  unfold clean_ends, trim. rewrite string_of_list_ascii_inv.
  set (m := drop_while is_blank (list_ascii_of_string line)).
  destruct (drop_while_split is_blank (rev m)) as (pre & Hm & Hpre).
  set (t := drop_while is_blank (rev m)) in *.
  assert (Hm' : m = rev t ++ rev pre).
  { rewrite <- (rev_involutive m), Hm. by rewrite rev_app_distr. }
  split; intros c Hc.
  - destruct (rev t) as [|x r] eqn:E; [done|]. simpl in Hc. injection Hc as ->.
    apply (drop_while_head is_blank (list_ascii_of_string line)).
    fold m. by rewrite Hm'.
  - apply (drop_while_head is_blank (rev m)). fold t.
    by rewrite <- last_rev.
Qed.

Lemma first_path_line_Some lines line :
  first_path_line lines = Some line ->
  exists pre raw post,
    lines = pre ++ raw :: post /\ Forall (fun l => skipped_line l = true) pre /\
    skipped_line raw = false /\ line = trim raw.
Proof.
  induction lines as [|l rest IH]; [done|]. cbn [first_path_line]. cbv zeta.
  destruct (String.eqb (trim l) EmptyString) eqn:E1.
  - intros (pre & raw & post & -> & Hpre & Hraw & ->)%IH.
    exists (l :: pre), raw, post. split; [done|]. split; [|done].
    constructor; [|done]. unfold skipped_line. cbv zeta. by rewrite E1.
  - destruct (starts_with (trim l) "#" || starts_with (trim l) "//" ||
              starts_with (trim l) "--") eqn:E2.
    + intros (pre & raw & post & -> & Hpre & Hraw & ->)%IH.
      exists (l :: pre), raw, post. split; [done|]. split; [|done].
      constructor; [|done]. unfold skipped_line. cbv zeta. by rewrite E1, E2.
    + intros [= <-]. exists [], l, rest. split; [done|]. split; [constructor|].
      split; [|done]. unfold skipped_line. cbv zeta. by rewrite E1, E2.
Qed.

Lemma first_path_line_None lines :
  Forall (fun l => skipped_line l = true) lines -> first_path_line lines = None.
Proof.
  induction 1 as [|l rest Hl Hrest IH]; [done|]. cbn [first_path_line]. cbv zeta.
  unfold skipped_line in Hl. cbv zeta in Hl.
  destruct (String.eqb (trim l) EmptyString); [done|].
  rewrite orb_false_l in Hl. by rewrite Hl.
Qed.

(** X1.  When [read_path_from_file] returns a path, it has not touched the
    state, the file is a regular file, and the path is the first line of it
    that is neither empty once trimmed nor a comment, with the white space
    at both ends taken off: it is not empty, does not start with [#], [//]
    or [--], and has no white space at either end. *)
Theorem X1_read_path_first_valid_line txtFilePath w line w' :
  read_path_from_file txtFilePath w = Ok line w' ->
  w' = w /\
  (exists content pre raw post,
     lookup_path w txtFilePath = Some (NFile content) /\
     getlines content = pre ++ raw :: post /\
     Forall (fun l => skipped_line l = true) pre /\
     skipped_line raw = false /\ line = trim raw) /\
  line <> EmptyString /\
  starts_with line "#" = false /\ starts_with line "//" = false /\
  starts_with line "--" = false /\
  clean_ends line.
Proof.
  unfold read_path_from_file. intros H.
  destruct (lookup_path w txtFilePath) as [[content|]|] eqn:El; try done.
  destruct (first_path_line (getlines content)) as [l|] eqn:Ef; [|done].
  injection H as -> ->. split; [done|].
  apply first_path_line_Some in Ef as (pre & raw & post & Hl & Hpre & Hraw & ->).
  split; [by exists content, pre, raw, post|].
  unfold skipped_line in Hraw. cbv zeta in Hraw.
  apply orb_false_elim in Hraw as [H1 H2].
  apply orb_false_elim in H2 as [H2 H4]. apply orb_false_elim in H2 as [H2 H3].
  repeat split; try done; try apply trim_clean_ends.
  intros Heq. rewrite Heq in H1. done.
Qed.

(** X2.  [read_path_from_file] throws [Cannot open config file] when the
    path does not name a regular file, and [No valid path found in file] when
    every line of the file is empty once trimmed or a comment (an empty file
    among them); the state is as it was.  [perform_backup] without a source
    path then returns [false] with that message, before any snapshot is
    evicted. *)
Theorem X2_read_path_failures txtFilePath w :
  ((forall content, lookup_path w txtFilePath <> Some (NFile content)) ->
   read_path_from_file txtFilePath w =
     Throw (RuntimeError ("Cannot open config file: " +:+ txtFilePath)) w) /\
  (forall content,
     lookup_path w txtFilePath = Some (NFile content) ->
     Forall (fun l => skipped_line l = true) (getlines content) ->
     read_path_from_file txtFilePath w =
       Throw (RuntimeError ("No valid path found in file: " +:+ txtFilePath)) w) /\
  (forall P config lt e,
     sourcePath config = EmptyString -> configFile config = txtFilePath ->
     read_path_from_file txtFilePath w = Throw e w ->
     perform_backup P config lt w =
       Ok false (emit w (Err ("Error during backup: " +:+ what e +:+ nl)))).
Proof.
  split; [|split].
  - intros H. unfold read_path_from_file.
    destruct (lookup_path w txtFilePath) as [[content|]|]; try done.
    by destruct (H content).
  - intros content Hl Hall. unfold read_path_from_file. rewrite Hl.
    by rewrite first_path_line_None.
  - intros P config lt e Hs Hc Hr. unfold perform_backup, try_catch.
    unfold mbind at 1, M_bind at 1. rewrite Hs, Hc. simpl. by rewrite Hr.
Qed.

(** The file of the sample: a comment, an empty line, a line of blanks, and
    then the path with blanks and a carriage return around it. *)
Lemma X1_read_path_witness :
  read_path_from_file "paths.txt" (make_world fs_with_paths) =
    Ok "data" (make_world fs_with_paths) /\
  clean_ends "data".
Proof.
  assert (H : read_path_from_file "paths.txt" (make_world fs_with_paths) =
              Ok "data" (make_world fs_with_paths)) by (vm_compute; reflexivity).
  split; [exact H|].
  destruct (X1_read_path_first_valid_line _ _ _ _ H) as (_ & _ & _ & _ & _ & _ & Hc).
  exact Hc.
Defined.

(** A file of comments only, and no file at all. *)
Lemma X2_read_path_failures_witness :
  read_path_from_file "paths.txt" (make_world fs_with_comments) =
    Throw (RuntimeError "No valid path found in file: paths.txt")
      (make_world fs_with_comments) /\
  read_path_from_file "paths.txt" (make_world fs_source_root) =
    Throw (RuntimeError "Cannot open config file: paths.txt")
      (make_world fs_source_root).
Proof.
  split.
  - refine (proj1 (proj2 (X2_read_path_failures "paths.txt"
                            (make_world fs_with_comments))) _ _ _).
    + vm_compute. reflexivity.
    + apply (bool_decide_unpack _). vm_compute. exact I.
  - refine (proj1 (X2_read_path_failures "paths.txt" (make_world fs_source_root)) _).
    intros content. vm_compute. discriminate.
Defined.

(** ** Numbers on the command line *)

Lemma digit_char_code d : (d < 10)%N -> N_of_ascii (digit_char d) = (48 + d)%N.
Proof. intros H. unfold digit_char. apply N_ascii_embedding. lia. Qed.

Lemma digit_char_is_digit d : (d < 10)%N -> is_digit (digit_char d) = true.
Proof.
  intros H. unfold is_digit. rewrite digit_char_code by done. cbv zeta.
  apply andb_true_intro. split; apply N.leb_le; lia.
Qed.

Lemma digit_char_not_space d : (d < 10)%N -> is_space (digit_char d) = false.
Proof.
  intros H. unfold is_space. rewrite digit_char_code by done. cbv zeta.
  apply orb_false_intro; [apply N.eqb_neq; lia|].
  apply andb_false_intro2, N.leb_gt. lia.
Qed.

Lemma digit_char_not_sign d n :
  (d < 10)%N -> (n < 48)%nat -> Ascii.eqb (digit_char d) (ascii_of_nat n) = false.
Proof.
  intros Hd Hn. apply Ascii.eqb_neq. intros Heq.
  apply (f_equal N_of_ascii) in Heq. rewrite digit_char_code in Heq by done.
  unfold ascii_of_nat in Heq. rewrite N_ascii_embedding in Heq by lia. lia.
Qed.

(** Reading the digits that [dec_digits] wrote gives the number back. *)
Lemma read_dec_digits fuel n acc a seen :
  (n < 2 ^ N.of_nat fuel)%N -> (0 < fuel)%nat ->
  exists v, read_digits (dec_digits fuel n acc) a seen = read_digits acc v true /\
            (a = 0%N -> v = n).
Proof.
  revert n acc a seen. induction fuel as [|fuel IH]; intros n acc a seen Hn Hf; [lia|].
  cbn [dec_digits]. cbv zeta.
  assert (Hd : (n mod 10 < 10)%N) by (apply N.mod_lt; lia).
  destruct (N.ltb_spec n 10) as [Hlt|Hge].
  - cbn [read_digits]. rewrite digit_char_is_digit, digit_char_code by done.
    eexists. split; [reflexivity|]. intros ->.
    rewrite N.mod_small by done. lia.
  - rewrite Nat2N.inj_succ, N.pow_succ_r' in Hn.
    assert (Hq : (n / 10 < 2 ^ N.of_nat fuel)%N).
    { apply N.Div0.div_lt_upper_bound. lia. }
    assert (Hf' : (0 < fuel)%nat).
    { destruct fuel; [|lia]. simpl in Hq.
      assert (1 <= n / 10)%N by (apply N.div_le_lower_bound; lia). lia. }
    destruct (IH (n / 10)%N (String (digit_char (n mod 10)) acc) a seen Hq Hf')
      as (v & Hv & Hv0).
    rewrite Hv. cbn [read_digits].
    rewrite digit_char_is_digit, digit_char_code by done.
    eexists. split; [reflexivity|]. intros Ha. rewrite (Hv0 Ha).
    pose proof (N.div_mod n 10 ltac:(lia)) as Hdm.
    revert Hdm Hd. generalize (n / 10)%N (n mod 10)%N. intros q r Hdm Hd. lia.
Qed.

Lemma dec_digits_head fuel n acc :
  (n < 2 ^ N.of_nat fuel)%N -> (0 < fuel)%nat ->
  exists d r, dec_digits fuel n acc = String (digit_char d) r /\ (d < 10)%N.
Proof.
  revert n acc. induction fuel as [|fuel IH]; intros n acc Hn Hf; [lia|].
  cbn [dec_digits]. cbv zeta.
  assert (Hd : (n mod 10 < 10)%N) by (apply N.mod_lt; lia).
  destruct (N.ltb_spec n 10) as [Hlt|Hge]; [by eexists _, _|].
  rewrite Nat2N.inj_succ, N.pow_succ_r' in Hn.
  assert (Hq : (n / 10 < 2 ^ N.of_nat fuel)%N).
  { apply N.Div0.div_lt_upper_bound. lia. }
  apply IH; [done|]. destruct fuel; [|lia]. simpl in Hq.
  assert (1 <= n / 10)%N by (apply N.div_le_lower_bound; lia). lia.
Qed.

Lemma dec_N_fuel n : (n < 2 ^ N.of_nat (S (N.to_nat (N.log2 n))))%N.
Proof.
  rewrite Nat2N.inj_succ, N2Nat.id.
  destruct (N.eq_dec n 0%N) as [->|Hn]; [done|].
  apply N.log2_spec. lia.
Qed.

Lemma read_dec_N n : read_digits (dec_N n) 0%N false = (n, true).
Proof.
  unfold dec_N.
  destruct (read_dec_digits _ n EmptyString 0%N false (dec_N_fuel n) ltac:(lia))
    as (v & -> & Hv).
  by rewrite (Hv eq_refl).
Qed.

Lemma dec_N_head n : exists d r, dec_N n = String (digit_char d) r /\ (d < 10)%N.
Proof. apply dec_digits_head; [apply dec_N_fuel|lia]. Qed.

(** X3.  [std::stoul] reads back what the program prints: for every number
    up to [ULONG_MAX], parsing its decimal output gives the number, so that
    [--max <n>] with the count as the daemon prints it sets that count. *)
Theorem X3_stoul_reads_decimal_output n :
  (n <= ULONG_MAX)%N ->
  stoul (dec_N n) = inr n /\
  forall config,
    parse_loop ["--max"; dec_N n] config = inr (set_maxBackups config n).
Proof.
  intros Hn.
  assert (Hs : stoul (dec_N n) = inr n).
  { unfold stoul. destruct (dec_N_head n) as (d & r & Hd & Hlt).
    assert (Hskip : skip_spaces (dec_N n) = dec_N n).
    { rewrite Hd. simpl. by rewrite digit_char_not_space. }
    rewrite Hskip. rewrite Hd.
    rewrite !digit_char_not_sign by (done || lia). rewrite <- Hd.
    rewrite read_dec_N. simpl negb. cbv iota.
    destruct (N.ltb_spec ULONG_MAX n); [lia|done]. }
  split; [done|]. intros config. cbn [parse_loop].
  change (is_arg "--max" "-h" "--help") with false.
  change (is_arg "--max" "-p" "--path") with false.
  change (is_arg "--max" "-c" "--config") with false.
  change (is_arg "--max" "-o" "--output") with false.
  change (is_arg "--max" "-m" "--max") with true. cbv iota.
  by rewrite Hs.
Qed.

Lemma read_digits_seen s acc : (read_digits s acc true).2 = true.
Proof.
  revert acc. induction s as [|c s IH]; intros acc; [done|].
  simpl. by destruct (is_digit c).
Qed.

Lemma stoul_bound s n : stoul s = inr n -> (n <= ULONG_MAX)%N.
Proof.
  unfold stoul.
  destruct (match skip_spaces s with
            | String c r =>
                if Ascii.eqb c (ascii_of_nat 45) then (true, r)
                else if Ascii.eqb c (ascii_of_nat 43) then (false, r)
                else (false, skip_spaces s)
            | EmptyString => (false, skip_spaces s)
            end) as [negative s2].
  destruct (read_digits s2 0%N false) as [v seen].
  destruct (negb seen); [done|].
  destruct (N.ltb_spec ULONG_MAX v); [done|].
  intros [= <-]. destruct negative; [|done].
  assert ((ULONG_MAX + 1 - v) mod (ULONG_MAX + 1) < ULONG_MAX + 1)%N
    by (apply N.mod_lt; unfold ULONG_MAX; lia).
  lia.
Qed.

Lemma to_int_range n : - 2 ^ 31 <= to_int n < 2 ^ 31.
Proof.
  unfold to_int. cbv zeta.
  pose proof (Z.mod_pos_bound (Z.of_N n) (2 ^ 32) ltac:(lia)).
  destruct (Z.ltb_spec (Z.of_N n mod 2 ^ 32) (2 ^ 31)); lia.
Qed.

Lemma parse_loop_range n :
  forall args c c',
    (length args <= n)%nat -> numbers_in_range c ->
    parse_loop args c = inr c' -> numbers_in_range c'.
Proof.
  induction n as [|n IH]; intros l c c' Hlen Hc H.
  - destruct l; [|simpl in Hlen; lia]. by injection H as <-.
  - destruct l as [|arg rest]; [by injection H as <-|].
    simpl in Hlen. cbn [parse_loop] in H.
    repeat match type of H with
           | (if ?b then _ else _) = _ => destruct b
           | match ?r with [] => _ | _ :: _ => _ end = _ =>
               destruct r as [|v rest']; [done|]; simpl in Hlen
           | match stoul ?v with inr _ => _ | inl _ => _ end = _ =>
               let Es := fresh "Es" in
               destruct (stoul v) as [?|m] eqn:Es; [done|];
               apply stoul_bound in Es
           end;
      try done;
      (eapply IH; [| |exact H]; [lia|]);
      try exact Hc;
      (split; [first [exact Es | apply Hc] | first [apply to_int_range | apply Hc]]).
Qed.

(** X4.  Whatever the text, a number that [std::stoul] returns is at most
    [ULONG_MAX]; and a minus sign is accepted and negates in [unsigned long]:
    [-<v>] with [1 <= v <= ULONG_MAX] gives [ULONG_MAX + 1 - v], so that
    [--max -1] asks for 4294967295 snapshots. *)
Theorem X4_stoul_range_and_sign :
  (forall s n, stoul s = inr n -> (n <= ULONG_MAX)%N) /\
  (forall v, (1 <= v <= ULONG_MAX)%N ->
     stoul ("-" +:+ dec_N v) = inr (ULONG_MAX + 1 - v)%N).
Proof.
  split; [exact stoul_bound|].
  intros v Hv. unfold stoul. str_simpl.
  change (skip_spaces (String "-" (dec_N v))) with (String "-" (dec_N v)).
  cbv beta iota zeta.
  change (Ascii.eqb "-" (ascii_of_nat 45)) with true. cbv beta iota zeta.
  rewrite read_dec_N. simpl negb. cbv iota.
  destruct (N.ltb_spec ULONG_MAX v); [lia|].
  f_equal. apply N.mod_small. unfold ULONG_MAX in *. lia.
Qed.

(** X5.  Every configuration that [parse_arguments] returns has a retention
    count of at most [ULONG_MAX] and an interval that fits [int], positive or
    not; and no check keeps a zero interval or a zero count out:
    [-i 0 -m 0] is accepted as it stands. *)
Theorem X5_parsed_numbers_in_range :
  (forall args config,
     parse_arguments args = inr config -> numbers_in_range config) /\
  parse_arguments ["-i"; "0"; "-m"; "0"] =
    inr (set_maxBackups (set_interval default_config 0) 0).
Proof.
  split; [|vm_compute; reflexivity].
  intros args config H.
  apply (parse_loop_range (length args) args default_config config); [done| |exact H].
  split; [unfold ULONG_MAX; simpl; lia|simpl; lia].
Qed.

(** The largest count: [--max 4294967295]. *)
Lemma X3_stoul_reads_decimal_output_witness :
  stoul (dec_N 4294967295) = inr 4294967295%N.
Proof.
  refine (proj1 (X3_stoul_reads_decimal_output 4294967295%N _)).
  unfold ULONG_MAX. lia.
Defined.

(** [-1] is read as [ULONG_MAX]. *)
Lemma X4_stoul_range_and_sign_witness :
  stoul ("-" +:+ dec_N 1) = inr (ULONG_MAX + 1 - 1)%N /\
  (4294967295 <= ULONG_MAX)%N.
Proof.
  split.
  - refine (proj2 X4_stoul_range_and_sign 1%N _). unfold ULONG_MAX. lia.
  - refine (proj1 X4_stoul_range_and_sign "-1" 4294967295%N _).
    vm_compute. reflexivity.
Defined.

(** [-m -1 -i 4294967295] gives the count [ULONG_MAX] and the interval
    [-1]. *)
Lemma X5_parsed_numbers_in_range_witness :
  numbers_in_range (set_interval (set_maxBackups default_config 4294967295) (-1)).
Proof.
  refine (proj1 X5_parsed_numbers_in_range ["-m"; "-1"; "-i"; "4294967295"] _ _).
  vm_compute. reflexivity.
Defined.

(** ** Create operations: edge cases, frame and content *)

Lemma read_path_from_file_world p w line w' :
  read_path_from_file p w = Ok line w' -> w' = w.
Proof.
  unfold read_path_from_file.
  destruct (lookup_path w p) as [[c|]|]; try done.
  destruct (first_path_line _); [|done]. by intros [= _ <-].
Qed.

Lemma source_of_run config w src :
  source_of config w = Some src ->
  (if negb (String.eqb (sourcePath config) EmptyString)
   then mret (sourcePath config)
   else read_path_from_file (configFile config)) w = Ok src w.
Proof.
  unfold source_of. destruct (negb _); [by intros [= <-]|].
  destruct (read_path_from_file _ w) as [line w'| | |] eqn:E; try done.
  intros [= <-]. by rewrite (read_path_from_file_world _ _ _ _ E).
Qed.

Lemma source_of_inv config w src w' :
  (if negb (String.eqb (sourcePath config) EmptyString)
   then mret (sourcePath config)
   else read_path_from_file (configFile config)) w = Ok src w' ->
  w' = w /\ source_of config w = Some src.
Proof.
  unfold source_of. destruct (negb _); [by intros [= <- <-]|].
  intros E. rewrite E. split; [|done]. by apply read_path_from_file_world in E.
Qed.

(** What a successful [perform_backup] has done, with the source named. *)
Lemma perform_backup_source P config lt w w' :
  perform_backup P config lt w = Ok true w' ->
  exists src s w1 d,
    source_of config w = Some src /\
    resolve (w_cwd w) src = Some s /\ node_at (w_fs w) s = Some NDir /\
    cleanup_old_backups (backupRoot config) (maxBackups config) (verbose config) w
      = Ok tt w1 /\
    resolve (w_cwd w1)
      (path_join (backupRoot config) (make_timestamp_folder_name lt)) = Some d /\
    copy_tree (w_fs w1) s d = Some (w_fs w') /\
    w_cwd w1 = w_cwd w /\ w_cwd w' = w_cwd w.
Proof.
  intros H. unfold perform_backup in H.
  apply try_catch_Ok_inv in H as [H|(e & w0 & _ & H)]; cycle 1.
  { apply bind_Ok_inv in H as (? & ? & _ & H). done. }
  apply bind_Ok_inv in H as (src & w0 & Hsrc & H).
  apply source_of_inv in Hsrc as [-> Hsrc].
  apply bind_Ok_inv in H as (found & w0 & [= <- <-] & H).
  apply bind_Ok_inv in H as (isdir & w0 & [= <- <-] & H).
  unfold lookup_path in H.
  destruct (resolve (w_cwd w) src) as [s|] eqn:Hs; [|simpl in H].
  2: { apply bind_Ok_inv in H as (? & ? & _ & H). done. }
  destruct (node_at (w_fs w) s) as [[|]|] eqn:Hn; simpl in H.
  1,3: apply bind_Ok_inv in H as (? & ? & _ & H); done.
  apply bind_Ok_inv in H as ([] & w1 & Hclean & H).
  apply bind_Ok_inv in H as ([] & w2 & Hverb & H).
  apply bind_Ok_inv in H as ([] & w3 & Hcopy & H).
  apply bind_Ok_inv in H as ([] & w4 & Hout & H).
  injection H as <-. apply cout_inv in Hout as ->.
  assert (Hw2 : w_fs w2 = w_fs w1 /\ w_cwd w2 = w_cwd w1).
  { apply when_Ok_inv in Hverb. destruct (verbose config); [|by subst].
    by apply cout_inv in Hverb as ->. }
  destruct Hw2 as [Hf2 Hc2].
  unfold copy_recursive in Hcopy. rewrite Hc2, Hf2 in Hcopy.
  destruct (resolve (w_cwd w1) src) as [s'|] eqn:Hs'; [|done].
  destruct (resolve (w_cwd w1) (path_join _ _)) as [d|] eqn:Hd; [|done].
  destruct (copy_tree (w_fs w1) s' d) as [fs2|] eqn:Hct; [|done].
  injection Hcopy as <-.
  assert (Hcwd : w_cwd w1 = w_cwd w).
  { apply cleanup_old_backups_inv in Hclean as (k & _ & _ & Hloop).
    apply evict_loop_Ok_inv in Hloop as [_ ->]. apply evict_fold_cwd. }
  exists src, s, w1, d. rewrite Hcwd in Hs'. rewrite Hs in Hs'. injection Hs' as <-.
  repeat split; try done. simpl. by rewrite Hc2.
Qed.

(** X6.  A source that is not there, or is not a directory, ends the create
    before anything else is looked at: [perform_backup] returns [false]
    after the warning, with the file system as it was; no snapshot is
    evicted, whatever the retention count, and none is made. *)
Theorem X6_source_not_a_directory P config lt w src :
  source_of config w = Some src ->
  lookup_path w src <> Some NDir ->
  perform_backup P config lt w =
    Ok false (emit w (Err ("Warning: Source directory does not exist: " +:+
                           quoted src +:+ nl))).
Proof.
  intros Hsrc%source_of_run Hnd.
  unfold perform_backup, try_catch.
  unfold mbind at 1, M_bind at 1. rewrite Hsrc.
  unfold mbind at 1, M_bind at 1. unfold fs_exists at 1.
  unfold mbind at 1, M_bind at 1. unfold fs_is_directory at 1.
  destruct (lookup_path w src) as [[c|]|]; [done| |done]. by destruct Hnd.
Qed.

(** X7.  When the source is a directory and the backup root is not one (it
    is missing, or a regular file), the directory iteration of the
    retention pass throws, [perform_backup] catches it and returns [false]:
    the failure is reported as an error during backup and the file system
    is as it was. *)
Theorem X7_backup_root_not_a_directory P config lt w src :
  source_of config w = Some src ->
  lookup_path w src = Some NDir ->
  lookup_path w (backupRoot config) <> Some NDir ->
  perform_backup P config lt w =
    Ok false (emit w (backup_error "directory_iterator")).
Proof.
  intros Hsrc%source_of_run Hd Hroot.
  unfold perform_backup, try_catch.
  unfold mbind at 1, M_bind at 1. rewrite Hsrc.
  unfold mbind at 1, M_bind at 1. unfold fs_exists at 1.
  unfold mbind at 1, M_bind at 1. unfold fs_is_directory at 1.
  rewrite Hd. cbn [negb orb]. cbv beta iota.
  unfold mbind at 1, M_bind at 1.
  unfold cleanup_old_backups. unfold mbind at 1, M_bind at 1.
  unfold directory_iterator. unfold lookup_path in Hroot.
  destruct (resolve (w_cwd w) (backupRoot config)) as [k|]; [|done].
  destruct (node_at (w_fs w) k) as [[c|]|]; [done| |done]. by destruct Hroot.
Qed.

Lemma existsb_false_elem {A} (f : A -> bool) (l : list A) x :
  existsb f l = false -> x ∈ l -> f x = false.
Proof.
  intros He Hin. destruct (f x) eqn:E; [|done].
  assert (existsb f l = true); [|congruence].
  apply existsb_exists. exists x. split; [by apply list_elem_of_In|done].
Qed.

(** What a successful recursive copy of a directory has made. *)
Lemma copy_tree_dir_inv (fs fs' : filesystem) (s d : list string) :
  node_at fs s = Some NDir -> copy_tree fs s d = Some fs' ->
  ~ s `prefix_of` d /\
  existsb (copy_clash fs) ((d, NDir) :: copy_entries fs s d) = false /\
  fs' = <[d := NDir]> (list_to_map (copy_entries fs s d)) ∪ fs.
Proof.
  intros Hs H. unfold copy_tree in H. rewrite Hs in H.
  case_decide as Hp; [done|]. split; [done|].
  destruct (existsb _ _) eqn:Hex.
  - by destruct (node_at fs d) as [[|]|], (node_at fs (removelast d)) as [[|]|].
  - split; [done|].
    destruct (node_at fs d) as [[|]|], (node_at fs (removelast d)) as [[|]|];
      try done; by injection H as <-.
Qed.

(** A recursive copy overwrites nothing: what was there is there afterwards. *)
Lemma copy_tree_mono (fs fs' : filesystem) (s d q : list string) v :
  copy_tree fs s d = Some fs' -> q <> [] -> fs !! q = Some v -> fs' !! q = Some v.
Proof.
  intros H Hq Hl.
  destruct (node_at fs s) as [[content|]|] eqn:Hs.
  - unfold copy_tree in H. rewrite Hs in H. cbv zeta in H.
    match type of H with
    | match node_at fs ?d' with _ => _ end = _ =>
        destruct (node_at fs d') as [?|] eqn:E1; [done|];
        destruct (node_at fs (removelast d')) as [[|]|]; try done;
        injection H as <-; rewrite lookup_insert_ne; [done|];
        intros Heq; subst q; rewrite node_at_nonempty in E1 by done; congruence
    end.
  - apply (copy_tree_dir_inv _ _ _ _ Hs) in H as (_ & Hex & ->).
    apply lookup_union_Some_raw.
    destruct (<[d:=NDir]> (list_to_map (copy_entries fs s d)) !! q) as [v'|] eqn:En;
      [left|by right].
    f_equal. apply copy_new_Some in En as (rest & -> & Hv').
    assert (Hin : (d ++ rest, v') ∈ (d, NDir) :: copy_entries fs s d).
    { destruct Hv' as [[-> ->]|Hv']; [rewrite app_nil_r; left|].
      right. by apply elem_of_copy_entries. }
    apply (existsb_false_elem _ _ _ Hex) in Hin.
    unfold copy_clash in Hin. simpl in Hin.
    rewrite node_at_nonempty, Hl in Hin by done.
    by destruct v', v.
  - unfold copy_tree in H. by rewrite Hs in H.
Qed.

(** Every entry of the source directory is at the target afterwards. *)
Lemma copy_tree_content (fs fs' : filesystem) (s d rest : list string) v :
  node_at fs s = Some NDir -> copy_tree fs s d = Some fs' -> rest <> [] ->
  fs !! (s ++ rest) = Some v -> fs' !! (d ++ rest) = Some v.
Proof.
  intros Hs H Hrest Hl.
  apply (copy_tree_dir_inv _ _ _ _ Hs) in H as (_ & _ & ->).
  apply lookup_union_Some_raw. left.
  rewrite lookup_insert_ne.
  2: { intros Heq. apply Hrest. apply (app_inv_head d). by rewrite app_nil_r. }
  apply elem_of_list_to_map_1'; [|by apply elem_of_copy_entries].
  intros y (rest' & Heq & Hy)%copy_entries_prefix.
  apply app_inv_head in Heq as <-. congruence.
Qed.

(** A regular file of the source that is at the target already stops the
    copy. *)
Lemma copy_tree_clash (fs : filesystem) (s d rest : list string) c v :
  node_at fs s = Some NDir -> rest <> [] ->
  fs !! (s ++ rest) = Some (NFile c) -> fs !! (d ++ rest) = Some v ->
  copy_tree fs s d = None.
Proof.
  intros Hs Hrest Hl Hd.
  destruct (copy_tree fs s d) as [fs'|] eqn:H; [|done].
  apply (copy_tree_dir_inv _ _ _ _ Hs) in H as (_ & Hex & _).
  assert (Hin : (d ++ rest, NFile c) ∈ (d, NDir) :: copy_entries fs s d).
  { right. by apply elem_of_copy_entries. }
  apply (existsb_false_elem _ _ _ Hex) in Hin.
  unfold copy_clash in Hin. simpl in Hin.
  rewrite node_at_nonempty, Hd in Hin; [done|].
  intros Heq. apply app_eq_nil in Heq as [_ ?]. done.
Qed.

(** The retention pass leaves alone what is in a directory that it has
    left and that does not hold the new folder. *)
Lemma eviction_spares_source (k s rest ev : list string) (fs : filesystem) name :
  ~ s `prefix_of` (k ++ [name]) ->
  node_at (foldl (fun fs e => remove_tree (k ++ [e]) fs) fs ev) s = Some NDir ->
  foldl (fun fs e => remove_tree (k ++ [e]) fs) fs ev !! (s ++ rest) = fs !! (s ++ rest).
Proof.
  intros Hnp Hs. rewrite lookup_evict_fold. case_decide as Hex; [exfalso|done].
  apply Exists_exists in Hex as (e & Hin & Hpre).
  assert (Hcase : (k ++ [e]) `prefix_of` s \/ s `prefix_of` k).
  { destruct (prefix_comparable (k ++ [e]) s (s ++ rest) Hpre (prefix_app_r s s rest (reflexivity s)))
      as [?|Hp]; [by left|].
    apply prefix_snoc_cases in Hp as [?| ->]; [by right|by left]. }
  destruct Hcase as [Hp|Hp].
  - rewrite node_at_nonempty, lookup_evict_fold in Hs.
    + case_decide as Hex; [done|]. apply Hex, Exists_exists. by exists e.
    + intros ->. apply prefix_nil_inv in Hp. by destruct k.
  - apply Hnp. by apply prefix_app_r.
Qed.

(** The state that a successful create on a well-formed state goes through
    and ends in. *)
Lemma perform_backup_states P config lt w w' :
  wf_world w ->
  perform_backup P config lt w = Ok true w' ->
  exists src s k evicted,
    let name := make_timestamp_folder_name lt in
    let fs1 := foldl (fun fs e => remove_tree (k ++ [e]) fs) (w_fs w) evicted in
    source_of config w = Some src /\
    resolve (w_cwd w) src = Some s /\
    resolve (w_cwd w) (backupRoot config) = Some k /\
    node_at (w_fs w) k = Some NDir /\
    (forall e, e ∈ evicted -> e ∈ catalog w (backupRoot config)) /\
    node_at fs1 s = Some NDir /\
    copy_tree fs1 s (k ++ [name]) = Some (w_fs w') /\
    w_cwd w' = w_cwd w.
Proof.
  intros Hwf H.
  apply perform_backup_source in H
    as (src & s & w1 & d & Hsrc & Hs & Hsd & Hclean & Hd & Hcopy & Hc1 & Hc').
  destruct (cleanup_old_backups_state _ _ _ _ _ Hwf Hclean)
    as (k & Hr & Hk & Hmax & _ & Hw1 & Hfs1).
  assert (Hsub : w_fs w1 ⊆ w_fs w) by (rewrite Hw1; apply evict_fold_subseteq).
  rewrite Hc1 in Hd.
  rewrite (resolve_join _ _ _ _ Hr (make_timestamp_folder_name_plain lt)) in Hd.
  injection Hd as <-.
  assert (Hs1 : node_at (w_fs w1) s = Some NDir).
  { unfold copy_tree in Hcopy.
    destruct (node_at (w_fs w1) s) as [[c|]|] eqn:E; [|done|done].
    apply (node_at_subseteq _ (w_fs w)) in E; [congruence|done]. }
  rewrite Hfs1 in Hcopy, Hs1.
  eexists src, s, k, _. cbv zeta.
  split; [done|]. split; [done|]. split; [done|]. split; [done|].
  split; [|split; [exact Hs1|split; [exact Hcopy|done]]].
  intros e (i & Hin%list_elem_of_lookup_2 & _)%elem_of_take.
  rewrite std_sort_perm in Hin. unfold catalog. by rewrite Hr.
Qed.

(** X8.  A successful create changes nothing outside the backup root, and
    inside it only what is at or below a snapshot of the catalog or the new
    folder: the source, and every other file of the machine, is as it
    was, and so is the current directory. *)
Theorem X8_create_stays_in_backup_root P config lt w w' k :
  wf_world w ->
  resolve (w_cwd w) (backupRoot config) = Some k ->
  perform_backup P config lt w = Ok true w' ->
  w_cwd w' = w_cwd w /\
  (forall q : list string, ~ k `prefix_of` q -> w_fs w' !! q = w_fs w !! q) /\
  (forall q : list string,
     (forall n, n ∈ catalog w (backupRoot config) -> ~ (k ++ [n]) `prefix_of` q) ->
     ~ (k ++ [make_timestamp_folder_name lt]) `prefix_of` q ->
     w_fs w' !! q = w_fs w !! q).
Proof.
  intros Hwf Hr H.
  apply (perform_backup_states _ _ _ _ _ Hwf) in H
    as (src & s & k' & evicted & _ & _ & Hr' & _ & Hev & _ & Hcopy & Hc).
  rewrite Hr in Hr'. injection Hr' as <-.
  assert (Hin : forall q : list string,
     (forall n, n ∈ catalog w (backupRoot config) -> ~ (k ++ [n]) `prefix_of` q) ->
     ~ (k ++ [make_timestamp_folder_name lt]) `prefix_of` q ->
     w_fs w' !! q = w_fs w !! q).
  { intros q Hcat Hnew.
    rewrite (copy_tree_outside _ _ _ _ _ Hcopy Hnew), lookup_evict_fold.
    case_decide as Hex; [exfalso|done].
    apply Exists_exists in Hex as (e & He & Hpre). by apply (Hcat e (Hev e He)). }
  split; [done|]. split; [|done].
  intros q Hq. apply Hin.
  - intros n _ Hp. apply Hq. etrans; [|exact Hp]. by apply prefix_app_r.
  - intros Hp. apply Hq. etrans; [|exact Hp]. by apply prefix_app_r.
Qed.

(** X9.  After a successful create the new folder is a directory that holds
    every entry of the source directory, as it was before the create, under
    the same relative path and with the same content. *)
Theorem X9_snapshot_holds_source P config lt w w' :
  wf_world w ->
  perform_backup P config lt w = Ok true w' ->
  exists src s k,
    let d := k ++ [make_timestamp_folder_name lt] in
    source_of config w = Some src /\
    resolve (w_cwd w) src = Some s /\
    resolve (w_cwd w) (backupRoot config) = Some k /\
    w_fs w' !! d = Some NDir /\
    forall rest v, rest <> [] ->
      w_fs w !! (s ++ rest) = Some v -> w_fs w' !! (d ++ rest) = Some v.
Proof.
  intros Hwf H.
  apply (perform_backup_states _ _ _ _ _ Hwf) in H
    as (src & s & k & evicted & Hsrc & Hs & Hr & _ & _ & Hs1 & Hcopy & _).
  exists src, s, k. cbv zeta.
  split; [done|]. split; [done|]. split; [done|]. split.
  - apply (copy_tree_directory _ _ _ _ Hs1 Hcopy).
  - intros rest v Hrest Hl.
    apply (copy_tree_content _ _ _ _ _ _ Hs1 Hcopy Hrest).
    rewrite (eviction_spares_source k s rest evicted (w_fs w)
               (make_timestamp_folder_name lt)); [done| |done].
    by apply (copy_tree_dir_inv _ _ _ _ Hs1) in Hcopy as (? & _).
Qed.

Lemma starts_with_app (p s : string) : starts_with (p +:+ s) p = true.
Proof.
  induction p as [|c p IH]; [by destruct s|].
  str_simpl. simpl. by rewrite Ascii.eqb_refl.
Qed.

Lemma make_timestamp_folder_name_prefix lt :
  starts_with (make_timestamp_folder_name lt) "Backup_" = true.
Proof. destruct lt; [apply starts_with_app|done]. Qed.

(** X10.  The snapshot that a successful create has made is in the catalog
    of the backup root straight away, under the name that was announced,
    the name [Backup_Error] of a failed clock included. *)
Theorem X10_created_snapshot_in_catalog P config lt w w' :
  perform_backup P config lt w = Ok true w' ->
  make_timestamp_folder_name lt ∈ catalog w' (backupRoot config).
Proof.
  intros H.
  apply perform_backup_source in H
    as (src & s & w1 & d & Hsrc & Hs & Hsd & Hclean & Hd & Hcopy & Hc1 & Hc').
  pose proof Hclean as (k & Hr & Hk & Hloop)%cleanup_old_backups_inv.
  apply evict_loop_Ok_inv in Hloop as [_ Hw1].
  assert (Hsub : w_fs w1 ⊆ w_fs w) by (rewrite Hw1; apply evict_fold_subseteq).
  rewrite Hc1 in Hd.
  rewrite (resolve_join _ _ _ _ Hr (make_timestamp_folder_name_plain lt)) in Hd.
  injection Hd as <-.
  assert (Hs1 : node_at (w_fs w1) s = Some NDir).
  { unfold copy_tree in Hcopy.
    destruct (node_at (w_fs w1) s) as [[c|]|] eqn:E; [|done|done].
    apply (node_at_subseteq _ (w_fs w)) in E; [congruence|done]. }
  unfold catalog. rewrite Hc', Hr. apply elem_of_catalog_entries.
  split; [|apply make_timestamp_folder_name_prefix].
  apply (copy_tree_directory _ _ _ _ Hs1 Hcopy).
Qed.

(** X11.  A second create under the same name, as happens within the same
    second, does not replace the first: when the source holds a regular
    file and the retention pass has no reason to evict, the copy runs into
    the file that is there and [perform_backup] returns [false] with the
    error of the copy. *)
Theorem X11_second_create_same_name P config lt w w' s rest c :
  wf_world w ->
  sourcePath config <> EmptyString ->
  resolve (w_cwd w) (sourcePath config) = Some s ->
  w_fs w !! (s ++ rest) = Some (NFile c) ->
  perform_backup P config lt w = Ok true w' ->
  (N.of_nat (length (catalog w' (backupRoot config))) < maxBackups config)%N ->
  exists w'',
    perform_backup P config lt w' = Ok false w'' /\
    last (w_trace w'') = Some (backup_error "copy").
Proof.
  intros Hwf Hne Hs Hfile H Hlen.
  assert (Hsrc : forall w0, source_of config w0 = Some (sourcePath config)).
  { intros w0. unfold source_of.
    by destruct (String.eqb_spec (sourcePath config) EmptyString). }
  apply (perform_backup_states _ _ _ _ _ Hwf) in H
    as (src & s' & k & evicted & Hsrc' & Hs' & Hr & Hk & _ & Hs1 & Hcopy & Hc).
  rewrite Hsrc in Hsrc'. injection Hsrc' as <-.
  rewrite Hs in Hs'. injection Hs' as <-.
  set (name := make_timestamp_folder_name lt) in *.
  set (fs1 := foldl (fun fs e => remove_tree (k ++ [e]) fs) (w_fs w) evicted) in *.
  destruct (copy_tree_dir_inv _ _ _ _ Hs1 Hcopy) as (Hnp & _ & _).
  assert (Hs0 : s <> []) by by apply (not_prefix_nil _ _ Hnp).
  assert (Hrest : rest <> []).
  { intros ->. rewrite app_nil_r in Hfile.
    assert (Hsub : fs1 ⊆ w_fs w).
    { unfold fs1. clear. induction evicted as [|e ev IH] using rev_ind; [done|].
      rewrite foldl_app. simpl. etrans; [apply remove_tree_subseteq|done]. }
    apply (node_at_subseteq _ _ _ _ Hsub) in Hs1.
    rewrite node_at_nonempty in Hs1 by done. congruence. }
  assert (Hf1 : fs1 !! (s ++ rest) = Some (NFile c)).
  { unfold fs1. by rewrite (eviction_spares_source k s rest evicted (w_fs w) name). }
  assert (Hsr : s ++ rest <> []) by (intros [? _]%app_eq_nil; done).
  assert (Hf' : w_fs w' !! (s ++ rest) = Some (NFile c))
    by apply (copy_tree_mono _ _ _ _ _ _ Hcopy Hsr Hf1).
  assert (Hd' : w_fs w' !! ((k ++ [name]) ++ rest) = Some (NFile c))
    by apply (copy_tree_content _ _ _ _ _ _ Hs1 Hcopy Hrest Hf1).
  assert (Hs' : node_at (w_fs w') s = Some NDir).
  { rewrite node_at_nonempty in Hs1 |- * by done.
    apply (copy_tree_mono _ _ _ _ _ _ Hcopy Hs0 Hs1). }
  assert (Hk' : node_at (w_fs w') k = Some NDir).
  { destruct (decide (k = [])) as [->|Hk0]; [done|].
    rewrite node_at_nonempty in Hk |- * by done.
    apply (copy_tree_mono _ _ _ _ _ _ Hcopy Hk0).
    unfold fs1. rewrite lookup_evict_fold. case_decide as Hex; [exfalso|done].
    apply Exists_exists in Hex as (e & _ & Hp).
    apply prefix_length in Hp. rewrite length_app in Hp. simpl in Hp. lia. }
  assert (Hclash : copy_tree (w_fs w') s (k ++ [name]) = None)
    by apply (copy_tree_clash _ _ _ _ _ _ Hs' Hrest Hf' Hd').
  assert (Hr' : resolve (w_cwd w') (backupRoot config) = Some k) by by rewrite Hc.
  assert (Hclean : cleanup_old_backups (backupRoot config) (maxBackups config)
                     (verbose config) w' = Ok tt w').
  { rewrite (cleanup_old_backups_spec _ _ _ _ k) by (done || lia). cbv zeta.
    replace (_ + 1 - _)%nat with 0%nat; [done|].
    unfold catalog in Hlen. rewrite Hr' in Hlen.
    rewrite std_sort_length. lia. }
  unfold name in *. clear name.
  unfold perform_backup, try_catch.
  unfold mbind at 1, M_bind at 1. rewrite (source_of_run _ _ _ (Hsrc w')).
  unfold mbind at 1, M_bind at 1. unfold fs_exists at 1.
  unfold mbind at 1, M_bind at 1. unfold fs_is_directory at 1.
  unfold lookup_path. rewrite Hc, Hs, Hs'. cbn [negb orb]. cbv beta iota.
  unfold mbind at 1, M_bind at 1. rewrite Hclean.
  unfold mbind at 1, M_bind at 1.
  assert (Hjoin : forall w0, w_cwd w0 = w_cwd w ->
            resolve (w_cwd w0)
              (path_join (backupRoot config) (make_timestamp_folder_name lt)) =
              Some (k ++ [make_timestamp_folder_name lt])).
  { intros w0 ->. apply resolve_join; [done|apply make_timestamp_folder_name_plain]. }
  destruct (verbose config); unfold when, cout, mret, M_ret;
    unfold mbind at 1, M_bind at 1; unfold copy_recursive; simpl w_cwd; simpl w_fs;
    rewrite Hc, Hs, (Hjoin w eq_refl), Hclash;
    eexists; (split; [reflexivity|]); simpl; apply last_snoc.
Qed.

(** [--path data/notes.txt --max 0]: the source is a regular file. *)
Lemma X6_source_not_a_directory_witness :
  perform_backup sample_platform
    (set_maxBackups (set_sourcePath default_config "data/notes.txt") 0) None
    (make_world fs_three) =
  Ok false (emit (make_world fs_three)
              (Err ("Warning: Source directory does not exist: " +:+
                    quoted "data/notes.txt" +:+ nl))).
Proof.
  apply X6_source_not_a_directory.
  - vm_compute. reflexivity.
  - vm_compute. discriminate.
Defined.

(** A create in the work directory that has no backup root. *)
Lemma X7_backup_root_not_a_directory_witness :
  perform_backup sample_platform sample_config (Some noon) (make_world fs_source) =
  Ok false (emit (make_world fs_source) (backup_error "directory_iterator")).
Proof.
  apply (X7_backup_root_not_a_directory _ _ _ _ "data").
  - vm_compute. reflexivity.
  - vm_compute. reflexivity.
  - vm_compute. discriminate.
Defined.

(** A create with a limit of two among three snapshots: the file next to
    the backup root is as it was. *)
Lemma X8_create_stays_in_backup_root_witness :
  match perform_backup sample_platform sample_config (Some noon) (make_world fs_three) with
  | Ok true w' => w_fs w' !! ["work"; "outside"; "precious.txt"] = Some (NFile "keep me")
  | _ => False
  end.
Proof.
  assert (Hs : match perform_backup sample_platform sample_config (Some noon)
                       (make_world fs_three) with
               | Ok true _ => True | _ => False end) by (vm_compute; exact I).
  destruct (perform_backup _ _ _ _) as [[|] w'| | |] eqn:E; try exact Hs.
  assert (Hwf : wf_world (make_world fs_three))
    by (apply (bool_decide_unpack _); vm_compute; exact I).
  assert (Hr : resolve (w_cwd (make_world fs_three)) (backupRoot sample_config) =
               Some ["work"; "CopiedFiles"]) by (vm_compute; reflexivity).
  destruct (X8_create_stays_in_backup_root _ _ _ _ _ _ Hwf Hr E) as (_ & Hout & _).
  rewrite Hout; [vm_compute; reflexivity|].
  apply (bool_decide_unpack _). vm_compute. exact I.
Defined.

(** The same create: the file two levels down in the source is in the
    snapshot. *)
Lemma X9_snapshot_holds_source_witness :
  match perform_backup sample_platform sample_config (Some noon) (make_world fs_three) with
  | Ok true w' =>
      w_fs w' !! ["work"; "CopiedFiles"; "Backup_2024-01-04_12-00-00"; "sub"; "deep.txt"]
        = Some (NFile "deep")
  | _ => False
  end.
Proof.
  assert (Hs : match perform_backup sample_platform sample_config (Some noon)
                       (make_world fs_three) with
               | Ok true _ => True | _ => False end) by (vm_compute; exact I).
  destruct (perform_backup _ _ _ _) as [[|] w'| | |] eqn:E; try exact Hs.
  assert (Hwf : wf_world (make_world fs_three))
    by (apply (bool_decide_unpack _); vm_compute; exact I).
  destruct (X9_snapshot_holds_source _ _ _ _ _ Hwf E)
    as (src & s & k & Hsrc & Hrs & Hrk & _ & Hall).
  vm_compute in Hsrc. injection Hsrc as <-.
  vm_compute in Hrs. injection Hrs as <-.
  vm_compute in Hrk. injection Hrk as <-.
  apply (Hall ["sub"; "deep.txt"] (NFile "deep")); [discriminate|].
  vm_compute. reflexivity.
Defined.

(** A create with a failing clock: [Backup_Error] is in the catalog. *)
Lemma X10_created_snapshot_in_catalog_witness :
  match perform_backup sample_platform sample_config None (make_world fs_source_root) with
  | Ok true w' => "Backup_Error" ∈ catalog w' "CopiedFiles"
  | _ => False
  end.
Proof.
  assert (Hs : match perform_backup sample_platform sample_config None
                       (make_world fs_source_root) with
               | Ok true _ => True | _ => False end) by (vm_compute; exact I).
  destruct (perform_backup _ _ _ _) as [[|] w'| | |] eqn:E; try exact Hs.
  exact (X10_created_snapshot_in_catalog _ _ _ _ _ E).
Defined.

(** Two creates at noon into an empty backup root with a limit of two. *)
Lemma X11_second_create_same_name_witness :
  match perform_backup sample_platform sample_config (Some noon)
          (make_world fs_source_root) with
  | Ok true w' =>
      exists w'',
        perform_backup sample_platform sample_config (Some noon) w' = Ok false w'' /\
        last (w_trace w'') = Some (backup_error "copy")
  | _ => False
  end.
Proof.
  assert (Hs : match perform_backup sample_platform sample_config (Some noon)
                       (make_world fs_source_root) with
               | Ok true w' =>
                   (N.of_nat (length (catalog w' (backupRoot sample_config)))
                      <? maxBackups sample_config)%N = true
               | _ => False end) by (vm_compute; reflexivity).
  destruct (perform_backup _ _ _ _) as [[|] w'| | |] eqn:E; try exact Hs.
  apply N.ltb_lt in Hs.
  apply (X11_second_create_same_name sample_platform sample_config (Some noon)
           (make_world fs_source_root) w' ["work"; "data"] ["notes.txt"] "hello");
    [ apply (bool_decide_unpack _); vm_compute; exact I
    | discriminate
    | vm_compute; reflexivity
    | vm_compute; reflexivity
    | exact E
    | exact Hs ].
Defined.

(** ** The order of the listing *)

Lemma Sorted_NoDup_impl (R R' : relation string) (l : list string) :
  NoDup l -> (forall a b, a <> b -> R a b -> R' a b) -> Sorted R l -> Sorted R' l.
Proof.
  intros Hnd Himp Hs. induction Hs as [|a l Hs IH Hhd]; [constructor|].
  apply NoDup_cons in Hnd as [Ha Hnd]. constructor; [by apply IH|].
  destruct Hhd as [|b l' Hab]; constructor. apply Himp; [|done].
  intros ->. apply Ha. left.
Qed.

Lemma std_sort_gtb_reverse (l : list string) :
  NoDup l -> std_sort string_gtb l = reverse (std_sort string_ltb l).
Proof.
  intros Hnd.
  assert (Htrans : Transitive (flip string_lt)).
  { intros a b c Hab Hbc. unfold flip, string_lt in *.
    by apply (string_compare_trans c b a). }
  assert (Hanti : AntiSymm eq (flip string_lt)).
  { intros a b Hab Hba. unfold flip, string_lt in *.
    rewrite string_compare_antisym, Hba in Hab. done. }
  apply (Sorted_unique (flip string_lt)).
  - apply (Sorted_NoDup_impl (fun a b => string_gtb b a = false)).
    + by rewrite std_sort_perm.
    + intros a b Hne H. unfold flip. apply string_lt_total; [done|exact H].
    + apply std_sort_sorted. intros a b. unfold string_gtb. apply string_lt_asym.
  - apply Sorted_reverse. by apply std_sort_strict.
  - by rewrite reverse_Permutation, !std_sort_perm.
Qed.

Lemma catalog_NoDup w root : NoDup (catalog w root).
Proof.
  unfold catalog. destruct (resolve _ _); [apply catalog_entries_NoDup|constructor].
Qed.

(** X12.  The listing shows the catalog in exactly the reverse of the order
    in which the retention pass evicts: the two sorts, by the names
    descending and ascending, are mirror images of each other, so the
    snapshot that is listed last is the one that is evicted first. *)
Theorem X12_listing_reverses_eviction_order w root :
  std_sort string_gtb (catalog w root) = reverse (std_sort string_ltb (catalog w root)) /\
  last (std_sort string_gtb (catalog w root)) = head (std_sort string_ltb (catalog w root)).
Proof.
  pose proof (std_sort_gtb_reverse _ (catalog_NoDup w root)) as H.
  split; [done|]. rewrite H. apply last_reverse.
Qed.

(** ** Delete and restore: what else happens *)

(** X13.  After a delete that found its snapshot the snapshot is gone: the
    path no longer exists and the same delete again returns [false] with
    [Backup not found] and changes nothing; and for a plain name the
    catalog has lost this one entry and no other. *)
Theorem X13_delete_then_gone name root w (ks : list string) nd :
  resolve (w_cwd w) (path_join root name) = Some ks -> ks <> [] ->
  node_at (w_fs w) ks = Some nd ->
  exists w',
    delete_backup name root w = Ok true w' /\
    lookup_path w' (path_join root name) = None /\
    delete_backup name root w' =
      Ok false (emit w' (Err ("Backup not found: " +:+ name +:+ nl))) /\
    (plain_name name = true -> root <> EmptyString ->
     forall n, n ∈ catalog w' root <-> n ∈ catalog w root /\ n <> name).
Proof.
  intros Hr Hne Hnd. eexists. split; [by apply (delete_backup_existing _ _ _ ks nd)|].
  set (w' := emit _ _).
  assert (Hl : lookup_path w' (path_join root name) = None).
  { unfold lookup_path. simpl. rewrite Hr, node_at_nonempty by done.
    rewrite lookup_remove_tree. by case_decide. }
  split; [done|]. split.
  - unfold delete_backup, try_catch. unfold mbind at 1, M_bind at 1.
    unfold fs_exists. by rewrite Hl.
  - intros Hplain Hroot n. unfold catalog. simpl.
    destruct (resolve (w_cwd w) root) as [k|] eqn:Hk.
    2: { destruct root; [done|]. done. }
    rewrite (resolve_join _ _ _ _ Hk Hplain) in Hr. injection Hr as <-.
    rewrite !elem_of_catalog_entries, lookup_remove_tree.
    case_decide as Hp.
    + apply prefix_snoc_inv in Hp as ->. split; [by intros []|by intros [_ []]].
    + split; [intros [? ?]|by intros [? _]]. split; [done|]. by intros ->.
Qed.

(** X14.  A restore that reports success has changed the file system at
    most at and below the target and at the directories on the way to the
    target's parent: everything else, the snapshot that was restored
    included when it lies elsewhere, is as it was. *)
Theorem X14_restore_frame P name root target w w' (kt : list string) :
  resolve (w_cwd w) target = Some kt ->
  restore_backup P name root target w = Ok true w' ->
  w_cwd w' = w_cwd w /\
  forall q : list string,
    ~ kt `prefix_of` q ->
    (forall kp : list string,
       has_parent_path target = true ->
       resolve (w_cwd w) (parent_path target) = Some kp -> ~ q `prefix_of` kp) ->
    w_fs w' !! q = w_fs w !! q.
Proof.
  intros Hkt H. unfold restore_backup in H.
  apply try_catch_Ok_inv in H as [H|(e & w0 & _ & H)]; cycle 1.
  { apply bind_Ok_inv in H as (? & ? & _ & H). done. }
  apply bind_Ok_inv in H as (found & w0 & [= _ <-] & H).
  destruct (negb found).
  { apply bind_Ok_inv in H as (? & ? & _ & H). done. }
  apply bind_Ok_inv in H as ([] & w1 & Hpar & H).
  apply bind_Ok_inv in H as (tf & w1' & [= _ <-] & H).
  apply bind_Ok_inv in H as ([] & w2 & Hrem & H).
  apply bind_Ok_inv in H as ([] & w3 & Hcopy & H).
  apply bind_Ok_inv in H as ([] & w4 & Hout & H).
  injection H as <-. apply cout_inv in Hout as ->.
  assert (H1 : w_cwd w1 = w_cwd w /\
               forall q : list string,
                 (forall kp : list string,
                    has_parent_path target = true ->
                    resolve (w_cwd w) (parent_path target) = Some kp ->
                    ~ q `prefix_of` kp) ->
                 w_fs w1 !! q = w_fs w !! q).
  { apply when_Ok_inv in Hpar. destruct (has_parent_path target); [|by subst].
    unfold create_directories in Hpar.
    destruct (resolve (w_cwd w) (parent_path target)) as [kp|]; [|done].
    destruct (mkdirs (w_fs w) [] kp) as [fs1|] eqn:Hmk; [|done].
    injection Hpar as <-. split; [done|]. intros q Hq. simpl.
    apply mkdirs_spec in Hmk as (_ & Hout & _). apply Hout. simpl. by apply Hq. }
  destruct H1 as [Hc1 Hf1].
  assert (H2 : w_cwd w2 = w_cwd w /\
               forall q : list string, ~ kt `prefix_of` q -> w_fs w2 !! q = w_fs w1 !! q).
  { apply when_Ok_inv in Hrem. destruct tf; [|by subst].
    unfold remove_all in Hrem. rewrite Hc1, Hkt in Hrem. injection Hrem as <-.
    split; [done|]. intros q Hq. simpl. rewrite lookup_remove_tree. by case_decide. }
  destruct H2 as [Hc2 Hf2].
  unfold copy_recursive in Hcopy. rewrite Hc2, Hkt in Hcopy.
  destruct (resolve (w_cwd w) (path_join root name)) as [ks|]; [|done].
  destruct (copy_tree (w_fs w2) ks kt) as [fs3|] eqn:Hct; [|done].
  injection Hcopy as <-. split; [done|]. intros q Hq Hp. simpl.
  rewrite (copy_tree_outside _ _ _ _ _ Hct Hq), (Hf2 q Hq). by apply Hf1.
Qed.

(** ** [main]: what is done before and instead of the operation *)

Lemma extend_nil w : extend w [] = w.
Proof. destruct w. unfold extend. simpl. by rewrite app_nil_r. Qed.

Lemma cout_all_spec (lines : list string) w :
  cout_all lines w = Ok tt (extend w (Out <$> lines)).
Proof.
  revert w. induction lines as [|l lines IH]; intros w; simpl.
  - by rewrite extend_nil.
  - unfold mbind, M_bind, cout. rewrite IH. unfold extend, emit. simpl.
    by rewrite <- app_assoc.
Qed.

(** X16.  [--help] anywhere on a command line that parses wins over every
    operation: [main] prints the help text and exits with code 0, and apart
    from [README.txt] the file system is not touched, the backup root is
    not made and nothing is deleted, restored or copied. *)
Theorem X16_help_takes_precedence P prog args envs cycles config w w1 :
  parse_arguments args = inr config -> help config = true ->
  create_readme_file w = Ok tt w1 ->
  main P prog args envs cycles w = Ok 0 (extend w1 (Out <$> help_text prog)).
Proof.
  intros Hp Hh Hreadme.
  unfold main, mbind, M_bind. rewrite Hreadme.
  unfold try_catch, main_body, mbind, M_bind, lift. rewrite Hp, Hh.
  unfold print_help. by rewrite cout_all_spec.
Qed.

(** X17.  A command line that does not parse ends [main] with code 1 and
    the message of the exception on the error stream, before any
    operation and before the help: apart from [README.txt] nothing is
    touched. *)
Theorem X17_bad_command_line P prog args envs cycles e w w1 :
  parse_arguments args = inl e ->
  create_readme_file w = Ok tt w1 ->
  main P prog args envs cycles w = Ok 1 (emit w1 (Err ("Error: " +:+ what e +:+ nl))).
Proof.
  intros Hp Hreadme.
  unfold main, mbind, M_bind. rewrite Hreadme.
  unfold try_catch, main_body, mbind, M_bind, lift. by rewrite Hp.
Qed.

(** X18.  The restore target is found by a scan of its own: it is the
    argument after the first [--restore-to] that has one, wherever that is,
    also where the parser has read [--restore-to] as the value of another
    option. *)
Theorem X18_restore_target_scan (pre : list string) v post :
  "--restore-to" ∉ pre ->
  find_restore_to (pre ++ "--restore-to" :: v :: post) = v /\
  (forall config,
     parse_loop ("--path" :: "--restore-to" :: v :: post) config =
       parse_loop (v :: post) (set_sourcePath config "--restore-to")) /\
  find_restore_to ("--path" :: "--restore-to" :: v :: post) = v.
Proof.
  intros Hpre. split; [|split; [done|done]].
  induction pre as [|a pre IH]; [done|].
  apply not_elem_of_cons in Hpre as [Ha Hpre]. simpl.
  destruct (String.eqb_spec a "--restore-to") as [->|_]; [done|]. by apply IH.
Qed.

Lemma resolve_readme cwd : resolve cwd "README.txt" = Some (cwd ++ ["README.txt"]).
Proof. done. Qed.

(** X19.  [create_readme_file] writes [README.txt] in the current directory
    once and never again: what is there under that name is never
    overwritten, nothing else is touched, and after a run in a directory a
    second run does nothing. *)
Theorem X19_readme_written_once w :
  let k := w_cwd w ++ ["README.txt"] in
  (forall nd, w_fs w !! k = Some nd -> create_readme_file w = Ok tt w) /\
  exists w1,
    create_readme_file w = Ok tt w1 /\
    w_cwd w1 = w_cwd w /\
    (forall q : list string, q <> k -> w_fs w1 !! q = w_fs w !! q) /\
    (node_at (w_fs w) (w_cwd w) = Some NDir ->
     is_Some (w_fs w1 !! k) /\ create_readme_file w1 = Ok tt w1).
Proof.
  cbv zeta.
  assert (Hk : w_cwd w ++ ["README.txt"] <> []) by (intros [_ ?]%app_eq_nil; done).
  assert (Hex : forall w0 nd, w_fs w0 !! (w_cwd w0 ++ ["README.txt"]) = Some nd ->
                              create_readme_file w0 = Ok tt w0).
  { intros w0 nd Hl. unfold create_readme_file, mbind, M_bind, fs_exists, lookup_path.
    rewrite resolve_readme, node_at_nonempty, Hl; [done|].
    intros [_ ?]%app_eq_nil; done. }
  split; [apply Hex|].
  destruct (w_fs w !! (w_cwd w ++ ["README.txt"])) as [nd|] eqn:Hl.
  { exists w. split; [by apply (Hex w nd)|]. split; [done|]. split; [done|].
    intros _. split; [by rewrite Hl|by apply (Hex w nd)]. }
  assert (Hrun : create_readme_file w = write_readme "README.txt" w).
  { unfold create_readme_file, mbind, M_bind, fs_exists, lookup_path.
    by rewrite resolve_readme, node_at_nonempty, Hl. }
  rewrite Hrun. unfold write_readme.
  destruct (node_at (w_fs w) (w_cwd w)) as [[c|]|] eqn:Hd.
  - eexists. split; [done|]. split; [done|]. split; [done|]. done.
  - eexists. split; [done|]. split; [done|]. split.
    + intros q Hq. simpl. by rewrite lookup_insert_ne.
    + intros _. simpl. rewrite lookup_insert_eq. split; [done|].
      apply (Hex _ (NFile readme_text)). simpl. by rewrite lookup_insert_eq.
  - eexists. split; [done|]. split; [done|]. split; [done|]. done.
Qed.

(** The oldest of the three snapshots is deleted. *)
Lemma X13_delete_then_gone_witness :
  exists w',
    delete_backup "Backup_2024-01-01_00-00-00" "CopiedFiles" (make_world fs_three) =
      Ok true w' /\
    lookup_path w' (path_join "CopiedFiles" "Backup_2024-01-01_00-00-00") = None.
Proof.
  destruct (X13_delete_then_gone "Backup_2024-01-01_00-00-00" "CopiedFiles"
              (make_world fs_three)
              ["work"; "CopiedFiles"; "Backup_2024-01-01_00-00-00"] NDir)
    as (w' & Hd & Hl & _).
  - vm_compute. reflexivity.
  - discriminate.
  - vm_compute. reflexivity.
  - exists w'. split; [exact Hd|exact Hl].
Defined.

(** A restore into the directory [outside]: the file that is there stays. *)
Lemma X14_restore_frame_witness :
  match restore_backup sample_platform "Backup_2024-01-02_00-00-00" "CopiedFiles"
          "outside/restored" (make_world fs_three) with
  | Ok true w' => w_fs w' !! ["work"; "outside"; "precious.txt"] = Some (NFile "keep me")
  | _ => False
  end.
Proof.
  assert (Hs : match restore_backup sample_platform "Backup_2024-01-02_00-00-00"
                       "CopiedFiles" "outside/restored" (make_world fs_three) with
               | Ok true _ => True | _ => False end) by (vm_compute; exact I).
  destruct (restore_backup _ _ _ _ _) as [[|] w'| | |] eqn:E; try exact Hs.
  assert (Hkt : resolve (w_cwd (make_world fs_three)) "outside/restored" =
                Some ["work"; "outside"; "restored"]) by (vm_compute; reflexivity).
  destruct (X14_restore_frame _ _ _ _ _ _ _ Hkt E) as [_ Hout].
  rewrite Hout; [vm_compute; reflexivity| |].
  - apply (bool_decide_unpack _). vm_compute. exact I.
  - intros kp _ Hkp. vm_compute in Hkp. injection Hkp as <-.
    apply (bool_decide_unpack _). vm_compute. exact I.
Defined.

(** [--delete Backup_2024-01-01_00-00-00 -h]: the help, and no delete. *)
Lemma X16_help_takes_precedence_witness :
  main sample_platform "FlameUp" ["--delete"; "Backup_2024-01-01_00-00-00"; "-h"]
    sample_envs 0 (make_world fs_three) =
  Ok 0 (extend (with_readme fs_three) (Out <$> help_text "FlameUp")).
Proof.
  apply (X16_help_takes_precedence _ _ _ _ _
           (set_help (set_deleteBackup default_config "Backup_2024-01-01_00-00-00")));
    [vm_compute; reflexivity | reflexivity | reflexivity].
Defined.

(** An option that the parser does not know. *)
Lemma X17_bad_command_line_witness :
  main sample_platform "FlameUp" ["--now"; "--bogus"] sample_envs 0
    (make_world fs_three) =
  Ok 1 (emit (with_readme fs_three) (Err ("Error: Unknown argument: --bogus" +:+ nl))).
Proof.
  apply (X17_bad_command_line _ _ _ _ _ (RuntimeError "Unknown argument: --bogus"));
    [vm_compute; reflexivity | reflexivity].
Defined.

(** [-r x --restore-to target]. *)
Lemma X18_restore_target_scan_witness :
  find_restore_to (["-r"; "x"] ++ "--restore-to" :: "target" :: []) = "target".
Proof.
  refine (proj1 (X18_restore_target_scan ["-r"; "x"] "target" [] _)).
  apply (bool_decide_unpack _). vm_compute. exact I.
Defined.

(** Two runs in the work directory. *)
Lemma X19_readme_written_once_witness :
  exists w1,
    create_readme_file (make_world fs_source) = Ok tt w1 /\
    create_readme_file w1 = Ok tt w1.
Proof.
  destruct (proj2 (X19_readme_written_once (make_world fs_source)))
    as (w1 & Hrun & _ & _ & Hdir).
  exists w1. split; [exact Hrun|]. apply Hdir. vm_compute. reflexivity.
Defined.

(** X20.  [--list] with a backup root that exists and is not a directory:
    the directory iteration throws, nothing catches it before [main], and
    [main] exits with code 1 after the error message; the missing and the
    empty root are the only cases without snapshots that end with code 0. *)
Theorem X20_list_root_is_a_file P prog args envs cycles config w0 w c :
  parse_arguments args = inr config ->
  help config = false -> listBackups config = true ->
  create_readme_file w0 = Ok tt w ->
  lookup_path w (backupRoot config) = Some (NFile c) ->
  list_backups P (backupRoot config) w =
    Throw (FilesystemError "directory_iterator") w /\
  main P prog args envs cycles w0 =
    Ok 1 (emit w (Err ("Error: " +:+ what (FilesystemError "directory_iterator") +:+ nl))).
Proof.
  intros Hp Hh Hl Hreadme Hfile.
  assert (Hlist : list_backups P (backupRoot config) w =
                  Throw (FilesystemError "directory_iterator") w).
  { unfold list_backups, mbind, M_bind, fs_exists. rewrite Hfile.
    cbn [negb]. cbv beta iota. unfold directory_iterator.
    unfold lookup_path in Hfile.
    destruct (resolve (w_cwd w) (backupRoot config)) as [k|]; [|done].
    by rewrite Hfile. }
  split; [done|].
  unfold main, mbind, M_bind. rewrite Hreadme.
  unfold try_catch, main_body, mbind, M_bind, lift. rewrite Hp, Hh.
  unfold ensure_backup_root, mret, M_ret. rewrite Hh, Hl.
  cbn [negb andb]. cbv beta iota. by rewrite Hlist.
Qed.

(** What the start-up of [main] has done about the backup root. *)
Lemma ensure_backup_root_spec config w w2 :
  help config = false -> listBackups config = false ->
  ensure_backup_root config w = Ok tt w2 ->
  w_cwd w2 = w_cwd w /\
  lookup_path w2 (backupRoot config) <> None /\
  (lookup_path w (backupRoot config) = None ->
   lookup_path w2 (backupRoot config) = Some NDir) /\
  (forall (q : list string) v, w_fs w !! q = Some v -> w_fs w2 !! q = Some v).
Proof.
  intros Hh Hl H. unfold ensure_backup_root in H. rewrite Hh, Hl in H.
  cbn [negb andb] in H.
  apply bind_Ok_inv in H as (found & w1 & [= Hf <-] & H).
  destruct (lookup_path w (backupRoot config)) as [nd|] eqn:Hlook; subst found.
  { injection H as <-. rewrite Hlook. by repeat split. }
  cbn [negb] in H.
  apply bind_Ok_inv in H as ([] & w1 & Hmk & H).
  unfold create_directories in Hmk. unfold lookup_path in *.
  destruct (resolve (w_cwd w) (backupRoot config)) as [k|] eqn:Hr; [|done].
  destruct (mkdirs (w_fs w) [] k) as [fs'|] eqn:Hm; [|done].
  injection Hmk as <-.
  apply mkdirs_spec in Hm as (Hmono & _ & Hdir).
  assert (Hk : node_at fs' k = Some NDir).
  { destruct k as [|a k]; [done|]. simpl. by apply Hdir. }
  assert (Hw2 : w_fs w2 = fs' /\ w_cwd w2 = w_cwd w).
  { apply when_Ok_inv in H. destruct (verbose config); [|by subst].
    by apply cout_inv in H as ->. }
  destruct Hw2 as [Hfs Hc]. rewrite Hfs, Hc, Hr, Hk. by repeat split.
Qed.

(** X21.  A command line that parses and asks for nothing, the empty one
    included, makes [main] print the help and exit with code 1; before
    that the start-up has made the backup root where there was none. *)
Theorem X21_no_operation P prog args envs cycles config w0 w w2 :
  parse_arguments args = inr config ->
  help config = false -> listBackups config = false ->
  restoreBackup config = None -> deleteBackup config = None ->
  instant config = false -> daemon config = false ->
  create_readme_file w0 = Ok tt w ->
  ensure_backup_root config w = Ok tt w2 ->
  main P prog args envs cycles w0 = Ok 1 (extend w2 (Out <$> help_text prog)) /\
  lookup_path w2 (backupRoot config) <> None /\
  (lookup_path w (backupRoot config) = None ->
   lookup_path w2 (backupRoot config) = Some NDir).
Proof.
  intros Hp Hh Hl Hr Hd Hi Hdm Hreadme Hroot.
  destruct (ensure_backup_root_spec _ _ _ Hh Hl Hroot) as (_ & Hex & Hnew & _).
  split; [|done].
  unfold main, mbind, M_bind. rewrite Hreadme.
  unfold try_catch, main_body, mbind, M_bind, lift.
  rewrite Hp, Hh, Hroot, Hl, Hr, Hd, Hi, Hdm.
  unfold print_help. by rewrite cout_all_spec.
Qed.

(** ** The daemon loop within its limits *)

Lemma quiet_ret {A} (a : A) : quiet (mret a).
Proof. intros w. exists []. by rewrite app_nil_r. Qed.

Lemma quiet_bind {A B} (m : M A) (f : A -> M B) :
  quiet m -> (forall a, quiet (f a)) -> quiet (m ≫= f).
Proof.
  intros Hm Hf w. unfold mbind, M_bind. specialize (Hm w).
  destruct (m w) as [a w1|e w1| |w1]; try done.
  destruct Hm as (evs1 & Ht1 & Hq1). specialize (Hf a w1).
  destruct (f a w1) as [b w2|e w2| |w2]; try done;
    destruct Hf as (evs2 & Ht2 & Hq2); exists (evs1 ++ evs2);
    (split; [by rewrite Ht2, Ht1, app_assoc|by apply Forall_app]).
Qed.

Lemma quiet_try_catch {A} (body : M A) (handler : exn -> M A) :
  quiet body -> (forall e, quiet (handler e)) -> quiet (try_catch body handler).
Proof.
  intros Hm Hf w. unfold try_catch. specialize (Hm w).
  destruct (body w) as [a w1|e w1| |w1]; try done.
  destruct Hm as (evs1 & Ht1 & Hq1). specialize (Hf e w1).
  destruct (handler e w1) as [b w2|e2 w2| |w2]; try done;
    destruct Hf as (evs2 & Ht2 & Hq2); exists (evs1 ++ evs2);
    (split; [by rewrite Ht2, Ht1, app_assoc|by apply Forall_app]).
Qed.

Lemma quiet_cout text : quiet (cout text).
Proof. intros w. exists [Out text]. split; [done|by repeat constructor]. Qed.

Lemma quiet_cerr text : quiet (cerr text).
Proof. intros w. exists [Err text]. split; [done|by repeat constructor]. Qed.

Lemma quiet_when b m : quiet m -> quiet (when b m).
Proof. intros Hm. destruct b; [done|apply quiet_ret]. Qed.

Lemma quiet_fs_exists p : quiet (fs_exists p).
Proof. intros w. exists []. by rewrite app_nil_r. Qed.

Lemma quiet_fs_is_directory p : quiet (fs_is_directory p).
Proof. intros w. exists []. by rewrite app_nil_r. Qed.

Lemma quiet_read_path_from_file p : quiet (read_path_from_file p).
Proof.
  intros w. unfold read_path_from_file.
  destruct (lookup_path w p) as [[c|]|]; try (exists []; by rewrite app_nil_r).
  destruct (first_path_line _); exists []; by rewrite app_nil_r.
Qed.

Lemma quiet_remove_all p : quiet (remove_all p).
Proof.
  intros w. unfold remove_all.
  destruct (resolve _ _); exists []; simpl; by rewrite app_nil_r.
Qed.

Lemma quiet_copy_recursive P from to : quiet (copy_recursive P from to).
Proof.
  intros w. unfold copy_recursive.
  destruct (resolve (w_cwd w) from), (resolve (w_cwd w) to);
    try (exists []; by rewrite app_nil_r).
  destruct (copy_tree _ _ _); exists []; simpl; by rewrite app_nil_r.
Qed.

Lemma quiet_directory_iterator p : quiet (directory_iterator p).
Proof.
  intros w. unfold directory_iterator.
  destruct (resolve _ _); [|exists []; by rewrite app_nil_r].
  destruct (node_at _ _) as [[|]|]; exists []; by rewrite app_nil_r.
Qed.

Create HintDb quiet.

#[local] Hint Resolve quiet_ret quiet_cout quiet_cerr quiet_when quiet_fs_exists
  quiet_fs_is_directory quiet_read_path_from_file quiet_remove_all
  quiet_copy_recursive quiet_directory_iterator : quiet.

Lemma quiet_evict_loop root maxBackups verbose backups :
  quiet (evict_loop root maxBackups verbose backups).
Proof.
  induction backups as [|front rest IH]; cbn [evict_loop];
    destruct (_ <=? _)%N; auto with quiet; [done|].
  apply quiet_bind; [auto with quiet|intros _].
  apply quiet_bind; [auto with quiet|intros _]. exact IH.
Qed.

Lemma quiet_cleanup_old_backups root maxBackups verbose :
  quiet (cleanup_old_backups root maxBackups verbose).
Proof.
  unfold cleanup_old_backups. apply quiet_bind; [auto with quiet|intros entries].
  apply quiet_evict_loop.
Qed.

(** A create operation writes messages and never sleeps. *)
Lemma quiet_perform_backup P config lt : quiet (perform_backup P config lt).
Proof.
  unfold perform_backup. apply quiet_try_catch.
  - apply quiet_bind; [destruct (negb _); auto with quiet|]. intros src.
    apply quiet_bind; [auto with quiet|]. intros found.
    apply quiet_bind; [auto with quiet|]. intros isdir.
    destruct (negb found || negb isdir).
    + apply quiet_bind; auto with quiet.
    + apply quiet_bind; [apply quiet_cleanup_old_backups|intros _].
      repeat (apply quiet_bind; [auto with quiet|intros ?]). auto with quiet.
  - intros e. apply quiet_bind; auto with quiet.
Qed.

Lemma cycle_report_quiet config ok :
  Forall (fun e => is_sleep e = false) (cycle_report config ok).
Proof.
  unfold cycle_report. destruct ok; [destruct (verbose config)|]; by repeat constructor.
Qed.

(** X25.  The schedule of the daemon within its limits.  With a retention
    count of at least one, and with clock readings and an interval whose
    nanoseconds stay far from the ends of [long long], every cycle comes
    back, whether its backup succeeds or fails: a failed backup is reported
    and nothing else happens to it; the next instant is the start of the
    cycle plus the interval; the cycle ends with a sleep until that instant
    when it is later than the reading after the backup, and with nothing
    otherwise.  The loop runs these cycles one after the other: after any
    number of them it is still running, in the state that the schedule
    gives. *)
Theorem X25_daemon_schedule_in_range P config envs :
  (1 <= maxBackups config)%N ->
  (forall k, clock_in_range config (envs k)) ->
  (forall k w, exists ok w1,
     perform_backup P config (ce_localtime (envs k)) (cycle_begin config w)
       = Ok ok w1 /\
     daemon_cycle P config (envs k) w =
       Ok tt (extend w1 (cycle_report config ok ++
                         cycle_wait config (envs k)
                           (ce_start (envs k) + interval config * ns_per_minute)))) /\
  cycle_report config false =
    [Out ("Backup failed, will retry in " +:+ dec_Z (interval config) +:+
          " minutes." +:+ nl)] /\
  (forall env deadline,
     (ce_now env < deadline ->
      last (cycle_wait config env deadline) = Some (SleepUntil deadline) /\
      Forall (fun e => is_sleep e = false) (removelast (cycle_wait config env deadline))) /\
     (deadline <= ce_now env -> cycle_wait config env deadline = [])) /\
  (forall cycles k w, exists w',
     scheduled P config envs k cycles w = Some w' /\
     daemon_loop P config envs k cycles w = Running w').
Proof.
  intros Hmax Hclock. split; [intros k w; by apply daemon_cycle_spec|].
  split; [done|]. split.
  - intros env deadline. unfold cycle_wait. split; intros H.
    + destruct (Z.ltb_spec (ce_now env) deadline); [|lia].
      split; [apply last_snoc|]. rewrite removelast_last.
      destruct (verbose config); by repeat constructor.
    + by destruct (Z.ltb_spec (ce_now env) deadline); [lia|].
  - induction cycles as [|cycles IH]; intros k w; [by eexists|].
    cbn [daemon_loop scheduled]. unfold mbind, M_bind.
    destruct (daemon_cycle_spec P config (envs k) w Hmax (Hclock k))
      as (ok & w1 & -> & ->).
    apply IH.
Qed.

(** Three cycles of the daemon on the sample clock. *)
Lemma X25_daemon_schedule_in_range_witness :
  exists w',
    scheduled sample_platform sample_config sample_envs 0 3
      (make_world fs_source_root) = Some w' /\
    daemon_loop sample_platform sample_config sample_envs 0 3
      (make_world fs_source_root) = Running w'.
Proof.
  assert (H1 : (1 <= maxBackups sample_config)%N) by (simpl; lia).
  assert (H2 : forall k, clock_in_range sample_config (sample_envs k)).
  { intros k. unfold clock_in_range, far_from_overflow, sample_envs, ns_per_minute.
    simpl. lia. }
  exact (proj2 (proj2 (proj2 (X25_daemon_schedule_in_range sample_platform
                                sample_config sample_envs H1 H2)))
           3%nat O (make_world fs_source_root)).
Defined.

(** X22.  With an interval of zero or less, which the parser lets through,
    a retention count of at least one, clock readings and an interval far
    from the ends of [long long], and a steady clock that does not go
    back, the daemon never sleeps: the next backup time is never after the
    reading that follows the backup, so after any number of cycles the
    loop is still running, it has run the cycles of the schedule back to
    back, and what it has added to the trace holds no sleep. *)
Theorem X22_nonpositive_interval_never_sleeps P config envs :
  (1 <= maxBackups config)%N ->
  (forall k, clock_in_range config (envs k)) ->
  interval config <= 0 ->
  (forall k, ce_start (envs k) <= ce_now (envs k)) ->
  forall cycles k w, exists w' evs,
    daemon_loop P config envs k cycles w = Running w' /\
    scheduled P config envs k cycles w = Some w' /\
    w_trace w' = w_trace w ++ evs /\
    Forall (fun e => is_sleep e = false) evs.
Proof.
  intros Hmax Hclock Hint Hmono.
  induction cycles as [|cycles IH]; intros k w.
  { exists w, []. rewrite app_nil_r. by repeat split. }
  cbn [daemon_loop scheduled]. unfold mbind, M_bind.
  destruct (daemon_cycle_spec P config (envs k) w Hmax (Hclock k))
    as (ok & w1 & Hpb & ->).
  rewrite Hpb.
  assert (Hwait : cycle_wait config (envs k)
                    (ce_start (envs k) + interval config * ns_per_minute) = []).
  { unfold cycle_wait.
    destruct (Z.ltb_spec (ce_now (envs k))
                (ce_start (envs k) + interval config * ns_per_minute)) as [Hlt|_];
      [|done].
    specialize (Hmono k). unfold ns_per_minute in Hlt. lia. }
  rewrite Hwait, app_nil_r.
  destruct (IH (S k) (extend w1 (cycle_report config ok))) as (w' & evs & Hl & Hs & Ht & Hq).
  pose proof (quiet_perform_backup P config (ce_localtime (envs k)) (cycle_begin config w))
    as Hquiet.
  rewrite Hpb in Hquiet. destruct Hquiet as (evs1 & Ht1 & Hq1).
  assert (Hbegin : exists evs0, w_trace (cycle_begin config w) = w_trace w ++ evs0 /\
                                Forall (fun e => is_sleep e = false) evs0).
  { unfold cycle_begin. destruct (verbose config).
    - eexists. split; [done|]. by repeat constructor.
    - exists []. by rewrite app_nil_r. }
  destruct Hbegin as (evs0 & Ht0 & Hq0).
  exists w', (evs0 ++ evs1 ++ cycle_report config ok ++ evs).
  split; [done|]. split; [done|]. split.
  - rewrite Ht. simpl. rewrite Ht1, Ht0. by rewrite <- !app_assoc.
  - repeat apply Forall_app_2; try done. apply cycle_report_quiet.
Qed.

(** [--interval 0] on the sample clock: two cycles. *)
Lemma X22_nonpositive_interval_never_sleeps_witness :
  exists w' evs,
    daemon_loop sample_platform (set_interval sample_config 0) sample_envs 0 2
      (make_world fs_source_root) = Running w' /\
    w_trace w' = w_trace (make_world fs_source_root) ++ evs /\
    Forall (fun e => is_sleep e = false) evs.
Proof.
  destruct (X22_nonpositive_interval_never_sleeps sample_platform
              (set_interval sample_config 0) sample_envs) with
    (cycles := 2%nat) (k := O) (w := make_world fs_source_root)
    as (w' & evs & Hl & _ & Ht & Hq).
  - simpl. lia.
  - intros k. unfold clock_in_range, far_from_overflow, sample_envs, ns_per_minute.
    simpl. lia.
  - simpl. lia.
  - intros k. unfold sample_envs. simpl. lia.
  - exists w', evs. split; [exact Hl|]. split; [exact Ht|exact Hq].
Defined.

(** [--list] where [CopiedFiles] is a regular file. *)
Lemma X20_list_root_is_a_file_witness :
  main sample_platform "FlameUp" ["--list"] sample_envs 0 (make_world fs_root_is_file) =
  Ok 1 (emit (with_readme fs_root_is_file)
          (Err ("Error: " +:+ what (FilesystemError "directory_iterator") +:+ nl))).
Proof.
  refine (proj2 (X20_list_root_is_a_file sample_platform "FlameUp" ["--list"]
                   sample_envs 0 (set_listBackups default_config)
                   (make_world fs_root_is_file) (with_readme fs_root_is_file)
                   "not a directory" _ _ _ _ _));
    [vm_compute; reflexivity | reflexivity | reflexivity | reflexivity
    | vm_compute; reflexivity].
Defined.

(** The empty command line in a work directory without a backup root. *)
Lemma X21_no_operation_witness :
  match ensure_backup_root default_config (with_readme fs_source) with
  | Ok _ w2 =>
      main sample_platform "FlameUp" [] sample_envs 0 (make_world fs_source) =
        Ok 1 (extend w2 (Out <$> help_text "FlameUp")) /\
      lookup_path w2 "CopiedFiles" = Some NDir
  | _ => False
  end.
Proof.
  assert (Hs : match ensure_backup_root default_config (with_readme fs_source) with
               | Ok _ _ => True | _ => False end) by (vm_compute; exact I).
  destruct (ensure_backup_root _ _) as [[] w2| | |] eqn:E; try exact Hs.
  assert (Hreadme : create_readme_file (make_world fs_source) =
                    Ok tt (with_readme fs_source)) by reflexivity.
  destruct (X21_no_operation sample_platform "FlameUp" [] sample_envs 0 default_config
              (make_world fs_source) (with_readme fs_source) w2
              eq_refl eq_refl eq_refl eq_refl eq_refl eq_refl eq_refl Hreadme E)
    as (Hm & _ & Hnew).
  split; [exact Hm|]. apply Hnew. vm_compute. reflexivity.
Defined.

(** X23.  [--restore <name>] without a [--restore-to] value that is not
    empty is refused by [main] with code 1 and never reaches
    [restore_backup]; a [--delete], [--now] or [--daemon] on the same
    command line is not acted on either.  The start-up has made the backup
    root all the same. *)
Theorem X23_restore_needs_target P prog args envs cycles config name w0 w w2 :
  parse_arguments args = inr config ->
  help config = false -> listBackups config = false ->
  restoreBackup config = Some name ->
  find_restore_to args = EmptyString ->
  create_readme_file w0 = Ok tt w ->
  ensure_backup_root config w = Ok tt w2 ->
  main P prog args envs cycles w0 =
    Ok 1 (emit w2 (Err ("Error: --restore-to <path> is required when using --restore"
                        +:+ nl))) /\
  lookup_path w2 (backupRoot config) <> None.
Proof.
  intros Hp Hh Hl Hr Ht Hreadme Hroot.
  destruct (ensure_backup_root_spec _ _ _ Hh Hl Hroot) as (_ & Hex & _).
  split; [|done].
  unfold main, mbind, M_bind. rewrite Hreadme.
  unfold try_catch, main_body, mbind, M_bind, lift.
  by rewrite Hp, Hh, Hroot, Hl, Hr, Ht.
Qed.

(** X24.  The retention pass is not undone when the copy fails: with a
    source and a backup root that are directories, if the copy into the new
    folder throws, [perform_backup] returns [false] and the snapshots that
    were evicted for the new one stay deleted; the file system is what the
    copy has left of the state after the eviction. *)
Theorem X24_failed_copy_keeps_evictions P config lt w src (s k : list string) :
  wf_world w -> (1 <= maxBackups config)%N ->
  source_of config w = Some src ->
  resolve (w_cwd w) src = Some s -> node_at (w_fs w) s = Some NDir ->
  resolve (w_cwd w) (backupRoot config) = Some k -> node_at (w_fs w) k = Some NDir ->
  let sorted := std_sort string_ltb (catalog w (backupRoot config)) in
  let evicted := take (length sorted + 1 - N.to_nat (maxBackups config)) sorted in
  let fs1 := foldl (fun fs e => remove_tree (k ++ [e]) fs) (w_fs w) evicted in
  let d := k ++ [make_timestamp_folder_name lt] in
  copy_tree fs1 s d = None ->
  exists w',
    perform_backup P config lt w = Ok false w' /\
    w_fs w' = copy_partial P fs1 s d /\
    last (w_trace w') = Some (backup_error "copy").
Proof.
  intros Hwf Hmax Hsrc%source_of_run Hs Hsd Hr Hk. cbv zeta.
  unfold catalog. rewrite Hr. intros Hcopy.
  pose proof Hwf as [Hwfs _].
  set (sorted := std_sort string_ltb (backup_names (dir_entries (w_fs w) k))) in *.
  set (evicted := take (length sorted + 1 - N.to_nat (maxBackups config)) sorted) in *.
  assert (Hplain : Forall (fun n => plain_name n = true) evicted).
  { apply Forall_forall.
    intros n (i & Hn%list_elem_of_lookup_2 & _)%elem_of_take.
    unfold sorted in Hn. rewrite std_sort_perm in Hn.
    by apply (catalog_entries_plain (w_fs w) k). }
  pose proof (cleanup_old_backups_spec (backupRoot config) (maxBackups config)
                (verbose config) w k Hmax Hr Hk) as Hclean.
  cbv zeta in Hclean. fold sorted in Hclean. fold evicted in Hclean.
  set (w1 := foldl (evict_step (backupRoot config) (verbose config)) w evicted) in *.
  assert (Hfs1 : w_fs w1 = foldl (fun fs e => remove_tree (k ++ [e]) fs) (w_fs w) evicted)
    by by apply evict_fold_fs.
  assert (Hc1 : w_cwd w1 = w_cwd w) by apply evict_fold_cwd.
  unfold perform_backup, try_catch.
  unfold mbind at 1, M_bind at 1. rewrite Hsrc.
  unfold mbind at 1, M_bind at 1. unfold fs_exists at 1.
  unfold mbind at 1, M_bind at 1. unfold fs_is_directory at 1.
  unfold lookup_path. rewrite Hs, Hsd. cbn [negb orb]. cbv beta iota.
  unfold mbind at 1, M_bind at 1. rewrite Hclean.
  unfold mbind at 1, M_bind at 1.
  assert (Hjoin : resolve (w_cwd w)
              (path_join (backupRoot config) (make_timestamp_folder_name lt)) =
              Some (k ++ [make_timestamp_folder_name lt]))
    by (apply resolve_join; [done|apply make_timestamp_folder_name_plain]).
  destruct (verbose config); unfold when, cout, mret, M_ret;
    unfold mbind at 1, M_bind at 1; unfold copy_recursive; simpl w_cwd; simpl w_fs;
    rewrite Hc1, Hs, Hjoin, Hfs1, Hcopy;
    eexists; (split; [reflexivity|]); simpl; (split; [done|apply last_snoc]).
Qed.

(** [--restore Backup_2024-01-02_00-00-00 --delete Backup_2024-01-03_00-00-00]
    without a target: neither is done. *)
Lemma X23_restore_needs_target_witness :
  main sample_platform "FlameUp"
    ["--restore"; "Backup_2024-01-02_00-00-00"; "--delete"; "Backup_2024-01-03_00-00-00"]
    sample_envs 0 (make_world fs_three) =
  Ok 1 (emit (with_readme fs_three)
          (Err ("Error: --restore-to <path> is required when using --restore" +:+ nl))).
Proof.
  refine (proj1 (X23_restore_needs_target sample_platform "FlameUp"
                   ["--restore"; "Backup_2024-01-02_00-00-00";
                    "--delete"; "Backup_2024-01-03_00-00-00"]
                   sample_envs 0
                   (set_deleteBackup
                      (set_restoreBackup default_config "Backup_2024-01-02_00-00-00")
                      "Backup_2024-01-03_00-00-00")
                   "Backup_2024-01-02_00-00-00"
                   (make_world fs_three) (with_readme fs_three) (with_readme fs_three)
                   _ _ _ _ _ _ _));
    reflexivity.
Defined.

(** A create whose source is the oldest snapshot, with a limit of two among
    three: the pass evicts the source and the next one, and the copy finds
    nothing to copy. *)
Lemma X24_failed_copy_keeps_evictions_witness :
  exists w',
    perform_backup sample_platform
      (set_maxBackups
         (set_sourcePath default_config "CopiedFiles/Backup_2024-01-01_00-00-00") 2)
      (Some noon) (make_world fs_three) = Ok false w' /\
    last (w_trace w') = Some (backup_error "copy").
Proof.
  destruct (X24_failed_copy_keeps_evictions sample_platform
              (set_maxBackups
                 (set_sourcePath default_config "CopiedFiles/Backup_2024-01-01_00-00-00") 2)
              (Some noon) (make_world fs_three)
              "CopiedFiles/Backup_2024-01-01_00-00-00"
              ["work"; "CopiedFiles"; "Backup_2024-01-01_00-00-00"]
              ["work"; "CopiedFiles"]) as (w' & Hpb & _ & Hlast).
  - apply (bool_decide_unpack _). vm_compute. exact I.
  - simpl. lia.
  - reflexivity.
  - vm_compute. reflexivity.
  - vm_compute. reflexivity.
  - vm_compute. reflexivity.
  - vm_compute. reflexivity.
  - vm_compute. reflexivity.
  - exists w'. split; [exact Hpb|exact Hlast].
Defined.
